(** * SEO analyzer: audit facts, structured data, contact detection and scoring

    A shallow embedding of [analyzeSEO] (seo-analyzer.js, the weighted
    100-point variant) together with the properties its specification
    states about it.

    Conventions of the embedding.
    - A JavaScript string is the list of its UTF-16 code units.
    - A JavaScript Number that holds a count or a length is a [Z]; the two
      percentages, which come out of an IEEE-754 division, and the
      numbers of a parsed JSON document are binary64 [float]s computed
      with the kernel's primitive operations.
    - What cheerio, the regular-expression engine and [JSON.parse] return
      is input data: the text of the selected elements, the list of
      matches, the parsed value (or the fact that parsing failed).
    - [console.log] narration and the [details] strings are not modelled. *)

From Stdlib Require Import ZArith NArith List Bool Lia String Ascii DecimalString.
From Stdlib Require Import Sorting.Permutation.
From Stdlib Require Numbers.Cyclic.Int63.Uint63.
From Stdlib Require Import Floats.PrimFloat Floats.SpecFloat Floats.FloatOps
  Floats.FloatAxioms.
Import ListNotations.

Set Implicit Arguments.

Open Scope Z_scope.

(* ================================================================== *)
(** ** JavaScript strings *)
(* ================================================================== *)

Module JS.

Definition codeunit := N.
Definition jsstring := list codeunit.

(** An ASCII literal of the source as a JavaScript string. *)
Definition lit (s : string) : jsstring :=
  List.map N_of_ascii (list_ascii_of_string s).

Definition str_length (s : jsstring) : Z := Z.of_nat (List.length s).

Definition codeunit_eqb : codeunit -> codeunit -> bool := N.eqb.

Fixpoint str_eqb (a b : jsstring) : bool :=
  match a, b with
  | [], [] => true
  | x :: a', y :: b' => codeunit_eqb x y && str_eqb a' b'
  | _, _ => false
  end.

(** [WhiteSpace] and [LineTerminator] of ECMAScript: what [\s] matches and
    what [String.prototype.trim] strips. *)
Definition is_white_space (c : codeunit) : bool :=
  ((9 <=? c) && (c <=? 13) || (c =? 32) || (c =? 160) || (c =? 5760)
   || ((8192 <=? c) && (c <=? 8202)) || (c =? 8232) || (c =? 8233)
   || (c =? 8239) || (c =? 8287) || (c =? 12288) || (c =? 65279))%N.

(** [\d] *)
Definition is_digit (c : codeunit) : bool := ((48 <=? c) && (c <=? 57))%N.

(** [/\d/.test(s)] *)
Definition has_digit (s : jsstring) : bool := existsb is_digit s.

Fixpoint drop_white (s : jsstring) : jsstring :=
  match s with
  | c :: r => if is_white_space c then drop_white r else s
  | [] => []
  end.

(** [s.trim()] *)
Definition trim (s : jsstring) : jsstring :=
  rev (drop_white (rev (drop_white s))).

(** [s.replace(/\s+/g, " ")]: every maximal run of white space becomes
    one space.  [in_run] tells that the previous code unit belonged to a
    run that has already been replaced. *)
Fixpoint collapse_from (in_run : bool) (s : jsstring) : jsstring :=
  match s with
  | [] => []
  | c :: r =>
      if is_white_space c
      then (if in_run then collapse_from true r else 32%N :: collapse_from true r)
      else c :: collapse_from false r
  end.

Definition collapse_white (s : jsstring) : jsstring := collapse_from false s.

(** [s.split(/\s+/)]: the pieces between maximal runs of white space.  A
    run at the very start or end leaves an empty piece there, and the
    empty string gives the one-element array [[""]] (the separator cannot
    match the empty string).  [tok] is the piece being read, reversed. *)
Fixpoint split_from (in_sep : bool) (tok : jsstring) (s : jsstring)
  : list jsstring :=
  match s with
  | [] => [rev tok]
  | c :: r =>
      if is_white_space c
      then (if in_sep then split_from true tok r
            else rev tok :: split_from true [] r)
      else split_from false (c :: tok) r
  end.

Definition split_white (s : jsstring) : list jsstring := split_from false [] s.

(** [prefix p s]: [s.startsWith(p)] *)
Fixpoint starts_with (p s : jsstring) : bool :=
  match p, s with
  | [], _ => true
  | x :: p', y :: s' => codeunit_eqb x y && starts_with p' s'
  | _ :: _, [] => false
  end.

(** [s.includes(p)] *)
Fixpoint includes (p s : jsstring) : bool :=
  starts_with p s ||
  match s with
  | [] => false
  | _ :: s' => includes p s'
  end.

(** Truthiness of a string: non-empty. *)
Definition str_truthy (s : jsstring) : bool :=
  match s with [] => false | _ :: _ => true end.

End JS.

Import JS.

(* ================================================================== *)
(** ** Numbers that are not integers *)
(* ================================================================== *)

Module Num.

(** The binary64 value of an integer-valued Number (exact below 2^53). *)
Definition of_int (z : Z) : float :=
  SF2Prim (binary_normalize prec emax z 0 false).

(** [a / b] for two integer-valued Numbers. *)
Definition div (a b : Z) : float := PrimFloat.div (of_int a) (of_int b).

(** [Math.round]: the closest integer, a tie going towards +infinity;
    NaN, the zeros and the infinities are returned as they are. *)
Definition Math_round (x : float) : float :=
  match Prim2SF x with
  | S754_finite s m e =>
      if 0 <=? e then x
      else
        let d := Z.pow 2 (- e) in
        let v := if s then Z.neg m else Z.pos m in
        let q := Z.div v d in
        let r := Z.modulo v d in
        let n := if d <=? 2 * r then q + 1 else q in
        if (n =? 0) && s then neg_zero else of_int n
  | _ => x
  end.

(** [a / b] with the zero divisor made observable: [None] where
    JavaScript answers [Infinity] or [NaN]. *)
Definition div_checked (a b : Z) : option float :=
  if b =? 0 then None else Some (div a b).

(** *** Number::toString

    The decimal form JavaScript prints for a Number: the shortest digits
    [s] (there are [k] of them) and the position [n] of the decimal
    point such that [s * 10^(n-k)] is read back as the same binary64
    value, the digits closest to the value when several are as short. *)

(** The decimal digits of a natural number. *)
Definition digits (n : Z) : jsstring :=
  lit (NilZero.string_of_uint (N.to_uint (Z.to_N n))).

(** [s * 10^p] against [c * 2^q], exactly. *)
Definition compare_scaled (s p c q : Z) : comparison :=
  Z.compare (s * 10 ^ Z.max p 0 * 2 ^ Z.max (- q) 0)
            (c * 2 ^ Z.max q 0 * 10 ^ Z.max (- p) 0).

(** Whether [s * 10^p] is read back as the binary64 value [m * 2^e]: it
    lies between the midpoints to the two neighbouring values, a
    midpoint itself counting when [m] is even.  The neighbour below a
    power of two is half as far. *)
Definition rounds_to (m e s p : Z) : bool :=
  let below := if (m =? 2 ^ 52) && (e >? -1074) then 4 * m - 1 else 4 * m - 2 in
  let above := 4 * m + 2 in
  match compare_scaled s p below (e - 2), compare_scaled s p above (e - 2) with
  | Gt, Lt => true
  | Eq, Lt | Gt, Eq => Z.even m
  | _, _ => false
  end.

(** The [n] with [10^(n-1) <= m * 2^e < 10^n]. *)
Definition magnitude (m e : Z) : Z :=
  let guess := (Z.log2 m + e) * 30103 / 100000 in
  match List.find (fun n => match compare_scaled 1 n m e with
                            | Gt => true
                            | _ => false
                            end)
          [guess - 1; guess; guess + 1; guess + 2] with
  | Some n => n
  | None => guess + 3
  end.

(** The [k]-digit decimal closest to [m * 2^e], if it is read back as
    that value: its digits and its [n]. *)
Definition candidate (m e n k : Z) : option (Z * Z) :=
  let p := n - k in
  let lower := (m * 2 ^ Z.max e 0 * 10 ^ Z.max (- p) 0)
               / (2 ^ Z.max (- e) 0 * 10 ^ Z.max p 0) in
  let upper := lower + 1 in
  let pick (s : Z) := if s =? 10 ^ k then (10 ^ (k - 1), n + 1) else (s, n) in
  match rounds_to m e lower p, rounds_to m e upper p with
  | true, true =>
      match compare_scaled (2 * lower + 1) p m (e + 1) with
      | Gt => Some (pick lower)
      | Lt => Some (pick upper)
      | Eq => Some (pick (if Z.even lower then lower else upper))
      end
  | true, false => Some (pick lower)
  | false, true => Some (pick upper)
  | false, false => None
  end.

(** The least [k] that has a candidate; seventeen digits always do. *)
Fixpoint shortest (m e n k : Z) (fuel : nat) : Z * Z * Z :=
  match fuel with
  | O => (10 ^ (k - 1), n, k)
  | S fuel' =>
      match candidate m e n k with
      | Some (s, n') => (s, n', k)
      | None => shortest m e n (k + 1) fuel'
      end
  end.

Definition zeros (n : Z) : jsstring := repeat 48%N (Z.to_nat n).

(** The four layouts of the standard for a positive finite value:
    an integer, a decimal point inside the digits, a fraction below
    one down to [1e-6], and the exponent form from [1e21] up and below
    [1e-6]. *)
Definition toString_finite (m e : Z) : jsstring :=
  let '(s, n, k) := shortest m e (magnitude m e) 1 17 in
  let d := digits s in
  if (k <=? n) && (n <=? 21) then d ++ zeros (n - k)
  else if (0 <? n) && (n <=? 21)
  then firstn (Z.to_nat n) d ++ lit "." ++ skipn (Z.to_nat n) d
  else if (-6 <? n) && (n <=? 0) then lit "0." ++ zeros (- n) ++ d
  else
    let exponent :=
      (if 0 <=? n - 1 then lit "+" else lit "-") ++ digits (Z.abs (n - 1)) in
    if k =? 1 then d ++ lit "e" ++ exponent
    else firstn 1 d ++ lit "." ++ skipn 1 d ++ lit "e" ++ exponent.

(** [String(x)] for a Number. *)
Definition toString (x : float) : jsstring :=
  match Prim2SF x with
  | S754_nan => lit "NaN"
  | S754_zero _ => lit "0"
  | S754_infinity false => lit "Infinity"
  | S754_infinity true => lit "-Infinity"
  | S754_finite false m e => toString_finite (Z.pos m) e
  | S754_finite true m e => lit "-" ++ toString_finite (Z.pos m) e
  end.

End Num.

(* ================================================================== *)
(** ** Fact extraction *)
(* ================================================================== *)

Module Facts.

(** *** Rendering percentage (text content against HTML size) *)

(** [$("body").text().replace(/\s+/g, " ").trim()] *)
Definition textContent (body : jsstring) : jsstring :=
  trim (collapse_white body).

(** [htmlSize > 0 ? Math.round((textSize / htmlSize) * 100) : 0], the
    quotient taken with [div_checked]: [None] would be a division by
    zero. *)
Definition renderingPercentage_of (htmlSize textSize : Z) : option float :=
  if htmlSize >? 0
  then match Num.div_checked textSize htmlSize with
       | Some q => Some (Num.Math_round (PrimFloat.mul q 100))
       | None => None
       end
  else Some 0%float.

Definition renderingPercentage (html body : jsstring) : option float :=
  let htmlSize := str_length html in
  let textSize := str_length (textContent body) in
  renderingPercentage_of htmlSize textSize.

(** *** Meta tags *)

Record MetaTags := {
  hasTitle : bool;
  titleLength : Z;
  hasDescription : bool;
  descriptionLength : Z;
  hasViewport : bool;
  hasOgTags : bool;
  hasTwitterCard : bool
}.

(** [attr(...) || ""] *)
Definition or_empty (o : option jsstring) : jsstring :=
  match o with Some s => s | None => [] end.

(** [title] is the text of the first [<title>] after the payment-keyword
    clean-up; the three attributes are [None] when cheerio finds none. *)
Definition metaTags (title : jsstring) (description viewport : option jsstring)
    (ogTags twitterCard : Z) : MetaTags :=
  let description := or_empty description in
  let viewport := or_empty viewport in
  {| hasTitle := str_length title >? 0;
     titleLength := str_length title;
     hasDescription := str_length description >? 0;
     descriptionLength := str_length description;
     hasViewport := str_length viewport >? 0;
     hasOgTags := ogTags >? 0;
     hasTwitterCard := twitterCard >? 0 |}.

(** *** Headings *)

Record Headings := {
  h1Count : Z;
  h2Count : Z;
  h3Count : Z;
  h4Count : Z;
  h5Count : Z;
  h6Count : Z;
  hasH1 : bool;
  h1Text : list jsstring
}.

(** [h1Elements] is the text of every [<h1>], in document order; the
    other levels are only counted. *)
Definition headings (h1Elements : list jsstring) (h2 h3 h4 h5 h6 : Z) : Headings :=
  {| h1Count := Z.of_nat (List.length h1Elements);
     h2Count := h2; h3Count := h3; h4Count := h4; h5Count := h5; h6Count := h6;
     hasH1 := Z.of_nat (List.length h1Elements) >? 0;
     h1Text := filter (fun text => str_length text >? 0) (List.map trim h1Elements) |}.

(** *** Images *)

(** An [<img>] element through the two attributes the analyzer reads;
    [None] is cheerio's [undefined] for a missing attribute. *)
Record img := { attr_src : option jsstring; attr_alt : option jsstring }.

Record imageData := {
  src : jsstring;
  alt : jsstring;
  hasAlt : bool
}.

(** [alt !== undefined && alt !== null && alt.trim().length > 0] *)
Definition img_hasAlt (i : img) : bool :=
  match attr_alt i with
  | Some a => str_length (trim a) >? 0
  | None => false
  end.

(** The mutable locals of the [images.each] loop. *)
Record imgLoop := {
  imagesWithAlt : Z;
  imagesList : list imageData;
  imagesWithAltList : list imageData;
  imagesWithoutAltList : list imageData
}.

Definition imgLoop_init : imgLoop :=
  {| imagesWithAlt := 0; imagesList := []; imagesWithAltList := [];
     imagesWithoutAltList := [] |}.

Definition imgLoop_step (st : imgLoop) (i : img) : imgLoop :=
  let hasAlt := img_hasAlt i in
  let imageData := {| src := or_empty (attr_src i);
                      alt := or_empty (attr_alt i);
                      hasAlt := hasAlt |} in
  if hasAlt
  then {| imagesWithAlt := imagesWithAlt st + 1;
          imagesList := imagesList st ++ [imageData];
          imagesWithAltList := imagesWithAltList st ++ [imageData];
          imagesWithoutAltList := imagesWithoutAltList st |}
  else {| imagesWithAlt := imagesWithAlt st;
          imagesList := imagesList st ++ [imageData];
          imagesWithAltList := imagesWithAltList st;
          imagesWithoutAltList := imagesWithoutAltList st ++ [imageData] |}.

Record ImagesData := {
  total : Z;
  withAlt : Z;
  withoutAlt : Z;
  altPercentage : float;
  all : list imageData;
  withAltList : list imageData;
  withoutAltList : list imageData
}.

Definition imagesData (images : list img) : ImagesData :=
  let st := fold_left imgLoop_step images imgLoop_init in
  let totalImages := Z.of_nat (List.length images) in
  {| total := totalImages;
     withAlt := imagesWithAlt st;
     withoutAlt := totalImages - imagesWithAlt st;
     altPercentage :=
       if totalImages >? 0
       then Num.Math_round
              (PrimFloat.mul (Num.div (imagesWithAlt st) totalImages) 100)
       else 100%float;
     all := imagesList st;
     withAltList := imagesWithAltList st;
     withoutAltList := imagesWithoutAltList st |}.

(** *** Content *)

Definition bodyText (body : jsstring) : jsstring := trim (collapse_white body).

Definition wordCount_of (bodyText : jsstring) : Z :=
  Z.of_nat (List.length (split_white bodyText)).

Record Content := { wordCount : Z; textLength : Z }.

Definition content (body : jsstring) : Content :=
  {| wordCount := wordCount_of (bodyText body);
     textLength := str_length (bodyText body) |}.

(** *** Technical probes read off the URL and the raw HTML *)

Definition normalizeUrl (url : jsstring) : jsstring :=
  if negb (starts_with (lit "http://") url) && negb (starts_with (lit "https://") url)
  then lit "https://" ++ url
  else url.

Definition isSSL (url : jsstring) : bool := starts_with (lit "https://") url.

Definition hasAnalytics (html : jsstring) : bool :=
  let hasGoogleAnalytics :=
    includes (lit "google-analytics.com/analytics.js") html
    || includes (lit "googletagmanager.com/gtag/js") html
    || includes (lit "gtag(") html
    || includes (lit "ga(") html in
  let hasFacebookPixel :=
    includes (lit "facebook.net/en_US/fbevents.js") html
    || includes (lit "fbq(") html in
  hasGoogleAnalytics || hasFacebookPixel.

End Facts.

(* ================================================================== *)
(** ** JSON values and completions *)
(* ================================================================== *)

Module Json.

(** A value returned by [JSON.parse].  [JObj] lists the object's own
    properties in the order [Object.values] enumerates them, each key
    once.  A number is the binary64 value the parser rounds the literal
    to. *)
#[warnings="-register-all"]
Inductive json :=
| JNull
| JBool (b : bool)
| JNum (n : float)
| JStr (s : jsstring)
| JArr (items : list json)
| JObj (members : list (jsstring * json)).

(** [obj[key]] on the own properties; [None] is [undefined]. *)
Fixpoint get (key : jsstring) (members : list (jsstring * json)) : option json :=
  match members with
  | [] => None
  | (k, v) :: r => if str_eqb key k then Some v else get key r
  end.

(** [Object.values(obj)] *)
Definition values (members : list (jsstring * json)) : list json :=
  List.map snd members.

Definition truthy (v : json) : bool :=
  match v with
  | JNull => false
  | JBool b => b
  | JNum n => negb (PrimFloat.eqb n 0 || PrimFloat.is_nan n)
  | JStr s => str_truthy s
  | JArr _ | JObj _ => true
  end.

Definition truthy_opt (o : option json) : bool :=
  match o with Some v => truthy v | None => false end.

(** [typeof v === 'object'] for a non-null [v]. *)
Definition is_object (v : json) : bool :=
  match v with JArr _ | JObj _ => true | _ => false end.

(** The comparison of [Array.prototype.includes]: numbers as IEEE
    equality has them, except that [NaN] equals itself.  Two arrays or
    two objects are compared by identity, and the values met while
    walking a freshly parsed tree are pairwise distinct objects. *)
Definition sameValueZero (a b : json) : bool :=
  match a, b with
  | JNull, JNull => true
  | JBool x, JBool y => Bool.eqb x y
  | JNum x, JNum y =>
      PrimFloat.eqb x y || (PrimFloat.is_nan x && PrimFloat.is_nan y)
  | JStr x, JStr y => str_eqb x y
  | _, _ => false
  end.

(** [arr.includes(v)] *)
Definition arr_includes (v : json) (arr : list json) : bool :=
  existsb (sameValueZero v) arr.

End Json.

Import Json.

(** How a block of statements ends: normally, or by an exception that
    leaves the updates made so far in place. *)
Inductive completion (S : Type) :=
| Normal (s : S)
| Throw (s : S).

Arguments Normal {S} s.
Arguments Throw {S} s.

Definition state_of {S} (c : completion S) : S :=
  match c with Normal s | Throw s => s end.

Definition andThen {S} (c : completion S) (k : S -> completion S) : completion S :=
  match c with Normal s => k s | Throw s => Throw s end.

(** [try { ... } catch { }] *)
Definition tryCatch {S} (c : completion S) : completion S :=
  Normal (state_of c).

Section ForEach.

Context {A S : Type} (f : A -> S -> completion S).

(** [l.forEach(x => f(x))] *)
Fixpoint forEach (l : list A) (s : S) : completion S :=
  match l with
  | [] => Normal s
  | x :: r => andThen (f x s) (forEach r)
  end.

End ForEach.

(* ================================================================== *)
(** ** Structured data extraction *)
(* ================================================================== *)

Module Schema.

(** The locals that [extractSchemaTypes] closes over. *)
Record State := {
  schemaTypes : list json;
  hasIdentitySchema : bool;
  identityType : jsstring;
  hasLocalBusinessSchema : bool
}.

Definition init : State :=
  {| schemaTypes := []; hasIdentitySchema := false; identityType := [];
     hasLocalBusinessSchema := false |}.

Definition isIdentity (type : jsstring) : bool :=
  str_eqb type (lit "Organization") || str_eqb type (lit "Person")
  || str_eqb type (lit "Corporation") || str_eqb type (lit "LocalBusiness").

Definition isLocalBusiness (type : jsstring) : bool :=
  str_eqb type (lit "LocalBusiness") || includes (lit "LocalBusiness") type
  || str_eqb type (lit "Restaurant") || str_eqb type (lit "Store")
  || str_eqb type (lit "MedicalBusiness")
  || str_eqb type (lit "ProfessionalService").

Definition push (type : json) (s : State) : State :=
  {| schemaTypes := schemaTypes s ++ [type];
     hasIdentitySchema := hasIdentitySchema s;
     identityType := identityType s;
     hasLocalBusinessSchema := hasLocalBusinessSchema s |}.

Definition setIdentity (type : jsstring) (s : State) : State :=
  {| schemaTypes := schemaTypes s;
     hasIdentitySchema := true;
     identityType := type;
     hasLocalBusinessSchema := hasLocalBusinessSchema s |}.

Definition setLocalBusiness (s : State) : State :=
  {| schemaTypes := schemaTypes s;
     hasIdentitySchema := hasIdentitySchema s;
     identityType := identityType s;
     hasLocalBusinessSchema := true |}.

(** The body of [types.forEach(type => ...)].  Only a string can equal
    one of the literals.  [type.includes] is the substring test on a
    string and the membership test on an array; a number, [true] or an
    object has no callable [includes], so the call throws after the value
    has been pushed. *)
Definition addType (type : json) (s : State) : completion State :=
  if truthy type && negb (arr_includes type (schemaTypes s))
  then
    let s1 := push type s in
    match type with
    | JStr t =>
        let s2 := if isIdentity t then setIdentity t s1 else s1 in
        Normal (if isLocalBusiness t then setLocalBusiness s2 else s2)
    | JArr items =>
        Normal (if arr_includes (JStr (lit "LocalBusiness")) items
                then setLocalBusiness s1 else s1)
    | _ => Throw s1
    end
  else Normal s.

(** [if (schema["@type"]) { const types = ...; types.forEach(...) }] *)
Definition addTypes (type : option json) (s : State) : completion State :=
  match type with
  | Some t =>
      if truthy t
      then match t with
           | JArr types => forEach addType types s
           | _ => forEach addType [t] s
           end
      else Normal s
  | None => Normal s
  end.

(** The body of [Object.values(schema).forEach(value => ...)], with the
    recursive call as a parameter. *)
Definition visitValue (rec : json -> State -> completion State)
    (value : json) (s : State) : completion State :=
  match value with
  | JObj _ => rec value s
  | JArr items =>
      forEach (fun item s => if is_object item then rec item s else Normal s)
        items s
  | _ => Normal s
  end.

(** The [@graph] member when it is an array, each item already paired
    with its recursive call. *)
Definition graphRun (rec : json -> State -> completion State)
    (members : list (jsstring * json)) : option (State -> completion State) :=
  match
    List.find (fun kv => str_eqb (lit "@graph") (fst kv))
      (List.map (fun kv => (fst kv,
                            match snd kv with
                            | JArr graph => Some (forEach rec graph)
                            | _ => None
                            end)) members)
  with
  | Some (_, run) => run
  | None => None
  end.

(** [extractSchemaTypes]: a falsy value returns at once; an object whose
    [@graph] is an array is replaced by its graph members; otherwise the
    object's own [@type] is recorded and every nested object, and every
    object inside a nested array, is visited.  A parsed array has neither
    [@graph] nor [@type], and its [Object.values] are its items; a
    truthy primitive has nothing to visit. *)
Fixpoint extractSchemaTypes (schema : json) (s : State) {struct schema}
  : completion State :=
  match schema with
  | JObj members =>
      match graphRun extractSchemaTypes members with
      | Some run => run s
      | None =>
          andThen (addTypes (get (lit "@type") members) s)
                  (forEach (fun kv => visitValue extractSchemaTypes (snd kv))
                           members)
      end
  | JArr items => forEach (visitValue extractSchemaTypes) items s
  | _ => Normal s
  end.

(** A [<script type="application/ld+json">] element: its body is empty,
    or [JSON.parse] throws on it, or it parses. *)
Inductive ldScript :=
| NoContent
| Unparseable
| Parsed (schema : json).

(** The callback of [ldJsonScripts.each]: the [try] block, then the
    [catch] that only logs. *)
Definition scriptBody (el : ldScript) (s : State) : completion State :=
  match el with
  | NoContent => Normal s
  | Unparseable => Throw s
  | Parsed schema => extractSchemaTypes schema s
  end.

Definition eachScript (ldJsonScripts : list ldScript) (s : State)
  : completion State :=
  forEach (fun el s => tryCatch (scriptBody el s)) ldJsonScripts s.

Record StructuredData := {
  sd_state : State;
  hasMicrodata : bool;
  hasRDFa : bool;
  hasAnyStructuredData : bool;
  hasJsonLd : bool
}.

Definition structuredData (ldJsonScripts : list ldScript)
    (hasMicrodata hasRDFa : bool) : completion StructuredData :=
  match eachScript ldJsonScripts init with
  | Normal s =>
      let n := Z.of_nat (List.length (schemaTypes s)) in
      Normal {| sd_state := s;
                hasMicrodata := hasMicrodata;
                hasRDFa := hasRDFa;
                hasAnyStructuredData := (n >? 0) || hasMicrodata || hasRDFa;
                hasJsonLd := (Z.of_nat (List.length ldJsonScripts) >? 0) && (n >? 0) |}
  | Throw s =>
      Throw {| sd_state := s; hasMicrodata := hasMicrodata; hasRDFa := hasRDFa;
               hasAnyStructuredData := false; hasJsonLd := false |}
  end.

End Schema.

(* ================================================================== *)
(** ** Contact detection: phone and address *)
(* ================================================================== *)

Module Contact.

Import Schema.

(** *** Phone *)

Inductive phoneSource := bodyTextSource | telLinkSource.

Record phoneMatch := { source : phoneSource; value : jsstring }.

(** [for (const pattern of phonePatterns) for (const match of
    bodyText.matchAll(pattern)) phoneMatches.push(...)].  [perPattern]
    holds, for each of the four patterns in their order, the matches the
    engine found in [bodyText]. *)
Definition bodyPhoneMatches (perPattern : list (list jsstring)) : list phoneMatch :=
  fold_left
    (fun phoneMatches matches =>
       fold_left
         (fun phoneMatches m =>
            phoneMatches ++ [{| source := bodyTextSource; value := m |}])
         matches phoneMatches)
    perPattern [].

(** The callback of [telLinks.each]; [text] is [$(el).text()]. *)
Definition telLink_step (phoneMatches : list phoneMatch) (text : jsstring)
  : list phoneMatch :=
  let displayText := trim text in
  if str_truthy displayText && has_digit displayText
  then {| source := telLinkSource; value := displayText |} :: phoneMatches
  else phoneMatches.

Definition phoneMatches (perPattern : list (list jsstring))
    (telLinks : list jsstring) : list phoneMatch :=
  fold_left telLink_step telLinks (bodyPhoneMatches perPattern).

(** [validPhone]; [None] is [null]. *)
Definition validPhone (perPattern : list (list jsstring))
    (telLinks : list jsstring) : option jsstring :=
  match phoneMatches perPattern telLinks with
  | m :: _ => Some (value m)
  | [] => None
  end.

Definition hasPhone (perPattern : list (list jsstring))
    (telLinks : list jsstring) : bool :=
  match validPhone perPattern telLinks with Some _ => true | None => false end.

(** *** Address from structured data *)

(** A value or a [TypeError]. *)
Inductive result (A : Type) :=
| Ret (a : A)
| Raise.

Arguments Ret {A} a.
Arguments Raise {A}.

(** [parts.join(sep)] on strings. *)
Fixpoint join (sep : jsstring) (parts : list jsstring) : jsstring :=
  match parts with
  | [] => []
  | [p] => p
  | p :: r => p ++ sep ++ join sep r
  end.

(** The strings of the elements, unless converting one of them throws. *)
Fixpoint allOf (l : list (result jsstring)) : result (list jsstring) :=
  match l with
  | [] => Ret []
  | Ret p :: r =>
      match allOf r with
      | Ret ps => Ret (p :: ps)
      | Raise => Raise
      end
  | Raise :: _ => Raise
  end.

Definition joinAll (sep : jsstring) (l : list (result jsstring)) : result jsstring :=
  match allOf l with
  | Ret parts => Ret (join sep parts)
  | Raise => Raise
  end.

(** [String(v)] for the element of an array being joined: [null] gives
    the empty string, a number its decimal form, an array its elements
    joined with a comma.  An object prints as [[object Object]] through
    [Object.prototype.toString]; when it has a property [toString] of
    its own - which in parsed JSON is never a function - there is nothing
    left to convert it with and a [TypeError] is thrown. *)
Fixpoint toStringElement (v : json) : result jsstring :=
  match v with
  | JNull => Ret []
  | JBool true => Ret (lit "true")
  | JBool false => Ret (lit "false")
  | JNum n => Ret (Num.toString n)
  | JStr s => Ret s
  | JArr items => joinAll (lit ",") (List.map toStringElement items)
  | JObj members =>
      match get (lit "toString") members with
      | Some _ => Raise
      | None => Ret (lit "[object Object]")
      end
  end.

(** [extractAddress(obj)]; [Ret None] is [null].  Reading [address] off
    [null] throws, and so does [join] on a part that cannot be
    converted; a primitive or an array has no such property. *)
Definition extractAddress (obj : json) : result (option jsstring) :=
  match obj with
  | JNull => Raise
  | JObj members =>
      match get (lit "address") members with
      | Some address =>
          if truthy address
          then
            match address with
            | JStr a =>
                if str_length a >? 15 then Ret (Some a) else Ret None
            | JObj addr =>
                if truthy_opt (get (lit "streetAddress") addr)
                then
                  let parts :=
                    filter truthy_opt
                      [get (lit "streetAddress") addr;
                       get (lit "addressLocality") addr;
                       get (lit "addressRegion") addr;
                       get (lit "postalCode") addr] in
                  match joinAll (lit ", ")
                          (List.map (fun p => match p with
                                              | Some v => toStringElement v
                                              | None => Ret []
                                              end) parts)
                  with
                  | Ret joined => Ret (Some joined)
                  | Raise => Raise
                  end
                else Ret None
            | _ => Ret None
            end
          else Ret None
      | None => Ret None
      end
  | _ => Ret None
  end.

(** [for (const item of graph) { addr = extractAddress(item); if (addr)
    break; }] over the items of an array. *)
Fixpoint graphAddress (items : list json) : result (option jsstring) :=
  match items with
  | [] => Ret None
  | item :: r =>
      match extractAddress item with
      | Raise => Raise
      | Ret (Some a) => if str_truthy a then Ret (Some a) else graphAddress r
      | Ret None => graphAddress r
      end
  end.

(** The [addr] a parsed script ends with.  A truthy [@graph] is iterated
    whatever it is: an array by its items, a string by its characters
    (none of which has an address), anything else is not iterable. *)
Definition scriptAddr (schema : json) : result (option jsstring) :=
  match schema with
  | JNull => Raise
  | JObj members =>
      match get (lit "@graph") members with
      | Some graph =>
          if truthy graph
          then match graph with
               | JArr items => graphAddress items
               | JStr _ => Ret None
               | _ => Raise
               end
          else extractAddress schema
      | None => extractAddress schema
      end
  | _ => extractAddress schema
  end.

(** What one script contributes: [Some addr] when the callback sets
    [hasAddress] and returns [false]. *)
Definition scriptAddress (el : ldScript) : option jsstring :=
  match el with
  | Parsed schema =>
      match scriptAddr schema with
      | Ret (Some addr) =>
          if str_truthy addr && (str_length addr >? 15) then Some addr else None
      | _ => None
      end
  | _ => None
  end.

(** [ldJsonScripts.each] with its early exit. *)
Fixpoint schemaAddress (ldJsonScripts : list ldScript) : option jsstring :=
  match ldJsonScripts with
  | [] => None
  | el :: r =>
      match scriptAddress el with
      | Some addr => Some addr
      | None => schemaAddress r
      end
  end.

(** *** Address from the markup *)

(** The entries of [addressSelectors]. *)
Inductive selector :=
| class_address          (* .address *)
| id_address             (* #address *)
| class_has_address      (* [class*=address] *)
| class_location         (* .location *)
| id_location            (* #location *)
| class_has_location     (* [class*=location] *)
| class_contact_info     (* .contact-info *)
| class_contact_address. (* .contact-address *)

Inductive sourceLabel :=
| SchemaOrg
| USAddressPattern
| POBoxPattern
| MicrodataItemprop
| CSSSelector (sel : selector).

Record candidate := { text : jsstring; cand_source : sourceLabel }.

Definition addressSelectors : list selector :=
  [class_address; id_address; class_has_address;
   class_location; id_location; class_has_location;
   class_contact_info; class_contact_address].

(** What the fallback sources see of the page: the matches of the two
    regular expressions in [bodyText] ([None] is the [null] of
    [String.prototype.match]), the text of the microdata elements, and
    the text of the elements each selector finds. *)
Record Markup := {
  usMatches : option (list jsstring);
  poBoxMatches : option (list jsstring);
  microdataElements : list jsstring;
  selected : selector -> list jsstring
}.

(** [$(el).text().trim().replace(/\s+/g, ' ')] *)
Definition addrText (elementText : jsstring) : jsstring :=
  collapse_white (trim elementText).

Definition pushAll (source : sourceLabel) (matches : option (list jsstring))
    (addressCandidates : list candidate) : list candidate :=
  match matches with
  | Some ms =>
      fold_left (fun acc m => acc ++ [{| text := m; cand_source := source |}])
                ms addressCandidates
  | None => addressCandidates
  end.

Definition microdata_step (addressCandidates : list candidate)
    (elementText : jsstring) : list candidate :=
  let addrText := addrText elementText in
  if (str_length addrText >? 15) && (str_length addrText <? 200)
  then addressCandidates ++ [{| text := addrText; cand_source := MicrodataItemprop |}]
  else addressCandidates.

Definition selector_step (selector : selector) (addressCandidates : list candidate)
    (elementText : jsstring) : list candidate :=
  let addrText := addrText elementText in
  if (str_length addrText >? 15) && (str_length addrText <? 200)
     && has_digit addrText
  then addressCandidates ++ [{| text := addrText; cand_source := CSSSelector selector |}]
  else addressCandidates.

Definition addressCandidates (m : Markup) : list candidate :=
  let c1 := pushAll USAddressPattern (usMatches m) [] in
  let c2 := pushAll POBoxPattern (poBoxMatches m) c1 in
  let c3 := fold_left microdata_step (microdataElements m) c2 in
  fold_left
    (fun acc selector => fold_left (selector_step selector) (selected m selector) acc)
    addressSelectors c3.

Record Address := {
  hasAddress : bool;
  addressText : option jsstring;
  addressSource : option sourceLabel
}.

(** The whole of the address detection: structured data first, and the
    markup only [if (!hasAddress)]. *)
Definition detectAddress (ldJsonScripts : list ldScript) (m : Markup) : Address :=
  match schemaAddress ldJsonScripts with
  | Some addr =>
      {| hasAddress := true; addressText := Some addr;
         addressSource := Some SchemaOrg |}
  | None =>
      match addressCandidates m with
      | c :: _ =>
          {| hasAddress := true; addressText := Some (trim (text c));
             addressSource := Some (cand_source c) |}
      | [] =>
          {| hasAddress := false; addressText := None; addressSource := None |}
      end
  end.

End Contact.

(* ================================================================== *)
(** ** Social links *)
(* ================================================================== *)

Module Social.

(** The five URL locals of the [a[href]] loop; the empty string is the
    initial, falsy value. *)
Record Urls := {
  facebookUrl : jsstring;
  instagramUrl : jsstring;
  twitterUrl : jsstring;
  linkedInUrl : jsstring;
  youTubeUrl : jsstring
}.

Definition noUrls : Urls :=
  {| facebookUrl := []; instagramUrl := []; twitterUrl := [];
     linkedInUrl := []; youTubeUrl := [] |}.

Definition link_step (u : Urls) (href : jsstring) : Urls :=
  {| facebookUrl :=
       if includes (lit "facebook.com/") href && negb (str_truthy (facebookUrl u))
       then href else facebookUrl u;
     instagramUrl :=
       if includes (lit "instagram.com/") href && negb (str_truthy (instagramUrl u))
       then href else instagramUrl u;
     twitterUrl :=
       if includes (lit "twitter.com/") href || includes (lit "x.com/") href
       then (if negb (str_truthy (twitterUrl u)) then href else twitterUrl u)
       else twitterUrl u;
     linkedInUrl :=
       if includes (lit "linkedin.com/") href && negb (str_truthy (linkedInUrl u))
       then href else linkedInUrl u;
     youTubeUrl :=
       if includes (lit "youtube.com/") href && negb (str_truthy (youTubeUrl u))
       then href else youTubeUrl u |}.

Record Social := {
  hasFacebookPage : bool;
  hasInstagram : bool;
  hasTwitter : bool;
  hasLinkedIn : bool;
  hasYouTube : bool
}.

(** [hrefs] are the [href] attributes of the [a[href]] elements, [ogUrl]
    the content of [meta[property="og:url"]]. *)
Definition social (hrefs : list jsstring) (ogUrl : option jsstring) : Social :=
  let u := fold_left link_step hrefs noUrls in
  let ogFacebook := Facts.or_empty ogUrl in
  let facebookUrl :=
    if includes (lit "facebook.com/") ogFacebook && negb (str_truthy (facebookUrl u))
    then ogFacebook else facebookUrl u in
  {| hasFacebookPage := str_length facebookUrl >? 0;
     hasInstagram := str_length (instagramUrl u) >? 0;
     hasTwitter := str_length (twitterUrl u) >? 0;
     hasLinkedIn := str_length (linkedInUrl u) >? 0;
     hasYouTube := str_length (youTubeUrl u) >? 0 |}.

End Social.

(* ================================================================== *)
(** ** The 100-point scoring system *)
(* ================================================================== *)

Module Scoring.

Import Facts.

Record TechnicalSEO := {
  hasRobotsTxt : bool;
  hasSitemap : bool;
  hasSSL : bool;
  hasAnalytics : bool;
  hasSchema : bool;
  hasJsonLd : bool
}.

Record LocalSEO := {
  hasLocalBusinessSchema : bool;
  hasPhone : bool;
  hasAddress : bool
}.

(** Everything the scoring rules read. *)
Record Inputs := {
  metaTags : MetaTags;
  headings : Headings;
  imagesData : ImagesData;
  content : Content;
  technicalSEO : TechnicalSEO;
  localSEO : LocalSEO;
  socialLinks : Social.Social
}.

Record ScoreBreakdown := {
  onPage : Z;
  technical : Z;
  local : Z;
  social : Z
}.

(** **** On-page, 45 points *)

Definition titlePoints (m : MetaTags) : Z :=
  if hasTitle m then
    if (titleLength m >=? 50) && (titleLength m <=? 60) then 12
    else if (titleLength m >=? 30) && (titleLength m <=? 70) then 4
    else 1
  else 0.

Definition descriptionPoints (m : MetaTags) : Z :=
  if hasDescription m then
    if (descriptionLength m >=? 120) && (descriptionLength m <=? 160) then 8
    else if (descriptionLength m >=? 50) && (descriptionLength m <=? 200) then 2
    else 1
  else 0.

(** [h1Text.length > 0 && h1Text[0].length >= 20] *)
Definition h1GoodLength (h : Headings) : bool :=
  match h1Text h with
  | first :: _ => str_length first >=? 20
  | [] => false
  end.

Definition h1Points (h : Headings) : Z :=
  if h1Count h =? 1 then
    if h1GoodLength h then 8 else 1
  else if h1Count h >? 1 then 1
  else 0.

Definition hierarchyPoints (h : Headings) : Z :=
  if (h2Count h >=? 3) && ((h3Count h >=? 2) || (h4Count h >=? 1)) then 5
  else if h2Count h >=? 2 then 2
  else 0.

Definition altPoints (i : ImagesData) : Z :=
  if total i >? 0 then
    if PrimFloat.eqb (altPercentage i) 100 then 4
    else if PrimFloat.leb 80 (altPercentage i) then 2
    else if PrimFloat.leb 50 (altPercentage i) then 1
    else 0
  else 2.

Definition contentPoints (c : Content) : Z :=
  if wordCount c >=? 1000 then 8
  else if wordCount c >=? 500 then 3
  else if wordCount c >=? 300 then 1
  else if wordCount c >=? 50 then 1
  else 0.

Definition onPagePoints (i : Inputs) : Z :=
  0 + titlePoints (metaTags i) + descriptionPoints (metaTags i)
    + h1Points (headings i) + hierarchyPoints (headings i)
    + altPoints (imagesData i) + contentPoints (content i).

(** **** Technical, 30 points *)

Definition schemaPoints (t : TechnicalSEO) : Z :=
  if hasSchema t then (if hasJsonLd t then 12 else 4) else 0.

Definition technicalPoints (i : Inputs) : Z :=
  let t := technicalSEO i in
  0 + (if hasSSL t then 5 else 0)
    + (if hasRobotsTxt t then 3 + 2 else 0)
    + (if hasSitemap t then 3 + 2 else 0)
    + (if hasAnalytics t then 3 else 0)
    + schemaPoints t.

(** **** Local, 15 points *)

Definition localPoints (i : Inputs) : Z :=
  let l := localSEO i in
  0 + (if hasPhone l then 3 else 0)
    + (if hasAddress l then 4 else 0)
    + (if hasLocalBusinessSchema l then 8 else 0).

(** **** Social, 10 points *)

Definition socialLinksCount (s : Social.Social) : Z :=
  0 + (if Social.hasFacebookPage s then 1 else 0)
    + (if Social.hasInstagram s then 1 else 0)
    + (if Social.hasTwitter s then 1 else 0)
    + (if Social.hasLinkedIn s then 1 else 0)
    + (if Social.hasYouTube s then 1 else 0).

Definition socialPoints (i : Inputs) : Z :=
  if socialLinksCount (socialLinks i) >=? 2 then 10
  else if socialLinksCount (socialLinks i) =? 1 then 5
  else 0.

Definition scoreBreakdown (i : Inputs) : ScoreBreakdown :=
  {| onPage := onPagePoints i;
     technical := technicalPoints i;
     local := localPoints i;
     social := socialPoints i |}.

(** **** Final score and grade *)

Definition score_of (b : ScoreBreakdown) : Z :=
  onPage b + technical b + local b + social b.

Definition score (i : Inputs) : Z := score_of (scoreBreakdown i).

Definition grade_of (score : Z) : string :=
  if score >=? 90 then "A+"
  else if score >=? 85 then "A"
  else if score >=? 80 then "A-"
  else if score >=? 75 then "B+"
  else if score >=? 70 then "B"
  else if score >=? 65 then "B-"
  else if score >=? 60 then "C+"
  else if score >=? 55 then "C"
  else if score >=? 50 then "C-"
  else if score >=? 45 then "D+"
  else if score >=? 40 then "D"
  else if score >=? 35 then "D-"
  else "F".

Definition grade (i : Inputs) : string := grade_of (score i).

(** [Math.round((scoreBreakdown.onPage / 45) * 100)] *)
Definition onPageScore (b : ScoreBreakdown) : float :=
  Num.Math_round (PrimFloat.mul (Num.div (onPage b) 45) 100).

End Scoring.

(* ================================================================== *)
(** ** The audit of one page *)
(* ================================================================== *)

Module Audit.

(** The rendered page as the analyzer reads it. *)
Record Page := {
  url : jsstring;
  html : jsstring;
  body : jsstring;                       (* $("body").text() *)
  title : jsstring;                      (* cleaned title *)
  description : option jsstring;
  viewport : option jsstring;
  ogTags : Z;
  twitterCard : Z;
  h1Elements : list jsstring;
  h2 : Z; h3 : Z; h4 : Z; h5 : Z; h6 : Z;
  images : list Facts.img;
  hrefs : list jsstring;
  ogUrl : option jsstring;
  ldJsonScripts : list Schema.ldScript;
  hasMicrodata : bool;
  hasRDFa : bool;
  robotsOk : bool;                       (* HEAD /robots.txt answered ok *)
  sitemapOk : bool;                      (* HEAD /sitemap.xml answered ok *)
  phonePatternMatches : list (list jsstring);
  telLinks : list jsstring;
  markup : Contact.Markup
}.

Record Result := {
  score : Z;
  grade : string;
  scoreBreakdown : Scoring.ScoreBreakdown;
  inputs : Scoring.Inputs;
  schema : Schema.State;
  renderingPercentage : option float;    (* [None]: a division by zero *)
  phoneNumber : option jsstring;
  address : Contact.Address
}.

Definition inputsOf (p : Page) (sd : Schema.StructuredData) : Scoring.Inputs :=
  let url := Facts.normalizeUrl (url p) in
  {| Scoring.metaTags :=
       Facts.metaTags (title p) (description p) (viewport p) (ogTags p) (twitterCard p);
     Scoring.headings :=
       Facts.headings (h1Elements p) (h2 p) (h3 p) (h4 p) (h5 p) (h6 p);
     Scoring.imagesData := Facts.imagesData (images p);
     Scoring.content := Facts.content (body p);
     Scoring.technicalSEO :=
       {| Scoring.hasRobotsTxt := robotsOk p;
          Scoring.hasSitemap := sitemapOk p;
          Scoring.hasSSL := Facts.isSSL url;
          Scoring.hasAnalytics := Facts.hasAnalytics (html p);
          Scoring.hasSchema := Schema.hasAnyStructuredData sd;
          Scoring.hasJsonLd := Schema.hasJsonLd sd |};
     Scoring.localSEO :=
       {| Scoring.hasLocalBusinessSchema :=
            Schema.hasLocalBusinessSchema (Schema.sd_state sd);
          Scoring.hasPhone :=
            Contact.hasPhone (phonePatternMatches p) (telLinks p);
          Scoring.hasAddress :=
            Contact.hasAddress (Contact.detectAddress (ldJsonScripts p) (markup p)) |};
     Scoring.socialLinks := Social.social (hrefs p) (ogUrl p) |}.

(** [analyzeSEO] after the page has been rendered; [None] is an
    exception leaving the function. *)
Definition analyzeSEO (p : Page) : option Result :=
  match Schema.structuredData (ldJsonScripts p) (hasMicrodata p) (hasRDFa p) with
  | Normal sd =>
      let i := inputsOf p sd in
      Some {| score := Scoring.score i;
              grade := Scoring.grade i;
              scoreBreakdown := Scoring.scoreBreakdown i;
              inputs := i;
              schema := Schema.sd_state sd;
              renderingPercentage := Facts.renderingPercentage (html p) (body p);
              phoneNumber := Contact.validPhone (phonePatternMatches p) (telLinks p);
              address := Contact.detectAddress (ldJsonScripts p) (markup p) |}
  | Throw _ => None
  end.

End Audit.

(* ================================================================== *)
(** ** Links *)
(* ================================================================== *)

Module Links.

Record Counts := { internalLinks : Z; externalLinks : Z }.

(** The callback of [links.each]; [hostname] is [new URL(url).hostname]
    and [href] is [$(el).attr("href") || ""]. *)
Definition link_step (hostname : jsstring) (c : Counts) (href : jsstring) : Counts :=
  if starts_with (lit "/") href || includes hostname href
  then {| internalLinks := internalLinks c + 1; externalLinks := externalLinks c |}
  else if starts_with (lit "http") href
  then {| internalLinks := internalLinks c; externalLinks := externalLinks c + 1 |}
  else c.

Record LinksData := {
  total : Z;
  internal : Z;
  external : Z;
  broken : Z
}.

Definition linksData (hostname : jsstring) (hrefs : list jsstring) : LinksData :=
  let c := fold_left (link_step hostname) hrefs
             {| internalLinks := 0; externalLinks := 0 |} in
  {| total := Z.of_nat (List.length hrefs);
     internal := internalLinks c;
     external := externalLinks c;
     broken := 0 |}.

End Links.

(* ================================================================== *)
(** ** The sections of the report besides the score *)
(* ================================================================== *)

Module Report.

Import Facts Scoring.

(** *** Social section: Facebook and Instagram only *)

Definition socialScore (s : Social.Social) : Z :=
  if Social.hasFacebookPage s && Social.hasInstagram s then 100
  else if Social.hasFacebookPage s || Social.hasInstagram s then 50
  else 0.

Definition socialMessage (s : Social.Social) : string :=
  if socialScore s =? 0 then "Your social needs improvement"
  else if socialScore s =? 50 then "Your social presence needs work"
  else "Your social presence is excellent!".

(** *** On-page section *)

(** The message that goes with [onPageScore]; the description is chosen
    by the same branch. *)
Definition onPageMessage (onPageScore : float) : string :=
  if PrimFloat.leb 90 onPageScore then "Your On-Page SEO is excellent!"
  else if PrimFloat.leb 80 onPageScore then "Your On-Page SEO is very good!"
  else if PrimFloat.leb 70 onPageScore then "Your On-Page SEO is good!"
  else if PrimFloat.leb 60 onPageScore then "Your On-Page SEO needs improvement"
  else "Your On-Page SEO needs significant work".

(** *** Recommendations *)

Inductive Category := OnPageSEO | TechnicalSEO | LocalSEO | SocialCategory.

Definition categoryLabel (c : Category) : string :=
  match c with
  | OnPageSEO => "On-Page SEO"
  | TechnicalSEO => "Technical SEO"
  | LocalSEO => "Local SEO"
  | SocialCategory => "Social"
  end.

Inductive Priority := HighPriority | MediumPriority | LowPriority.

Definition priorityLabel (p : Priority) : string :=
  match p with
  | HighPriority => "High Priority"
  | MediumPriority => "Medium Priority"
  | LowPriority => "Low Priority"
  end.

(** The title templates of the source, each with the numbers it
    interpolates. *)
Inductive Title :=
| AddTitleTag              (* Add a Title Tag to your page *)
| IncreaseTitleLength (from : Z)
    (* Increase Title Tag length from N to 50-60 characters *)
| ShortenTitleLength (from : Z)
    (* Shorten Title Tag length from N to 50-60 characters *)
| AddMetaDescription       (* Add a Meta Description to your page *)
| IncreaseDescriptionLength (from : Z)
    (* Increase Meta Description length from N to 120-160 characters *)
| ShortenDescriptionLength (from : Z)
    (* Shorten Meta Description length from N to 120-160 characters *)
| AddOneH1                 (* Add exactly one H1 Header Tag to your page *)
| ReduceH1 (from : Z)      (* Reduce H1 tags from N to exactly 1 *)
| AddHeadings
    (* Add more H2-H6 heading tags to improve content structure *)
| AddAltAttributes (images : Z) (missing : float)
    (* Add Alt Attributes to N images (P% missing) *)
| IncreaseContent (from : Z)
    (* Increase content length from N to at least 300 words *)
| CreateRobotsTxt          (* Create a robots.txt file *)
| CreateSitemap            (* Create an XML Sitemap *)
| ImplementAnalytics       (* Implement an Analytics Tracking Tool *)
| AddStructuredData        (* Add Schema.org Structured Data *)
| AddIdentitySchema        (* Add Identity Schema (Organization or Person) *)
| AddPhoneNumber           (* Add Phone Number to Website *)
| AddAddress               (* Add Address Information to Website *)
| AddLocalBusinessSchema   (* Add Local Business Schema *)
| LinkFacebook             (* Create and link your Facebook Page *)
| LinkInstagram.           (* Create and link an associated Instagram Profile *)

Record Recommendation := {
  title : Title;
  category : Category;
  priority : Priority
}.

Definition rec (t : Title) (c : Category) (p : Priority) : Recommendation :=
  {| title := t; category := c; priority := p |}.

(** [if (cond) recommendations.push(r)] *)
Definition pushIf (cond : bool) (r : Recommendation)
    (recommendations : list Recommendation) : list Recommendation :=
  if cond then recommendations ++ [r] else recommendations.

Definition titleRecommendation (m : MetaTags) (recs : list Recommendation)
  : list Recommendation :=
  if negb (hasTitle m) then recs ++ [rec AddTitleTag OnPageSEO HighPriority]
  else if (titleLength m <? 50) || (titleLength m >? 60) then
    if titleLength m <? 50
    then recs ++ [rec (IncreaseTitleLength (titleLength m)) OnPageSEO HighPriority]
    else recs ++ [rec (ShortenTitleLength (titleLength m)) OnPageSEO HighPriority]
  else recs.

Definition descriptionRecommendation (m : MetaTags) (recs : list Recommendation)
  : list Recommendation :=
  if negb (hasDescription m)
  then recs ++ [rec AddMetaDescription OnPageSEO HighPriority]
  else if (descriptionLength m <? 120) || (descriptionLength m >? 160) then
    if descriptionLength m <? 120
    then recs ++ [rec (IncreaseDescriptionLength (descriptionLength m))
                    OnPageSEO HighPriority]
    else recs ++ [rec (ShortenDescriptionLength (descriptionLength m))
                    OnPageSEO HighPriority]
  else recs.

Definition h1Recommendation (h : Headings) (recs : list Recommendation)
  : list Recommendation :=
  if h1Count h =? 0 then recs ++ [rec AddOneH1 OnPageSEO HighPriority]
  else if h1Count h >? 1
  then recs ++ [rec (ReduceH1 (h1Count h)) OnPageSEO HighPriority]
  else recs.

(** The whole list, in the order the source pushes. *)
Definition recommendations (i : Inputs) (hasIdentitySchema : bool)
  : list Recommendation :=
  let r := [] in
  let r := titleRecommendation (metaTags i) r in
  let r := descriptionRecommendation (metaTags i) r in
  let r := h1Recommendation (headings i) r in
  let r := pushIf (h2Count (headings i) <? 2)
             (rec AddHeadings OnPageSEO MediumPriority) r in
  let r := pushIf ((total (imagesData i) >? 0)
                   && PrimFloat.ltb (altPercentage (imagesData i)) 100)
             (rec (AddAltAttributes (withoutAlt (imagesData i))
                     (PrimFloat.sub 100 (altPercentage (imagesData i))))
                OnPageSEO MediumPriority) r in
  let r := pushIf (wordCount (content i) <? 300)
             (rec (IncreaseContent (wordCount (content i)))
                OnPageSEO MediumPriority) r in
  let r := pushIf (negb (hasRobotsTxt (technicalSEO i)))
             (rec CreateRobotsTxt TechnicalSEO MediumPriority) r in
  let r := pushIf (negb (hasSitemap (technicalSEO i)))
             (rec CreateSitemap TechnicalSEO MediumPriority) r in
  let r := pushIf (negb (hasAnalytics (technicalSEO i)))
             (rec ImplementAnalytics TechnicalSEO LowPriority) r in
  let r := pushIf (negb (hasSchema (technicalSEO i)))
             (rec AddStructuredData TechnicalSEO MediumPriority) r in
  let r := pushIf (negb hasIdentitySchema)
             (rec AddIdentitySchema TechnicalSEO MediumPriority) r in
  let r := pushIf (negb (hasPhone (localSEO i)))
             (rec AddPhoneNumber LocalSEO MediumPriority) r in
  let r := pushIf (negb (hasAddress (localSEO i)))
             (rec AddAddress LocalSEO MediumPriority) r in
  let r := pushIf (negb (hasLocalBusinessSchema (localSEO i)))
             (rec AddLocalBusinessSchema LocalSEO LowPriority) r in
  let r := pushIf (negb (Social.hasFacebookPage (socialLinks i)))
             (rec LinkFacebook SocialCategory LowPriority) r in
  let r := pushIf (negb (Social.hasInstagram (socialLinks i)))
             (rec LinkInstagram SocialCategory LowPriority) r in
  r.

(** The recommendations of an audited page. *)
Definition recommendationsOf (r : Audit.Result) : list Recommendation :=
  recommendations (Audit.inputs r) (Schema.hasIdentitySchema (Audit.schema r)).

End Report.

(* ================================================================== *)
(** ** Sample pages *)
(* ================================================================== *)

Module Samples.

Import Json Schema Contact.

Definition noMarkup : Markup :=
  {| usMatches := None; poBoxMatches := None; microdataElements := [];
     selected := fun _ => [] |}.

Definition photo : Facts.img :=
  {| Facts.attr_src := Some (lit "/img/loaf.jpg");
     Facts.attr_alt := Some (lit "A loaf of bread") |}.

(** The page of the specification's worked example: a 55-character
    title, no description, one H1 of 25 characters, ten images that all
    have alt text, HTTPS, and nothing else. *)
Definition workedExample : Audit.Page :=
  {| Audit.url := lit "https://bakery.example";
     Audit.html := lit "<html><head><title>t</title></head><body>b</body></html>";
     Audit.body := lit "Fresh bread every morning";
     Audit.title := lit "Fresh Sourdough Bread and Pastries Baked Daily in Leeds";
     Audit.description := None;
     Audit.viewport := None;
     Audit.ogTags := 0;
     Audit.twitterCard := 0;
     Audit.h1Elements := [lit "Sourdough Baked Every Day"];
     Audit.h2 := 0; Audit.h3 := 0; Audit.h4 := 0; Audit.h5 := 0; Audit.h6 := 0;
     Audit.images := List.repeat photo 10;
     Audit.hrefs := [];
     Audit.ogUrl := None;
     Audit.ldJsonScripts := [];
     Audit.hasMicrodata := false;
     Audit.hasRDFa := false;
     Audit.robotsOk := false;
     Audit.sitemapOk := false;
     Audit.phonePatternMatches := [[]; []; []; []];
     Audit.telLinks := [];
     Audit.markup := noMarkup |}.

(** Shorthands for writing JSON-LD documents. *)
Definition str (s : string) : json := JStr (lit s).
Definition field (k : string) (v : json) : jsstring * json := (lit k, v).

(** [{"@context": "https://schema.org", "@graph": [
      {"@type": "Organization", "name": "Acme"},
      {"@type": "Person", "name": "Ann"}]}] *)
Definition organizationAndPerson : json :=
  JObj [field "@context" (str "https://schema.org");
        field "@graph"
          (JArr [JObj [field "@type" (str "Organization"); field "name" (str "Acme")];
                 JObj [field "@type" (str "Person"); field "name" (str "Ann")]])].

(** [{"@type": "Person", "name": "Ann", "worksFor": {"@type":
    "Organization"}}] and a second, unrelated script. *)
Definition personScript : json :=
  JObj [(lit "@type", JStr (lit "Person"));
        (lit "name", JStr (lit "Ann"));
        (lit "worksFor", JObj [(lit "@type", JStr (lit "Organization"))])].

Definition storeScript : json :=
  JObj [(lit "@type", JArr [JStr (lit "Store"); JStr (lit "LocalBusiness")])].



(** [[{"@context": "https://schema.org", "@type": "LocalBusiness",
       "address": "123 Main Street, Springfield, IL 62701"}]]: one
    node, written as a top-level array. *)
Definition businessNode : json :=
  JObj [field "@context" (str "https://schema.org");
        field "@type" (str "LocalBusiness");
        field "address" (str "123 Main Street, Springfield, IL 62701")].

Definition businessInArray : json := JArr [businessNode].



(** A page that carries the given JSON-LD scripts and nothing else of
    interest. *)
Definition pageWith (scripts : list ldScript) (m : Markup) : Audit.Page :=
  {| Audit.url := lit "https://shop.example";
     Audit.html := lit "<html></html>";
     Audit.body := lit "Welcome";
     Audit.title := lit "Shop";
     Audit.description := None;
     Audit.viewport := None;
     Audit.ogTags := 0;
     Audit.twitterCard := 0;
     Audit.h1Elements := [];
     Audit.h2 := 0; Audit.h3 := 0; Audit.h4 := 0; Audit.h5 := 0; Audit.h6 := 0;
     Audit.images := [];
     Audit.hrefs := [];
     Audit.ogUrl := None;
     Audit.ldJsonScripts := scripts;
     Audit.hasMicrodata := false;
     Audit.hasRDFa := false;
     Audit.robotsOk := false;
     Audit.sitemapOk := false;
     Audit.phonePatternMatches := [[]; []; []; []];
     Audit.telLinks := [];
     Audit.markup := m |}.

(** [{"@graph": [{"address": {"streetAddress": "1 A St"}},
                  {"address": "123 Main Street, Springfield, IL 62701"}]}] *)
Definition shortThenLongGraph : json :=
  JObj [(lit "@graph",
         JArr [JObj [(lit "address",
                      JObj [(lit "streetAddress", JStr (lit "1 A St"))])];
               JObj [(lit "address",
                      JStr (lit "123 Main Street, Springfield, IL 62701"))]])].




(** [{"address": {"streetAddress": "1 A St", "postalCode": 1e21}}] *)
Definition exponentPostalCode : json :=
  JObj [field "address"
          (JObj [field "streetAddress" (str "1 A St");
                 field "postalCode" (JNum (Num.of_int (10 ^ 21)))])].

(** [{"address": {"streetAddress": "123 Main Street",
      "addressLocality": {"toString": "Springfield"}}}] *)
Definition unprintableLocality : json :=
  JObj [field "address"
          (JObj [field "streetAddress" (str "123 Main Street");
                 field "addressLocality"
                   (JObj [field "toString" (str "Springfield")])])].



(** [{"@context": "https://schema.org", "@type": "LocalBusiness",
      "name": "Mill Lane Bakery",
      "address": "9 Mill Lane, Leeds LS1 4AB, United Kingdom"}] *)
Definition bakeryScript : json :=
  JObj [field "@context" (str "https://schema.org");
        field "@type" (str "LocalBusiness");
        field "name" (str "Mill Lane Bakery");
        field "address" (str "9 Mill Lane, Leeds LS1 4AB, United Kingdom")].

(** A page for which the analyzer has nothing to recommend: title and
    description in their bands, one short H1, two H2, no image, 300
    words, robots.txt, sitemap, a tag-manager snippet, a LocalBusiness
    script with an address, a [tel:] link, and links to Facebook and
    Instagram - served over plain HTTP. *)
Definition nothingToRecommend : Audit.Page :=
  {| Audit.url := lit "http://bakery.example";
     Audit.html := lit "<html><script>gtag('js', new Date());</script></html>";
     Audit.body := List.concat (List.repeat (lit "bread ") 300);
     Audit.title := lit "Fresh Sourdough Bread and Pastries Baked Daily in Leeds";
     Audit.description :=
       Some (List.concat (List.repeat (lit "Fresh bread. ") 10));
     Audit.viewport := None;
     Audit.ogTags := 0;
     Audit.twitterCard := 0;
     Audit.h1Elements := [lit "Bakery"];
     Audit.h2 := 2; Audit.h3 := 0; Audit.h4 := 0; Audit.h5 := 0; Audit.h6 := 0;
     Audit.images := [];
     Audit.hrefs := [lit "https://facebook.com/milllane";
                     lit "https://instagram.com/milllane"];
     Audit.ogUrl := None;
     Audit.ldJsonScripts := [Parsed bakeryScript];
     Audit.hasMicrodata := false;
     Audit.hasRDFa := false;
     Audit.robotsOk := true;
     Audit.sitemapOk := true;
     Audit.phonePatternMatches := [[]; []; []; []];
     Audit.telLinks := [lit "0113 496 0000"];
     Audit.markup := noMarkup |}.

(** Facts that earn every award. *)
Definition fullMarks : Scoring.Inputs :=
  {| Scoring.metaTags :=
       {| Facts.hasTitle := true; Facts.titleLength := 55;
          Facts.hasDescription := true; Facts.descriptionLength := 150;
          Facts.hasViewport := true; Facts.hasOgTags := true;
          Facts.hasTwitterCard := true |};
     Scoring.headings :=
       {| Facts.h1Count := 1; Facts.h2Count := 3; Facts.h3Count := 2;
          Facts.h4Count := 0; Facts.h5Count := 0; Facts.h6Count := 0;
          Facts.hasH1 := true;
          Facts.h1Text := [lit "Sourdough Baked Every Day"] |};
     Scoring.imagesData := Facts.imagesData [photo; photo];
     Scoring.content := {| Facts.wordCount := 1200; Facts.textLength := 7000 |};
     Scoring.technicalSEO :=
       {| Scoring.hasRobotsTxt := true; Scoring.hasSitemap := true;
          Scoring.hasSSL := true; Scoring.hasAnalytics := true;
          Scoring.hasSchema := true; Scoring.hasJsonLd := true |};
     Scoring.localSEO :=
       {| Scoring.hasLocalBusinessSchema := true; Scoring.hasPhone := true;
          Scoring.hasAddress := true |};
     Scoring.socialLinks :=
       {| Social.hasFacebookPage := true; Social.hasInstagram := false;
          Social.hasTwitter := false; Social.hasLinkedIn := true;
          Social.hasYouTube := false |} |}.

(** [{"@graph": [{"@type": 5}, {"@type": "Person"}]}]: the first member
    is not typed by a name. *)
Definition numberTypedGraph : json :=
  JObj [field "@graph"
          (JArr [JObj [field "@type" (JNum 5%float)];
                 JObj [field "@type" (str "Person")]])].



(** The facts the scoring rules see of that page. *)
Definition workedInputs : Scoring.Inputs :=
  Audit.inputsOf workedExample
    (state_of (structuredData (Audit.ldJsonScripts workedExample)
                 (Audit.hasMicrodata workedExample) (Audit.hasRDFa workedExample))).

End Samples.

(* ================================================================== *)
(** ** Vocabulary of the specification *)
(* ================================================================== *)

Module Spec.

Import Facts Json Schema Contact.

(** *** Images *)

(** A code unit that is not white space. *)
Definition visible (c : codeunit) : bool := negb (is_white_space c).

(** An image counts as having alt text when the attribute is there and
    holds at least one visible code unit. *)
Definition has_visible_alt (i : img) : bool :=
  match attr_alt i with
  | Some a => existsb visible a
  | None => false
  end.

(** What the [images.each] loop maintains. *)
Record imgLoop_inv (seen : list img) (st : imgLoop) : Prop := {
  inv_count : imagesWithAlt st = Z.of_nat (List.length (filter img_hasAlt seen));
  inv_all : List.length (imagesList st) = List.length seen;
  inv_with : List.length (imagesWithAltList st)
             = List.length (filter img_hasAlt seen);
  inv_without : List.length (imagesWithoutAltList st)
                = List.length (filter (fun i => negb (img_hasAlt i)) seen);
  inv_flags : List.map hasAlt (imagesList st) = List.map img_hasAlt seen
}.

(** *** Phone *)

(** The display text of a [tel:] link, when the link is kept. *)
Definition telDisplay (text : jsstring) : option jsstring :=
  let displayText := trim text in
  if str_truthy displayText && has_digit displayText
  then Some displayText else None.

(** The display texts of the links that are kept, in document order. *)
Fixpoint keptTelLinks (telLinks : list jsstring) : list jsstring :=
  match telLinks with
  | [] => []
  | text :: r =>
      match telDisplay text with
      | Some d => d :: keptTelLinks r
      | None => keptTelLinks r
      end
  end.

Definition telMatch (d : jsstring) : phoneMatch :=
  {| source := telLinkSource; value := d |}.

(** *** Structured data *)

(** A JSON-LD type is a string; a falsy entry is simply skipped by the
    analyzer. *)
Definition typeValueOk (v : json) : bool :=
  match v with
  | JStr _ => true
  | _ => negb (truthy v)
  end.

Definition typeFieldOk (o : option json) : bool :=
  match o with
  | None => true
  | Some (JArr types) => forallb typeValueOk types
  | Some v => typeValueOk v
  end.

(** Every [@type] in the document is a type name or a list of type
    names. *)
Fixpoint wellTyped (j : json) : bool :=
  match j with
  | JObj members =>
      typeFieldOk (get (lit "@type") members)
      && forallb (fun kv => wellTyped (snd kv)) members
  | JArr items => forallb wellTyped items
  | _ => true
  end.

Definition typeName (v : json) : list jsstring :=
  match v with
  | JStr t => if str_truthy t then [t] else []
  | _ => []
  end.

(** The type names a node declares itself. *)
Definition ownTypes (o : option json) : list jsstring :=
  match o with
  | Some (JArr types) => flat_map typeName types
  | Some v => typeName v
  | None => []
  end.

(** The members of the [@graph] array of an object, if it has one. *)
Definition graphOf (members : list (jsstring * json)) : option (list json) :=
  match get (lit "@graph") members with
  | Some (JArr graph) => Some graph
  | _ => None
  end.

(** An object value that is itself an object is recursed into, and so is
    every object of an array value. *)
Definition nestedTypes (rec : json -> list jsstring) (value : json)
  : list jsstring :=
  match value with
  | JObj _ => rec value
  | JArr items => flat_map (fun item => if is_object item then rec item else []) items
  | _ => []
  end.

Definition graphTypes (rec : json -> list jsstring)
    (members : list (jsstring * json)) : option (list jsstring) :=
  match
    List.find (fun kv => str_eqb (lit "@graph") (fst kv))
      (List.map (fun kv => (fst kv,
                            match snd kv with
                            | JArr graph => Some (flat_map rec graph)
                            | _ => None
                            end)) members)
  with
  | Some (_, types) => types
  | None => None
  end.

(** Every type name of a document, in the order a reader meets them: an
    object with a [@graph] array stands for its graph members; any other
    object gives its own types and then those of its nested values; a
    bare array gives those of its entries. *)
Fixpoint allTypes (schema : json) : list jsstring :=
  match schema with
  | JObj members =>
      match graphTypes allTypes members with
      | Some types => types
      | None =>
          ownTypes (get (lit "@type") members)
          ++ flat_map (fun kv => nestedTypes allTypes (snd kv)) members
      end
  | JArr items => flat_map (nestedTypes allTypes) items
  | _ => []
  end.

(** The type names a document declares, wherever they stand: those of
    every object, at any depth, in document order. *)
Fixpoint declaredTypes (j : json) : list jsstring :=
  match j with
  | JObj members =>
      ownTypes (get (lit "@type") members)
      ++ flat_map (fun kv => declaredTypes (snd kv)) members
  | JArr items => flat_map declaredTypes items
  | _ => []
  end.

(** No object of the document, at any depth, carries a [@graph] array. *)
Fixpoint graphFree (j : json) : bool :=
  match j with
  | JObj members =>
      match graphOf members with Some _ => false | None => true end
      && forallb (fun kv => graphFree (snd kv)) members
  | JArr items => forallb graphFree items
  | _ => true
  end.

(** A list without its repetitions, each element where it first
    occurs. *)
Fixpoint firstSeen (l : list jsstring) : list jsstring :=
  match l with
  | [] => []
  | t :: r => t :: filter (fun u => negb (str_eqb u t)) (firstSeen r)
  end.

(** The strings among recorded types, and the identity types among
    them, in their order. *)
Definition typeStrings (types : list json) : list jsstring :=
  flat_map (fun v => match v with JStr t => [t] | _ => [] end) types.

Definition identityStrings (types : list json) : list jsstring :=
  filter isIdentity (typeStrings types).

(** The three ways the traversal enters a value besides the call itself:
    as a value of an object or entry of a bare array, as an item of an
    array value, and as the array of graph members. *)
Definition itemRun (j : json) (s : State) : completion State :=
  if is_object j then extractSchemaTypes j s else Normal s.

Definition graphItemsRun (j : json) (s : State) : completion State :=
  match j with
  | JArr graph => forEach extractSchemaTypes graph s
  | _ => Normal s
  end.

Definition itemTypes (j : json) : list jsstring :=
  if is_object j then allTypes j else [].

Definition graphItemTypes (j : json) : list jsstring :=
  match j with
  | JArr graph => flat_map allTypes graph
  | _ => []
  end.

(** A run respects a relation when the state it ends in, normally or
    not, is related to the state it started from. *)
Definition keeps (R : State -> State -> Prop)
    (f : State -> completion State) : Prop :=
  forall s, R s (state_of (f s)).

(** The recorded types of one state are all among those of another, as
    [includes] sees them. *)
Definition covers (a c : State) : Prop :=
  forall v, arr_includes v (schemaTypes a) = true ->
            arr_includes v (schemaTypes c) = true.

Definition throws {S} (c : completion S) : bool :=
  match c with Throw _ => true | Normal _ => false end.

(** A run started from a state that covers another one ends in a state
    that covers the other run's end, and throws only if the other run
    throws too. *)
Definition follows (f : State -> completion State) : Prop :=
  forall a c, covers a c ->
    covers (state_of (f a)) (state_of (f c))
    /\ (throws (f c) = true -> throws (f a) = true).

(** A truthy type that is neither a name nor a list. *)
Definition unusable (type : json) : bool :=
  match type with
  | JStr _ | JArr _ => false
  | _ => true
  end.

(** What ties the two identity locals to the recorded types. *)
Record identityInv (s : State) : Prop := {
  inv_has : hasIdentitySchema s = true <-> identityStrings (schemaTypes s) <> [];
  inv_last : identityType s = last (identityStrings (schemaTypes s)) [];
  inv_nodup : NoDup (typeStrings (schemaTypes s))
}.

Definition scriptTypes (el : ldScript) : list jsstring :=
  match el with
  | Parsed schema => allTypes schema
  | _ => []
  end.

Definition scriptWellTyped (el : ldScript) : bool :=
  match el with
  | Parsed schema => wellTyped schema
  | _ => true
  end.

Definition parses (el : ldScript) : bool :=
  match el with
  | Unparseable => false
  | _ => true
  end.

(** Adding a name to a list of names unless it is empty or there. *)
Definition addName (acc : list jsstring) (t : jsstring) : list jsstring :=
  if str_truthy t && negb (existsb (str_eqb t) acc) then acc ++ [t] else acc.

(** Recording one type name, and a list of them in order. *)
Definition record (s : State) (t : jsstring) : State :=
  state_of (addType (JStr t) s).

Definition absorb (types : list jsstring) (s : State) : State :=
  fold_left record types s.

(** *** Address *)

(** The object form of an address: the street, locality, region and
    postal code that are present, joined with a comma and a space. *)
Definition joinedAddress (addr : list (jsstring * json)) : result jsstring :=
  joinAll (lit ", ")
    (flat_map (fun key => match get key addr with
                          | Some v => if truthy v then [toStringElement v] else []
                          | None => []
                          end)
       [lit "streetAddress"; lit "addressLocality"; lit "addressRegion";
        lit "postalCode"]).

(** The candidate that the [address] field of a node yields: the string
    itself when it is longer than 15 characters, or the joined object
    when it has a street address; [Raise] when a part of the object
    cannot be converted to a string. *)
Definition addressCandidate (node : json) : result (option jsstring) :=
  match node with
  | JObj members =>
      match get (lit "address") members with
      | Some (JStr a) => Ret (if str_length a >? 15 then Some a else None)
      | Some (JObj addr) =>
          if truthy_opt (get (lit "streetAddress") addr)
          then match joinedAddress addr with
               | Ret joined => Ret (Some joined)
               | Raise => Raise
               end
          else Ret None
      | _ => Ret None
      end
  | _ => Ret None
  end.

(** A graph member that is passed over: it is not [null] and its
    candidate is missing or empty. *)
Definition passedOver (member : json) : Prop :=
  member <> JNull
  /\ (addressCandidate member = Ret None
      \/ addressCandidate member = Ret (Some [])).


End Spec.

Import Spec.

(* ================================================================== *)
(** ** Further vocabulary *)
(* ================================================================== *)

Module Derived.

Import Facts Json Schema Contact.

(** *** Links *)

(** A link counts as internal when it is root-relative or mentions the
    host, and as external when it is not internal and starts with
    [http]. *)
Definition isInternal (hostname href : jsstring) : bool :=
  starts_with (lit "/") href || includes hostname href.

Definition isExternal (hostname href : jsstring) : bool :=
  negb (isInternal hostname href) && starts_with (lit "http") href.

(** *** Social links *)

(** The first element of a list that passes a test, or the empty string. *)
Definition firstWhere (test : jsstring -> bool) (l : list jsstring) : jsstring :=
  hd [] (filter test l).

(** Keeping the first link that passes a test. *)
Definition keepFirst (test : jsstring -> bool) (current href : jsstring) : jsstring :=
  if test href && negb (str_truthy current) then href else current.

Definition isFacebook (href : jsstring) : bool := includes (lit "facebook.com/") href.
Definition isInstagram (href : jsstring) : bool := includes (lit "instagram.com/") href.
Definition isTwitter (href : jsstring) : bool :=
  includes (lit "twitter.com/") href || includes (lit "x.com/") href.
Definition isLinkedIn (href : jsstring) : bool := includes (lit "linkedin.com/") href.
Definition isYouTube (href : jsstring) : bool := includes (lit "youtube.com/") href.

(** *** Grades *)

(** The grades from the lowest to the highest. *)
Definition gradeLadder : list string :=
  ["F"; "D-"; "D"; "D+"; "C-"; "C"; "C+"; "B-"; "B"; "B+"; "A-"; "A"; "A+"]%string.

(** The step of the ladder a score stands on: one step every five
    points from 35 up, the last one at 90. *)
Definition gradeStep (score : Z) : nat :=
  Z.to_nat (Z.max 0 (Z.min 12 ((score - 30) / 5))).

(** The on-page message by on-page points. *)
Definition onPageMessageByPoints (onPage : Z) : string :=
  if onPage >=? 41 then "Your On-Page SEO is excellent!"
  else if onPage >=? 36 then "Your On-Page SEO is very good!"
  else if onPage >=? 32 then "Your On-Page SEO is good!"
  else if onPage >=? 27 then "Your On-Page SEO needs improvement"
  else "Your On-Page SEO needs significant work".

(** *** Structured data *)

(** A recorded type that marks a local business: a string that contains
    [LocalBusiness] or is one of four names, or an array that holds the
    string [LocalBusiness]. *)
Definition marksLocalBusiness (v : json) : bool :=
  match v with
  | JStr t =>
      includes (lit "LocalBusiness") t
      || str_eqb t (lit "Restaurant") || str_eqb t (lit "Store")
      || str_eqb t (lit "MedicalBusiness")
      || str_eqb t (lit "ProfessionalService")
  | JArr items => arr_includes (JStr (lit "LocalBusiness")) items
  | _ => false
  end.

(** *** Rendering ratio *)

(** The number of words of a text: its visible code units that do not
    follow a visible one. *)
Fixpoint wordStarts (afterWhite : bool) (s : jsstring) : nat :=
  match s with
  | [] => 0%nat
  | c :: r =>
      if is_white_space c then wordStarts true r
      else ((if afterWhite then 1 else 0) + wordStarts false r)%nat
  end.

(** The length of a text once its words are written with one space
    between them: its visible code units, and a space after each word
    but the last. *)
Definition visibleLength (body : jsstring) : Z :=
  let v := Z.of_nat (List.length (filter visible body)) in
  if v =? 0 then 0 else v + Z.of_nat (wordStarts true body) - 1.

(** The binary64 value of a length, by the machine conversion. *)
Definition toFloat (z : Z) : float := PrimFloat.of_uint63 (Uint63.of_Z z).

(** The integer a finite binary64 value stands for, times [2^-e]. *)
Definition signed (s : bool) (m : positive) : Z :=
  if s then Z.neg m else Z.pos m.

(** [r] is [x] rounded to an integer as [Math.round] has it: [x] itself
    when it is an integer already or not finite, and otherwise the
    integer [z] with [z - 1/2 <= x < z + 1/2], written [-0] when it is
    zero and [x] is negative. *)
Inductive Rounded (x r : float) : Prop :=
| RoundedWhole (s : bool) (m : positive) (e : Z) :
    Prim2SF x = S754_finite s m e -> 0 <= e -> r = x -> Rounded x r
| RoundedFraction (s : bool) (m : positive) (e z : Z) :
    Prim2SF x = S754_finite s m e -> e < 0 ->
    (2 * z - 1) * 2 ^ (- e) <= 2 * signed s m < (2 * z + 1) * 2 ^ (- e) ->
    r = (if (z =? 0) && s then neg_zero else Num.of_int z) ->
    Rounded x r
| RoundedOther :
    (forall s m e, Prim2SF x <> S754_finite s m e) -> r = x -> Rounded x r.

(** *** Tidy text *)

(** No two white-space code units stand next to each other. *)
Fixpoint no_double_white (s : jsstring) : bool :=
  match s with
  | [] => true
  | c :: r =>
      match r with
      | [] => true
      | d :: _ => negb (is_white_space c && is_white_space d)
      end && no_double_white r
  end.

(** The last code unit, if there is one, is visible. *)
Fixpoint no_trailing_white (s : jsstring) : bool :=
  match s with
  | [] => true
  | c :: r =>
      match r with
      | [] => visible c
      | _ :: _ => no_trailing_white r
      end
  end.

Definition starts_visible (s : jsstring) : bool :=
  match s with
  | [] => true
  | c :: _ => visible c
  end.

(** The only white space is the space. *)
Definition only_spaces (s : jsstring) : bool :=
  forallb (fun c => visible c || (c =? 32)%N) s.

(** A text of words separated by single spaces. *)
Definition tidy (s : jsstring) : bool :=
  no_double_white s && no_trailing_white s && starts_visible s && only_spaces s.

(** *** Phone *)

Definition bodyMatch (m : jsstring) : phoneMatch :=
  {| source := bodyTextSource; value := m |}.

(** *** Address candidates of the markup *)

Definition matchList (o : option (list jsstring)) : list jsstring :=
  match o with Some l => l | None => [] end.

Definition candidateOf (src : sourceLabel) (t : jsstring) : candidate :=
  {| text := t; cand_source := src |}.

(** An element text, trimmed and collapsed, of more than 15 and fewer
    than 200 characters. *)
Definition addressSized (t : jsstring) : bool :=
  (str_length t >? 15) && (str_length t <? 200).

(** The candidates source by source: the matches of the US pattern,
    those of the PO Box pattern, the microdata elements of the right
    size, and for each selector in turn its elements of the right size
    that hold a digit. *)
Definition fallbackCandidates (m : Markup) : list candidate :=
  List.map (candidateOf USAddressPattern) (matchList (usMatches m))
  ++ List.map (candidateOf POBoxPattern) (matchList (poBoxMatches m))
  ++ List.map (candidateOf MicrodataItemprop)
       (filter addressSized (List.map addrText (microdataElements m)))
  ++ flat_map
       (fun sel =>
          List.map (candidateOf (CSSSelector sel))
            (filter (fun t => addressSized t && has_digit t)
               (List.map addrText (selected m sel))))
       addressSelectors.

(** What ties the local-business flag to the recorded types. *)
Definition localInv (s : State) : Prop :=
  hasLocalBusinessSchema s = existsb marksLocalBusiness (schemaTypes s).

End Derived.

Import Derived.

(* ================================================================== *)
(** ** Properties: strings *)
(* ================================================================== *)

Unset Implicit Arguments.

Section StringFacts.


Lemma drop_white_all (s : jsstring) :
  drop_white s = [] <-> forallb is_white_space s = true.
Proof.
  induction s as [|c r IH]; simpl.
  - tauto.
  - destruct (is_white_space c); simpl.
    + exact IH.
    + split; discriminate.
Qed.

Lemma drop_white_visible (s : jsstring) :
  existsb visible (drop_white s) = existsb visible s.
Proof.
  induction s as [|c r IH]; simpl; trivial.
  unfold visible at 2. destruct (is_white_space c) eqn:E; simpl; trivial.
  unfold visible at 1. now rewrite E.
Qed.

Lemma existsb_visible_rev (s : jsstring) :
  existsb visible (rev s) = existsb visible s.
Proof.
  induction s as [|c r IH]; simpl; trivial.
  rewrite existsb_app, IH. simpl. rewrite orb_false_r. apply orb_comm.
Qed.

Lemma all_white_not_visible (s : jsstring) :
  forallb is_white_space s = negb (existsb visible s).
Proof.
  induction s as [|c r IH]; simpl; trivial.
  rewrite IH. unfold visible. now destruct (is_white_space c).
Qed.

Lemma trim_visible (s : jsstring) :
  existsb visible (trim s) = existsb visible s.
Proof.
  unfold trim.
  now rewrite existsb_visible_rev, drop_white_visible, existsb_visible_rev,
    drop_white_visible.
Qed.

Lemma drop_white_head (s : jsstring) :
  match drop_white s with
  | [] => True
  | c :: _ => is_white_space c = false
  end.
Proof.
  induction s as [|c r IH]; simpl; trivial.
  destruct (is_white_space c) eqn:E; trivial.
Qed.

(** A trimmed string is empty exactly when the string has no visible
    code unit. *)
Lemma trim_nonempty (s : jsstring) :
  (str_length (trim s) >? 0) = existsb visible s.
Proof.
  rewrite <- trim_visible. unfold trim.
  pose proof (drop_white_head (rev (drop_white s))) as H.
  destruct (drop_white (rev (drop_white s))) as [|c r]; simpl; trivial.
  rewrite existsb_app. simpl. unfold visible at 2. rewrite H. simpl.
  rewrite orb_true_r. unfold str_length. rewrite length_app. simpl.
  apply Z.gtb_lt. lia.
Qed.

Lemma trim_empty_iff (s : jsstring) :
  trim s = [] <-> forallb is_white_space s = true.
Proof.
  rewrite all_white_not_visible, <- trim_nonempty.
  destruct (trim s) as [|c r].
  - split; trivial.
  - split; [discriminate|]. intro H.
    assert (G : (str_length (c :: r) >? 0) = true)
      by (apply Z.gtb_lt; unfold str_length; simpl List.length; lia).
    rewrite G in H. discriminate.
Qed.

Lemma split_from_length (in_sep : bool) (tok s : jsstring) :
  (1 <= List.length (split_from in_sep tok s))%nat.
Proof.
  revert in_sep tok. induction s as [|c r IH]; intros; simpl.
  - lia.
  - destruct (is_white_space c); [destruct in_sep|]; simpl;
      try apply IH. specialize (IH true []). lia.
Qed.

End StringFacts.

(* ================================================================== *)
(** ** Properties: fact extraction *)
(* ================================================================== *)

Section FactProperties.

Import Facts.


Lemma img_hasAlt_visible (i : img) : img_hasAlt i = has_visible_alt i.
Proof.
  unfold img_hasAlt, has_visible_alt. destruct (attr_alt i); trivial.
  apply trim_nonempty.
Qed.


Lemma imgLoop_inv_init : imgLoop_inv [] imgLoop_init.
Proof. constructor; reflexivity. Qed.

Lemma imgLoop_inv_step (seen : list img) (st : imgLoop) (i : img) :
  imgLoop_inv seen st -> imgLoop_inv (seen ++ [i]) (imgLoop_step st i).
Proof.
  intros [Hc Ha Hw Hwo Hf]. unfold imgLoop_step.
  constructor; rewrite ?filter_app, ?length_app, ?map_app; simpl;
    destruct (img_hasAlt i) eqn:E; simpl;
    rewrite ?length_app, ?map_app; simpl; try lia; try congruence.
Qed.

Lemma imgLoop_inv_fold (images seen : list img) (st : imgLoop) :
  imgLoop_inv seen st ->
  imgLoop_inv (seen ++ images) (fold_left imgLoop_step images st).
Proof.
  revert seen st. induction images as [|i r IH]; intros seen st H; simpl.
  - now rewrite app_nil_r.
  - replace (seen ++ i :: r) with ((seen ++ [i]) ++ r)
      by now rewrite <- app_assoc.
    apply IH, imgLoop_inv_step, H.
Qed.

Lemma filter_split_length {A} (f : A -> bool) (l : list A) :
  (List.length (filter f l) + List.length (filter (fun x => negb (f x)) l)
   = List.length l)%nat.
Proof.
  induction l as [|x r IH]; simpl; trivial.
  destruct (f x); simpl; lia.
Qed.

(** C7.  For every list of [<img>] elements the record the analyzer
    builds satisfies [withAlt + withoutAlt = total]; [withAlt] is the
    number of images whose [alt] attribute exists and keeps a visible
    character after trimming, and the two lists the record carries have
    exactly [withAlt] and [withoutAlt] entries. *)
Theorem images_withAlt_withoutAlt_total (images : list img) :
  let d := imagesData images in
  withAlt d + withoutAlt d = total d
  /\ total d = Z.of_nat (List.length images)
  /\ withAlt d = Z.of_nat (List.length (filter has_visible_alt images))
  /\ 0 <= withAlt d <= total d
  /\ Z.of_nat (List.length (withAltList d)) = withAlt d
  /\ Z.of_nat (List.length (withoutAltList d)) = withoutAlt d
  /\ List.map hasAlt (all d) = List.map has_visible_alt images
  /\ (forall i, has_visible_alt i = true
                <-> exists a, attr_alt i = Some a /\ trim a <> []).
Proof.
  pose proof (imgLoop_inv_fold images [] _ imgLoop_inv_init) as [Hc Ha Hw Hwo Hf].
  simpl app in *.
  pose proof (filter_split_length img_hasAlt images) as Hsplit.
  assert (Hext : filter img_hasAlt images = filter has_visible_alt images)
    by (apply filter_ext; intro; apply img_hasAlt_visible).
  assert (Hmap : List.map img_hasAlt images = List.map has_visible_alt images)
    by (apply map_ext; intro; apply img_hasAlt_visible).
  unfold imagesData; cbn [total withAlt withoutAlt withAltList withoutAltList all].
  rewrite <- Hext, <- Hmap, Hc, Hw, Hwo, Hf.
  repeat split; try lia.
  - intro H. unfold has_visible_alt in H.
    destruct (attr_alt i) as [a|]; [|discriminate].
    exists a. split; trivial. rewrite trim_empty_iff, all_white_not_visible, H.
    discriminate.
  - intros (a & Halt & Ht). unfold has_visible_alt. rewrite Halt.
    rewrite trim_empty_iff, all_white_not_visible in Ht.
    destruct (existsb visible a); [reflexivity | now contradiction Ht].
Qed.

(** Every split has at least one piece. *)
Lemma wordCount_of_positive (text : jsstring) : 1 <= wordCount_of text.
Proof.
  unfold wordCount_of, split_white.
  pose proof (split_from_length false [] text). lia.
Qed.

(** The body text is empty exactly when the body holds white space only. *)
Lemma bodyText_empty_iff (body : jsstring) :
  bodyText body = [] <-> forallb is_white_space body = true.
Proof.
  unfold bodyText. rewrite trim_empty_iff, !all_white_not_visible.
  assert (H : forall b s, existsb visible (collapse_from b s) = existsb visible s).
  { intros b s. revert b. induction s as [|c r IH]; intro b; simpl; trivial.
    unfold visible at 2. destruct (is_white_space c) eqn:E; simpl.
    - destruct b; simpl; apply IH.
    - unfold visible at 1. rewrite E. simpl. trivial. }
  unfold collapse_white. now rewrite H.
Qed.

(** C8.  When the body text is empty after collapsing and trimming, the
    word count is 1. *)
Theorem empty_body_wordCount (body : jsstring) :
  bodyText body = [] -> wordCount (content body) = 1.
Proof.
  intro H. unfold content; cbn [wordCount]. now rewrite H.
Qed.

Lemma empty_body_wordCount_witness :
  bodyText (lit "   ") = [] /\ wordCount (content (lit "   ")) = 1.
Proof.
  split; [reflexivity | apply (empty_body_wordCount (lit "   ")); reflexivity].
Defined.

(** Without the guard the expression is not a number on an empty
    document. *)
Example unguarded_ratio_is_nan :
  PrimFloat.is_nan (Num.Math_round (PrimFloat.mul (Num.div 0 0) 100)) = true.
Proof. reflexivity. Qed.

(** The percentage is the IEEE one: 29 characters of text in 200 of
    HTML give 14, the product being just under 14.5. *)
Example ratio_29_of_200 : renderingPercentage_of 200 29 = Some 14%float.
Proof. reflexivity. Qed.

Example ratio_1_of_8 : renderingPercentage_of 8 1 = Some 13%float.
Proof. reflexivity. Qed.

End FactProperties.

(* ================================================================== *)
(** ** Properties: phone detection *)
(* ================================================================== *)

Section PhoneProperties.

Import Contact.


(** Each kept link goes to the front: after the loop the candidates are
    the kept links in reverse document order, then what was there. *)
Lemma telLink_fold (telLinks : list jsstring) (acc : list phoneMatch) :
  fold_left telLink_step telLinks acc
  = List.map telMatch (rev (keptTelLinks telLinks)) ++ acc.
Proof.
  revert acc. induction telLinks as [|text r IH]; intro acc; simpl; trivial.
  rewrite IH. unfold telLink_step, telDisplay.
  destruct (str_truthy (trim text) && has_digit (trim text)); trivial.
  simpl. rewrite map_app, <- app_assoc. reflexivity.
Qed.

Lemma rev_head_last {A} (l : list A) (d : A) :
  l <> [] -> exists r, rev l = last l d :: r.
Proof.
  intro H. destruct (exists_last H) as (l' & a & ->).
  rewrite rev_app_distr, last_last. simpl. eauto.
Qed.

(** One kept link is enough for the last kept link to be reported. *)
Lemma validPhone_last_tel (perPattern : list (list jsstring))
    (telLinks : list jsstring) :
  keptTelLinks telLinks <> [] ->
  phoneMatches perPattern telLinks
  = telMatch (last (keptTelLinks telLinks) [])
    :: List.tl (phoneMatches perPattern telLinks).
Proof.
  intro H. unfold phoneMatches. rewrite telLink_fold.
  destruct (rev_head_last (keptTelLinks telLinks) [] H) as [r ->]. reflexivity.
Qed.

(** C10.  When two or more [tel:] links have a display text with a
    digit, the reported phone is the display text of the last of them in
    document order, whatever the regular expressions matched in the body
    text: the first candidate always comes from a [tel:] link. *)
Theorem tel_link_last_wins (perPattern : list (list jsstring))
    (telLinks : list jsstring) :
  (2 <= List.length (keptTelLinks telLinks))%nat ->
  validPhone perPattern telLinks = Some (last (keptTelLinks telLinks) [])
  /\ hasPhone perPattern telLinks = true
  /\ List.map source (firstn 1 (phoneMatches perPattern telLinks)) = [telLinkSource]
  /\ validPhone perPattern telLinks = validPhone [] telLinks.
Proof.
  intro H.
  assert (K : keptTelLinks telLinks <> [])
    by (destruct (keptTelLinks telLinks); [simpl in H; lia | discriminate]).
  unfold hasPhone, validPhone.
  rewrite (validPhone_last_tel perPattern telLinks K),
    (validPhone_last_tel [] telLinks K).
  repeat split.
Qed.

Lemma tel_link_last_wins_witness :
  let perPattern := [[lit "555-123-4567"]; []; []; []] in
  let telLinks := [lit " +1 555 000 1111 "; lit "Call us"; lit "555 222 3333"] in
  (2 <= List.length (keptTelLinks telLinks))%nat
  /\ validPhone perPattern telLinks = Some (lit "555 222 3333").
Proof.
  split.
  - vm_compute. lia.
  - apply (tel_link_last_wins
             [[lit "555-123-4567"]; []; []; []]
             [lit " +1 555 000 1111 "; lit "Call us"; lit "555 222 3333"]).
    vm_compute. lia.
Defined.

End PhoneProperties.

(* ================================================================== *)
(** ** Properties: scoring *)
(* ================================================================== *)

Section ScoringProperties.

Import Facts Scoring.

Lemma titlePoints_range (m : MetaTags) : 0 <= titlePoints m <= 12.
Proof.
  unfold titlePoints.
  repeat match goal with |- context [if ?b then _ else _] => destruct b end; lia.
Qed.

Lemma descriptionPoints_range (m : MetaTags) : 0 <= descriptionPoints m <= 8.
Proof.
  unfold descriptionPoints.
  repeat match goal with |- context [if ?b then _ else _] => destruct b end; lia.
Qed.

Lemma h1Points_range (h : Headings) : 0 <= h1Points h <= 8.
Proof.
  unfold h1Points.
  repeat match goal with |- context [if ?b then _ else _] => destruct b end; lia.
Qed.

Lemma hierarchyPoints_range (h : Headings) : 0 <= hierarchyPoints h <= 5.
Proof.
  unfold hierarchyPoints.
  repeat match goal with |- context [if ?b then _ else _] => destruct b end; lia.
Qed.

Lemma altPoints_range (i : ImagesData) : 0 <= altPoints i <= 4.
Proof.
  unfold altPoints.
  repeat match goal with |- context [if ?b then _ else _] => destruct b end; lia.
Qed.

Lemma contentPoints_range (c : Content) : 0 <= contentPoints c <= 8.
Proof.
  unfold contentPoints.
  repeat match goal with |- context [if ?b then _ else _] => destruct b end; lia.
Qed.

Lemma onPagePoints_range (i : Inputs) : 0 <= onPagePoints i <= 45.
Proof.
  unfold onPagePoints.
  pose proof (titlePoints_range (metaTags i)).
  pose proof (descriptionPoints_range (metaTags i)).
  pose proof (h1Points_range (headings i)).
  pose proof (hierarchyPoints_range (headings i)).
  pose proof (altPoints_range (imagesData i)).
  pose proof (contentPoints_range (content i)).
  lia.
Qed.

Lemma technicalPoints_range (i : Inputs) : 0 <= technicalPoints i <= 30.
Proof.
  unfold technicalPoints, schemaPoints.
  repeat match goal with |- context [if ?b then _ else _] => destruct b end; lia.
Qed.

Lemma localPoints_range (i : Inputs) : 0 <= localPoints i <= 15.
Proof.
  unfold localPoints.
  repeat match goal with |- context [if ?b then _ else _] => destruct b end; lia.
Qed.

Lemma socialPoints_range (i : Inputs) : 0 <= socialPoints i <= 10.
Proof.
  unfold socialPoints.
  repeat match goal with |- context [if ?b then _ else _] => destruct b end; lia.
Qed.

(** C2.  The total is the plain sum of the four category subtotals;
    every subtotal lies between 0 and its maximum (45, 30, 15, 10), and
    so the total lies between 0 and 100 without being clamped. *)
Theorem score_is_sum_within_bounds (i : Inputs) :
  let b := scoreBreakdown i in
  score i = onPage b + technical b + local b + social b
  /\ 0 <= onPage b <= 45
  /\ 0 <= technical b <= 30
  /\ 0 <= local b <= 15
  /\ 0 <= social b <= 10
  /\ 0 <= score i <= 100.
Proof.
  unfold score, score_of, scoreBreakdown; cbn [onPage technical local social].
  pose proof (onPagePoints_range i).
  pose proof (technicalPoints_range i).
  pose proof (localPoints_range i).
  pose proof (socialPoints_range i).
  repeat split; lia.
Qed.

(** The bounds are reached. *)
Example full_marks : scoreBreakdown Samples.fullMarks
                     = {| onPage := 45; technical := 30; local := 15; social := 10 |}
                     /\ score Samples.fullMarks = 100
                     /\ grade Samples.fullMarks = "A+"%string.
Proof. repeat split. Qed.

Lemma all_with_alt_percentage (imgs : list img) :
  List.length imgs = 10%nat ->
  forallb img_hasAlt imgs = true ->
  total (Facts.imagesData imgs) = 10
  /\ altPercentage (Facts.imagesData imgs) = 100%float.
Proof.
  intros Hlen Hall.
  pose proof (imgLoop_inv_fold imgs [] _ imgLoop_inv_init) as [Hc _ _ _ _].
  simpl app in Hc.
  assert (Hf : filter img_hasAlt imgs = imgs).
  { clear Hc Hlen. induction imgs as [|x r IH]; simpl in *; trivial.
    apply andb_true_iff in Hall as [Hx Hr]. rewrite Hx. f_equal. now apply IH. }
  rewrite Hf, Hlen in Hc.
  unfold Facts.imagesData; cbn [total altPercentage].
  rewrite Hc, Hlen. split; reflexivity.
Qed.

(** C1 (as the code has it).  On the worked example of the
    specification - a title of 55 characters, no description, one H1 of
    25 characters, no H2, ten images all with alt text, HTTPS only,
    fewer than 50 words, and no structured data, phone, address or social
    link - the breakdown is 24 + 5 + 0 + 0, the total 29, and the grade
    that the thresholds give to 29 is F. *)
Theorem worked_example_scores (i : Inputs) (imgs : list img) (h1 : jsstring) :
  hasTitle (metaTags i) = true ->
  titleLength (metaTags i) = 55 ->
  hasDescription (metaTags i) = false ->
  h1Count (headings i) = 1 ->
  h1Text (headings i) = [h1] ->
  str_length h1 = 25 ->
  h2Count (headings i) = 0 ->
  imagesData i = Facts.imagesData imgs ->
  List.length imgs = 10%nat ->
  forallb img_hasAlt imgs = true ->
  wordCount (content i) < 50 ->
  technicalSEO i = {| hasRobotsTxt := false; hasSitemap := false; hasSSL := true;
                      hasAnalytics := false; hasSchema := false;
                      hasJsonLd := false |} ->
  localSEO i = {| hasLocalBusinessSchema := false; hasPhone := false;
                  hasAddress := false |} ->
  socialLinks i = {| Social.hasFacebookPage := false; Social.hasInstagram := false;
                     Social.hasTwitter := false; Social.hasLinkedIn := false;
                     Social.hasYouTube := false |} ->
  scoreBreakdown i = {| onPage := 24; technical := 5; local := 0; social := 0 |}
  /\ score i = 29
  /\ grade i = "F"%string.
Proof.
  intros Ht Htl Hd Hc Htx Hl Hh2 Him Hlen Hall Hwc Htech Hloc Hsoc.
  destruct (all_with_alt_percentage imgs Hlen Hall) as [Htot Hpct].
  assert (Hb : scoreBreakdown i
               = {| onPage := 24; technical := 5; local := 0; social := 0 |}).
  { unfold scoreBreakdown, onPagePoints, technicalPoints, localPoints,
      socialPoints, socialLinksCount, titlePoints, descriptionPoints, h1Points,
      h1GoodLength, hierarchyPoints, altPoints, contentPoints, schemaPoints.
    rewrite Ht, Htl, Hd, Hc, Htx, Hl, Hh2, Him, Htot, Hpct, Htech, Hloc, Hsoc.
    cbn.
    assert (E1 : (wordCount (content i) >=? 1000) = false) 
      by (rewrite Z.geb_leb; apply Z.leb_gt; lia).
    assert (E2 : (wordCount (content i) >=? 500) = false) 
      by (rewrite Z.geb_leb; apply Z.leb_gt; lia).
    assert (E3 : (wordCount (content i) >=? 300) = false) 
      by (rewrite Z.geb_leb; apply Z.leb_gt; lia).
    assert (E4 : (wordCount (content i) >=? 50) = false) 
      by (rewrite Z.geb_leb; apply Z.leb_gt; lia).
    rewrite E1, E2, E3, E4. reflexivity. }
  unfold grade, score. rewrite Hb. repeat split.
Qed.

Lemma worked_example_scores_witness :
  Scoring.scoreBreakdown Samples.workedInputs
  = {| onPage := 24; technical := 5; local := 0; social := 0 |}
  /\ Scoring.score Samples.workedInputs = 29
  /\ Scoring.grade Samples.workedInputs = "F"%string.
Proof.
  apply (worked_example_scores Samples.workedInputs
           (List.repeat Samples.photo 10) (lit "Sourdough Baked Every Day"));
    solve [reflexivity | vm_compute; reflexivity].
Defined.

(** C1, as stated, fails on the worked example: the audit of that page
    ends with the four subtotals and the total of the claim, but its
    grade is F and not D-. *)
Lemma worked_example_grade_not_D_minus :
  (exists r, Audit.analyzeSEO Samples.workedExample = Some r
             /\ Audit.scoreBreakdown r
                = {| onPage := 24; technical := 5; local := 0; social := 0 |}
             /\ Audit.score r = 29
             /\ Audit.grade r = "F"%string)
  /\ ~ (exists r, Audit.analyzeSEO Samples.workedExample = Some r
                  /\ Audit.score r = 29
                  /\ Audit.grade r = "D-"%string).
Proof.
  split.
  - eexists. split; [reflexivity|]. vm_compute. repeat split.
  - intros (r & Hr & _ & Hg).
    vm_compute in Hr. injection Hr as <-. vm_compute in Hg. discriminate.
Qed.

End ScoringProperties.

(* ================================================================== *)
(** ** Properties: structured data *)
(* ================================================================== *)


Section JsonInduction.

Variable P : json -> Prop.
Hypothesis P_null : P JNull.
Hypothesis P_bool : forall b, P (JBool b).
Hypothesis P_num : forall n, P (JNum n).
Hypothesis P_str : forall s, P (JStr s).
Hypothesis P_arr : forall items, Forall P items -> P (JArr items).
Hypothesis P_obj :
  forall members, Forall (fun kv => P (snd kv)) members -> P (JObj members).

Lemma json_induction (j : json) : P j.
Proof.
  revert j. fix rec 1. intros [ | b | n | s | items | members].
  - exact P_null.
  - apply P_bool.
  - apply P_num.
  - apply P_str.
  - apply P_arr. induction items as [|x r IH]; constructor.
    + apply rec.
    + exact IH.
  - apply P_obj. induction members as [|kv r IH]; constructor.
    + apply rec.
    + exact IH.
Qed.

End JsonInduction.

Section Equations.

Import Schema.

Lemma str_eqb_eq (a b : jsstring) : str_eqb a b = true <-> a = b.
Proof.
  revert b. induction a as [|x a IH]; destruct b as [|y b]; simpl;
    try (split; [discriminate | discriminate]); try tauto.
  unfold codeunit_eqb. rewrite andb_true_iff, N.eqb_eq, IH.
  split; [intros [-> ->]; trivial | intro H; injection H; auto].
Qed.

Lemma str_eqb_refl (a : jsstring) : str_eqb a a = true.
Proof. now apply str_eqb_eq. Qed.

Lemma forEach_map {A B S} (f : B -> S -> completion S) (g : A -> B)
    (l : list A) (s : S) :
  forEach (fun x => f (g x)) l s = forEach f (List.map g l) s.
Proof.
  revert s. induction l as [|x r IH]; intro s; simpl; trivial.
  destruct (f (g x) s); simpl; trivial.
Qed.

Lemma forEach_app {A S} (f : A -> S -> completion S) (l1 l2 : list A) (s : S) :
  forEach f (l1 ++ l2) s = andThen (forEach f l1 s) (forEach f l2).
Proof.
  revert s. induction l1 as [|x r IH]; intro s; simpl; trivial.
  destruct (f x s); simpl; trivial.
Qed.

Lemma graphRun_graphOf (rec : json -> State -> completion State)
    (members : list (jsstring * json)) :
  graphRun rec members = option_map (forEach rec) (graphOf members).
Proof.
  unfold graphRun, graphOf. generalize (lit "@graph") as key. intro key.
  induction members as [|[k v] r IH]; simpl; trivial.
  destruct (str_eqb key k); simpl.
  - destruct v; reflexivity.
  - exact IH.
Qed.

Lemma graphTypes_graphOf (rec : json -> list jsstring)
    (members : list (jsstring * json)) :
  graphTypes rec members = option_map (flat_map rec) (graphOf members).
Proof.
  unfold graphTypes, graphOf. generalize (lit "@graph") as key. intro key.
  induction members as [|[k v] r IH]; simpl; trivial.
  destruct (str_eqb key k); simpl.
  - destruct v; reflexivity.
  - exact IH.
Qed.

(** [extractSchemaTypes] on an object, as the source reads. *)
Lemma extract_obj (members : list (jsstring * json)) (s : State) :
  extractSchemaTypes (JObj members) s
  = match graphOf members with
    | Some graph => forEach extractSchemaTypes graph s
    | None =>
        andThen (addTypes (get (lit "@type") members) s)
                (forEach (visitValue extractSchemaTypes) (values members))
    end.
Proof.
  cbn [extractSchemaTypes]. rewrite graphRun_graphOf.
  destruct (graphOf members); simpl; trivial.
  destruct (addTypes (get (lit "@type") members) s); simpl; trivial.
  apply (forEach_map (visitValue extractSchemaTypes) snd).
Qed.

Lemma extract_arr (items : list json) (s : State) :
  extractSchemaTypes (JArr items) s
  = forEach (visitValue extractSchemaTypes) items s.
Proof. reflexivity. Qed.

Lemma allTypes_obj (members : list (jsstring * json)) :
  allTypes (JObj members)
  = match graphOf members with
    | Some graph => flat_map allTypes graph
    | None =>
        ownTypes (get (lit "@type") members)
        ++ flat_map (nestedTypes allTypes) (values members)
    end.
Proof.
  cbn [allTypes]. rewrite graphTypes_graphOf.
  destruct (graphOf members); simpl; trivial.
  f_equal. unfold values. now rewrite flat_map_concat_map, flat_map_concat_map, map_map.
Qed.

End Equations.

Section Preservation.

Import Schema.

(** A relation between the state before and after that every recording
    step respects is respected by the whole traversal, whether it ends
    normally or not. *)
Variable R : State -> State -> Prop.
Hypothesis R_refl : forall s, R s s.
Hypothesis R_trans : forall s1 s2 s3, R s1 s2 -> R s2 s3 -> R s1 s3.
Hypothesis R_addType : forall type s, R s (state_of (addType type s)).

Local Abbreviation keeps := (keeps R).

Lemma keeps_andThen (f g : State -> completion State) :
  keeps f -> keeps g -> keeps (fun s => andThen (f s) g).
Proof.
  intros Hf Hg s. specialize (Hf s).
  destruct (f s) as [s'|s']; simpl in *; trivial.
  eapply R_trans; [exact Hf | apply Hg].
Qed.

Lemma keeps_forEach {A} (f : A -> State -> completion State) (l : list A) :
  Forall (fun x => keeps (f x)) l -> keeps (forEach f l).
Proof.
  induction 1 as [|x r Hx _ IH]; intro s; simpl.
  - apply R_refl.
  - apply (keeps_andThen (f x) (forEach f r) Hx IH).
Qed.

Lemma keeps_addTypes (type : option json) : keeps (addTypes type).
Proof.
  intro s. unfold addTypes.
  destruct type as [t|]; [|apply R_refl].
  destruct (truthy t); [|apply R_refl].
  assert (H : forall l, keeps (forEach addType l)).
  { intro l. apply keeps_forEach, Forall_forall. intros x _ s'. apply R_addType. }
  destruct t; apply H.
Qed.

Lemma graphOf_member (members : list (jsstring * json)) (graph : list json) :
  graphOf members = Some graph -> In (JArr graph) (values members).
Proof.
  unfold graphOf. generalize (lit "@graph") as key. intro key.
  induction members as [|[k v] r IH]; simpl; [discriminate|].
  destruct (str_eqb key k).
  - destruct v; try discriminate. intro H. injection H as ->. now left.
  - intro H. right. now apply IH.
Qed.

Lemma keeps_traversal (j : json) :
  keeps (extractSchemaTypes j)
  /\ keeps (visitValue extractSchemaTypes j)
  /\ keeps (itemRun j)
  /\ keeps (graphItemsRun j).
Proof.
  induction j as [| b | n | t | items IH | members IH] using json_induction;
    try (repeat split; intro s; apply R_refl).
  - assert (E : keeps (extractSchemaTypes (JArr items))).
    { intro s. rewrite extract_arr. apply keeps_forEach.
      eapply Forall_impl; [|exact IH]. intros x Hx. apply Hx. }
    repeat split; trivial.
    + intro s. cbn [visitValue]. apply (keeps_forEach itemRun).
      eapply Forall_impl; [|exact IH]. intros x Hx. apply Hx.
    + intro s. cbn [graphItemsRun]. apply keeps_forEach.
      eapply Forall_impl; [|exact IH]. intros x Hx. apply Hx.
  - assert (IH' : Forall (fun v => keeps (extractSchemaTypes v)
                                   /\ keeps (visitValue extractSchemaTypes v)
                                   /\ keeps (itemRun v)
                                   /\ keeps (graphItemsRun v)) (values members)).
    { unfold values. apply Forall_map. exact IH. }
    assert (E : keeps (extractSchemaTypes (JObj members))).
    { intro s. rewrite extract_obj. destruct (graphOf members) as [graph|] eqn:G.
      - apply graphOf_member in G.
        rewrite Forall_forall in IH'. apply (IH' _ G).
      - apply (keeps_andThen (addTypes (get (lit "@type") members))
                 (forEach (visitValue extractSchemaTypes) (values members))).
        + apply keeps_addTypes.
        + apply keeps_forEach. eapply Forall_impl; [|exact IH'].
          intros x Hx. apply Hx. }
    repeat split; trivial; intro s; apply R_refl.
Qed.

Lemma keeps_eachScript (ldJsonScripts : list ldScript) :
  keeps (eachScript ldJsonScripts).
Proof.
  unfold eachScript. apply keeps_forEach, Forall_forall. intros el _ s.
  unfold tryCatch. cbn [state_of].
  destruct el; cbn [scriptBody state_of]; try apply R_refl.
  apply keeps_traversal.
Qed.

End Preservation.

Section IdentityProperties.

Import Schema.

Lemma typeStrings_app (a b : list json) :
  typeStrings (a ++ b) = typeStrings a ++ typeStrings b.
Proof. unfold typeStrings. apply flat_map_app. Qed.

Lemma typeStrings_includes (t : jsstring) (l : list json) :
  In t (typeStrings l) <-> arr_includes (JStr t) l = true.
Proof.
  unfold typeStrings, arr_includes. rewrite in_flat_map, existsb_exists.
  split.
  - intros (v & Hv & Ht). exists v. split; trivial.
    destruct v; simpl in Ht; try tauto. destruct Ht as [->|[]].
    apply str_eqb_refl.
  - intros (v & Hv & Ht). exists v. split; trivial.
    destruct v; simpl in Ht; try discriminate.
    apply str_eqb_eq in Ht. subst. now left.
Qed.

Lemma last_snoc {A} (l : list A) (x d : A) : last (l ++ [x]) d = x.
Proof. apply last_last. Qed.

Lemma identityInv_init : identityInv init.
Proof.
  constructor; simpl.
  - split; [discriminate | intro H; now contradiction H].
  - reflexivity.
  - constructor.
Qed.

Lemma identityInv_addType (type : json) (s : State) :
  identityInv s -> identityInv (state_of (addType type s)).
Proof.
  intros [Hh Hl Hn]. unfold addType.
  destruct (truthy type && negb (arr_includes type (schemaTypes s))) eqn:E;
    [|constructor; trivial].
  apply andb_true_iff in E as [_ E]. apply negb_true_iff in E.
  assert (Other : typeStrings [type] = [] ->
                  identityInv (push type s)).
  { intro H. constructor; unfold identityStrings in *; cbn [push schemaTypes
      hasIdentitySchema identityType]; rewrite typeStrings_app, H, app_nil_r;
      trivial. }
  assert (Local : forall s', identityInv s' -> forall b : bool,
             identityInv (if b then setLocalBusiness s' else s')).
  { intros s' [H1 H2 H3] []; constructor; trivial. }
  destruct type; cbn [state_of]; try (apply Other; reflexivity).
  - (* a string *)
    apply Local.
    assert (Hnew : ~ In s0 (typeStrings (schemaTypes s)))
      by (rewrite typeStrings_includes, E; discriminate).
    destruct (isIdentity s0) eqn:I;
      constructor; unfold identityStrings in *;
      cbn [push setIdentity schemaTypes hasIdentitySchema identityType];
      rewrite typeStrings_app; cbn [typeStrings flat_map app];
      rewrite ?filter_app; cbn [filter]; rewrite ?I, ?app_nil_r; trivial.
    + split; trivial. intros _ H. now apply app_eq_nil in H as [_ H].
    + now rewrite last_snoc.
    + apply NoDup_app; repeat split; trivial.
      * constructor; [intros []|constructor].
      * intros x Hx [<-|[]]. contradiction.
    + apply NoDup_app; repeat split; trivial.
      * constructor; [intros []|constructor].
      * intros x Hx [<-|[]]. contradiction.
  - (* an array *)
    apply Local, Other. reflexivity.
Qed.

Lemma identityInv_eachScript (ldJsonScripts : list ldScript) :
  identityInv (state_of (eachScript ldJsonScripts init)).
Proof.
  apply (keeps_eachScript (fun s s' => identityInv s -> identityInv s')).
  - trivial.
  - auto.
  - intros type s. apply identityInv_addType.
  - apply identityInv_init.
Qed.

Lemma NoDup_last_hd {A} (l : list A) (d : A) :
  NoDup l -> (2 <= List.length l)%nat -> last l d <> hd d l.
Proof.
  intros Hn Hlen. destruct l as [|x [|y r]]; simpl in Hlen; try lia.
  change (last (x :: y :: r) d) with (last (y :: r) d). simpl hd.
  inversion Hn as [|? ? Hx _]; subst. intro H. apply Hx. rewrite <- H.
  clear. revert y. induction r as [|z r IH]; intro y; simpl.
  - now left.
  - right. apply IH.
Qed.

Lemma structuredData_normal (ldJsonScripts : list ldScript) (s : State) :
  eachScript ldJsonScripts s = Normal (state_of (eachScript ldJsonScripts s)).
Proof.
  unfold eachScript. revert s.
  induction ldJsonScripts as [|el r IH]; intro s; simpl; auto.
Qed.

Lemma analyzeSEO_schema (p : Audit.Page) (r : Audit.Result) :
  Audit.analyzeSEO p = Some r ->
  Audit.schema r = state_of (eachScript (Audit.ldJsonScripts p) init).
Proof.
  unfold Audit.analyzeSEO, structuredData.
  rewrite structuredData_normal. intro H. injection H as <-. reflexivity.
Qed.

(** C3 (as the code has it).  When the recorded types hold two or more
    identity types (Organization, Person, Corporation, LocalBusiness),
    [hasIdentitySchema] is true and the reported [identityType] is the
    last of them in first-seen order - which is never the first. *)
Theorem identityType_is_last_seen (p : Audit.Page) (r : Audit.Result) :
  Audit.analyzeSEO p = Some r ->
  let ids := identityStrings (schemaTypes (Audit.schema r)) in
  (2 <= List.length ids)%nat ->
  hasIdentitySchema (Audit.schema r) = true
  /\ identityType (Audit.schema r) = last ids []
  /\ identityType (Audit.schema r) <> hd [] ids.
Proof.
  intros Hr ids Hlen. subst ids.
  rewrite (analyzeSEO_schema p r Hr) in *.
  destruct (identityInv_eachScript (Audit.ldJsonScripts p)) as [Hh Hl Hn].
  repeat split.
  - apply Hh. intro E. rewrite E in Hlen. simpl in Hlen. lia.
  - exact Hl.
  - rewrite Hl. apply NoDup_last_hd; trivial.
    unfold identityStrings. now apply NoDup_filter.
Qed.

Lemma identityType_is_last_seen_witness :
  exists r,
    Audit.analyzeSEO
      (Samples.pageWith [Parsed Samples.organizationAndPerson] Samples.noMarkup)
    = Some r
    /\ hasIdentitySchema (Audit.schema r) = true
    /\ identityType (Audit.schema r) = lit "Person".
Proof.
  eexists. split; [reflexivity|].
  destruct (identityType_is_last_seen
              (Samples.pageWith [Parsed Samples.organizationAndPerson] Samples.noMarkup)
              _ eq_refl) as (H1 & H2 & _).
  - vm_compute. lia.
  - split; [exact H1 | exact H2].
Defined.

(** C3, as stated, fails: in a graph that declares an Organization and
    then a Person, the first identity type met is Organization, and the
    reported one is Person. *)
Lemma identityType_not_first_seen :
  let j := Samples.organizationAndPerson in
  let s := state_of (eachScript [Parsed j] init) in
  wellTyped j = true
  /\ filter isIdentity (allTypes j) = [lit "Organization"; lit "Person"]
  /\ identityType s = lit "Person"
  /\ ~ (hasIdentitySchema s = true
        /\ identityType s = hd [] (filter isIdentity (allTypes j))).
Proof.
  repeat split; try reflexivity.
  intros [_ H]. vm_compute in H. discriminate.
Qed.

End IdentityProperties.

Section TraversalProperties.

Import Schema.

(** *** The recorded types only grow *)

Lemma schemaTypes_grow_addType (type : json) (s : State) :
  incl (schemaTypes s) (schemaTypes (state_of (addType type s))).
Proof.
  unfold addType.
  destruct (truthy type && negb (arr_includes type (schemaTypes s)));
    [|apply incl_refl].
  assert (H : incl (schemaTypes s) (schemaTypes (push type s)))
    by (cbn [push schemaTypes]; apply incl_appl, incl_refl).
  destruct type; cbn [state_of]; trivial;
    repeat match goal with |- context [if ?b then _ else _] => destruct b end;
    exact H.
Qed.

Lemma schemaTypes_grow (ldJsonScripts : list ldScript) (s : State) :
  incl (schemaTypes s) (schemaTypes (state_of (eachScript ldJsonScripts s))).
Proof.
  apply (keeps_eachScript (fun s s' => incl (schemaTypes s) (schemaTypes s'))).
  - intro. apply incl_refl.
  - intros s1 s2 s3. apply incl_tran.
  - apply schemaTypes_grow_addType.
Qed.

(** *** A script that cannot be parsed leaves no trace *)

Lemma eachScript_skips (ldJsonScripts : list ldScript) (s : State) :
  eachScript (filter parses ldJsonScripts) s = eachScript ldJsonScripts s.
Proof.
  unfold eachScript. revert s.
  induction ldJsonScripts as [|el r IH]; intro s; simpl; trivial.
  destruct el; simpl; apply IH.
Qed.

Lemma eachScript_app (l1 l2 : list ldScript) (s : State) :
  state_of (eachScript (l1 ++ l2) s)
  = state_of (eachScript l2 (state_of (eachScript l1 s))).
Proof.
  unfold eachScript. rewrite forEach_app.
  fold (eachScript l1 s). now rewrite (structuredData_normal l1 s).
Qed.

(** *** Well-typed documents: the traversal records [allTypes] *)

Lemma addType_str (t : jsstring) (s : State) :
  addType (JStr t) s = Normal (record s t).
Proof.
  unfold record, addType.
  destruct (truthy (JStr t) && negb (arr_includes (JStr t) (schemaTypes s)));
    reflexivity.
Qed.

Lemma addType_falsy (v : json) (s : State) :
  truthy v = false -> addType v s = Normal s.
Proof. intro H. unfold addType. now rewrite H. Qed.

Lemma absorb_app (a b : list jsstring) (s : State) :
  absorb (a ++ b) s = absorb b (absorb a s).
Proof. apply fold_left_app. Qed.

Lemma forEach_absorb {A} (f : A -> State -> completion State)
    (g : A -> list jsstring) (l : list A) :
  Forall (fun x => forall s, f x s = Normal (absorb (g x) s)) l ->
  forall s, forEach f l s = Normal (absorb (flat_map g l) s).
Proof.
  induction 1 as [|x r Hx _ IH]; intro s; simpl; trivial.
  now rewrite Hx, absorb_app, <- IH.
Qed.

Lemma addType_typeName (v : json) (s : State) :
  typeValueOk v = true -> addType v s = Normal (absorb (typeName v) s).
Proof.
  intro H. destruct v; try (apply negb_true_iff in H; now apply addType_falsy).
  cbn [typeName]. destruct (str_truthy s0) eqn:T.
  - apply addType_str.
  - now apply addType_falsy.
Qed.

Lemma addTypes_ownTypes (o : option json) (s : State) :
  typeFieldOk o = true -> addTypes o s = Normal (absorb (ownTypes o) s).
Proof.
  intro H. destruct o as [v|]; [|reflexivity].
  unfold addTypes. destruct (truthy v) eqn:T.
  - destruct v;
      try (unfold typeFieldOk, typeValueOk in H; rewrite T in H; discriminate).
    + cbn [forEach andThen ownTypes]. rewrite addType_typeName by exact H.
      reflexivity.
    + cbn [ownTypes]. apply forEach_absorb, Forall_forall. intros x Hx s'.
      apply addType_typeName. cbn in H. rewrite forallb_forall in H. now apply H.
  - destruct v; cbn in T; try discriminate; cbn [ownTypes typeName];
      try reflexivity. now rewrite T.
Qed.

Lemma wellTyped_traversal (j : json) :
  wellTyped j = true ->
  (forall s, extractSchemaTypes j s = Normal (absorb (allTypes j) s))
  /\ (forall s, visitValue extractSchemaTypes j s
                = Normal (absorb (nestedTypes allTypes j) s))
  /\ (forall s, itemRun j s = Normal (absorb (itemTypes j) s))
  /\ (forall s, graphItemsRun j s = Normal (absorb (graphItemTypes j) s)).
Proof.
  induction j as [| b | n | t | items IH | members IH] using json_induction;
    intro W; try (repeat split; reflexivity).
  - cbn [wellTyped] in W. rewrite forallb_forall in W. rewrite Forall_forall in IH.
    assert (E : forall s, extractSchemaTypes (JArr items) s
                          = Normal (absorb (allTypes (JArr items)) s)).
    { intro s. rewrite extract_arr. cbn [allTypes].
      apply forEach_absorb, Forall_forall. intros x Hx. now apply IH; auto. }
    repeat split; trivial.
    + intro s. cbn [visitValue nestedTypes].
      apply (forEach_absorb itemRun itemTypes), Forall_forall.
      intros x Hx. now apply IH; auto.
    + intro s. cbn [graphItemsRun graphItemTypes].
      apply forEach_absorb, Forall_forall. intros x Hx. now apply IH; auto.
  - cbn [wellTyped] in W. apply andb_true_iff in W as [Wt W].
    rewrite forallb_forall in W.
    assert (IH' : forall v, In v (values members) ->
               (forall s, extractSchemaTypes v s = Normal (absorb (allTypes v) s))
               /\ (forall s, visitValue extractSchemaTypes v s
                             = Normal (absorb (nestedTypes allTypes v) s))
               /\ (forall s, itemRun v s = Normal (absorb (itemTypes v) s))
               /\ (forall s, graphItemsRun v s
                             = Normal (absorb (graphItemTypes v) s))).
    { intros v Hv. unfold values in Hv. apply in_map_iff in Hv as ([k v'] & <- & Hin).
      rewrite Forall_forall in IH. apply (IH _ Hin). apply (W _ Hin). }
    assert (E : forall s, extractSchemaTypes (JObj members) s
                          = Normal (absorb (allTypes (JObj members)) s)).
    { intro s. rewrite extract_obj, allTypes_obj.
      destruct (graphOf members) as [graph|] eqn:G.
      - apply graphOf_member in G. apply (IH' _ G).
      - rewrite addTypes_ownTypes by exact Wt. cbn [andThen].
        rewrite absorb_app. apply forEach_absorb, Forall_forall.
        intros x Hx. now apply IH'. }
    repeat split; trivial.
Qed.

End TraversalProperties.

Section Simulation.

Import Schema.

(** *** Equality of numbers *)

Lemma SFeqb_true (a b : spec_float) :
  SFeqb a b = true ->
  match a, b with
  | S754_zero _, S754_zero _ => True
  | S754_infinity s1, S754_infinity s2 => s1 = s2
  | S754_finite s1 m1 e1, S754_finite s2 m2 e2 => s1 = s2 /\ m1 = m2 /\ e1 = e2
  | _, _ => False
  end.
Proof.
  unfold SFeqb, SFcompare.
  destruct a as [sa|sa| |sa ma ea], b as [sb|sb| |sb mb eb]; trivial;
    try discriminate; try (destruct sa; discriminate);
    try (destruct sb; discriminate).
  - destruct sa, sb; trivial; discriminate.
  - destruct sa, sb; try discriminate;
      destruct (Z.compare ea eb) eqn:E; try discriminate;
      apply Z.compare_eq in E; subst eb;
      destruct (Pos.compare_cont Eq ma mb) eqn:M; try discriminate;
      apply Pos.compare_eq in M; subst mb; auto.
Qed.

Lemma SFeqb_sym (a b : spec_float) : SFeqb a b = true -> SFeqb b a = true.
Proof.
  intro H. apply SFeqb_true in H.
  destruct a as [sa|sa| |sa ma ea], b as [sb|sb| |sb mb eb]; try contradiction.
  - reflexivity.
  - subst. unfold SFeqb, SFcompare. now destruct sb.
  - destruct H as (-> & -> & ->). unfold SFeqb, SFcompare.
    rewrite Z.compare_refl, Pos.compare_cont_refl. now destruct sb.
Qed.

Lemma SFeqb_left (a b c : spec_float) :
  SFeqb a b = true -> SFeqb a c = SFeqb b c.
Proof.
  intro H. apply SFeqb_true in H.
  destruct a as [sa|sa| |sa ma ea], b as [sb|sb| |sb mb eb]; try contradiction.
  - now destruct c.
  - now subst.
  - destruct H as (-> & -> & ->). reflexivity.
Qed.

Lemma SFeqb_self (a b : spec_float) : SFeqb a b = true -> SFeqb a a = true.
Proof.
  intro H. rewrite (SFeqb_left a b a H). now apply SFeqb_sym.
Qed.

(** [NaN] equals nothing by [==]. *)
Lemma nan_differs (x y : float) :
  PrimFloat.is_nan x = true -> PrimFloat.eqb x y = false.
Proof.
  unfold PrimFloat.is_nan. intro H. apply negb_true_iff in H.
  destruct (PrimFloat.eqb x y) eqn:E; trivial.
  rewrite FloatAxioms.eqb_spec in *.
  apply SFeqb_self in E. congruence.
Qed.

(** [includes] compares by an equivalence: what equals a value that
    equals a third one equals that one. *)
Lemma sameValueZero_trans (u v w : json) :
  sameValueZero u v = true -> sameValueZero v w = true ->
  sameValueZero u w = true.
Proof.
  destruct u as [| bu | xu | su | |], v as [| bv | xv | sv | |]; try discriminate;
    destruct w as [| bw | xw | sw | |]; try discriminate; trivial; simpl.
  - intros H1 H2. apply Bool.eqb_prop in H1, H2. subst. apply Bool.eqb_reflx.
  - intros H1 H2. apply orb_true_iff in H1 as [H1|H1].
    + assert (N : PrimFloat.is_nan xv = false).
      { unfold PrimFloat.is_nan. apply negb_false_iff.
        rewrite FloatAxioms.eqb_spec in *.
        apply SFeqb_sym in H1. now apply SFeqb_self in H1. }
      rewrite N, andb_false_l, orb_false_r in H2.
      rewrite FloatAxioms.eqb_spec in *.
      now rewrite (SFeqb_left _ _ (Prim2SF xw) H1), H2.
    + apply andb_true_iff in H1 as [Nu Nv].
      rewrite (nan_differs xv xw Nv), Nv in H2. cbn [orb andb] in H2.
      rewrite Nu, H2. apply orb_true_r.
  - intros H1 H2. apply str_eqb_eq in H1, H2. subst. apply str_eqb_refl.
Qed.

(** *** The recorded types of a run cover those of a run from less *)

Lemma covers_refl (s : State) : covers s s.
Proof. intros v H. exact H. Qed.

Lemma covers_trans (s1 s2 s3 : State) : covers s1 s2 -> covers s2 s3 -> covers s1 s3.
Proof. intros H1 H2 v H. auto. Qed.

Lemma covers_incl (a c : State) :
  incl (schemaTypes a) (schemaTypes c) -> covers a c.
Proof.
  intros H v Hv. unfold arr_includes in *.
  apply existsb_exists in Hv as (w & Hw & E). apply existsb_exists.
  exists w. auto.
Qed.

Lemma covers_addType (type : json) (s : State) :
  covers s (state_of (addType type s)).
Proof. apply covers_incl, schemaTypes_grow_addType. Qed.

Lemma schemaTypes_addType (type : json) (s : State) :
  schemaTypes (state_of (addType type s))
  = if truthy type && negb (arr_includes type (schemaTypes s))
    then schemaTypes s ++ [type] else schemaTypes s.
Proof.
  unfold addType.
  destruct (truthy type && negb (arr_includes type (schemaTypes s)));
    [|reflexivity].
  destruct type; cbn [state_of]; trivial;
    repeat match goal with |- context [if ?b then _ else _] => destruct b end;
    reflexivity.
Qed.

Lemma throws_addType (type : json) (s : State) :
  throws (addType type s)
  = truthy type && negb (arr_includes type (schemaTypes s)) && unusable type.
Proof.
  unfold addType.
  destruct (truthy type && negb (arr_includes type (schemaTypes s)));
    [|reflexivity].
  destruct type; reflexivity.
Qed.

Lemma follows_addType (type : json) : follows (addType type).
Proof.
  intros a c Hac. split.
  - intros v. rewrite !schemaTypes_addType.
    destruct (truthy type) eqn:T; cbn [andb]; [|apply Hac].
    destruct (arr_includes type (schemaTypes a)) eqn:Ia; cbn [negb].
    + rewrite (Hac type Ia). cbn [negb]. apply Hac.
    + unfold arr_includes at 1. rewrite existsb_app. cbn [existsb].
      rewrite orb_false_r. intro H. apply orb_true_iff in H as [H|H].
      * apply Hac in H.
        destruct (negb (arr_includes type (schemaTypes c))); trivial.
        unfold arr_includes in *. rewrite existsb_app, H. reflexivity.
      * destruct (arr_includes type (schemaTypes c)) eqn:Ic; cbn [negb].
        -- unfold arr_includes in *.
           apply existsb_exists in Ic as (w & Hw & E).
           apply existsb_exists. exists w. split; trivial.
           now apply (sameValueZero_trans v type w).
        -- unfold arr_includes. rewrite existsb_app. cbn [existsb].
           rewrite H. now rewrite orb_true_r.
  - rewrite !throws_addType.
    destruct (truthy type); cbn [andb]; trivial.
    destruct (arr_includes type (schemaTypes a)) eqn:Ia; cbn [negb andb].
    + now rewrite (Hac type Ia).
    + intro H. now apply andb_true_iff in H as [_ H].
Qed.

Lemma follows_andThen (f g : State -> completion State) :
  follows f -> follows g -> keeps covers g ->
  follows (fun s => andThen (f s) g).
Proof.
  intros Hf Hg Kg a c Hac. destruct (Hf a c Hac) as [Cov Thr].
  destruct (f a) as [a'|a'], (f c) as [c'|c']; cbn [andThen state_of throws] in *.
  - now apply Hg.
  - specialize (Thr eq_refl). discriminate.
  - split; trivial. eapply covers_trans; [exact Cov | apply Kg].
  - split; trivial.
Qed.

Lemma follows_forEach {A} (f : A -> State -> completion State) (l : list A) :
  Forall (fun x => follows (f x) /\ keeps covers (f x)) l ->
  follows (forEach f l).
Proof.
  induction 1 as [|x r [Hx Kx] Hr IH].
  - intros a c Hac. split; [exact Hac | trivial].
  - apply (follows_andThen (f x) (forEach f r) Hx IH).
    apply (keeps_forEach covers covers_refl covers_trans).
    eapply Forall_impl; [|exact Hr]. intros y Hy. apply Hy.
Qed.

Lemma follows_addTypes (type : option json) : follows (addTypes type).
Proof.
  assert (H : forall l, follows (forEach addType l)).
  { intro l. apply follows_forEach, Forall_forall. intros x _.
    split; [apply follows_addType | intro s; apply covers_addType]. }
  unfold addTypes. destruct type as [t|];
    [|intros a c Hac; split; [exact Hac | trivial]].
  destruct (truthy t); [|intros a c Hac; split; [exact Hac | trivial]].
  destruct t; apply H.
Qed.

Lemma follows_skip : follows (fun s => Normal s).
Proof. intros a c Hac. split; [exact Hac | trivial]. Qed.

Lemma follows_traversal (j : json) :
  follows (extractSchemaTypes j)
  /\ follows (visitValue extractSchemaTypes j)
  /\ follows (itemRun j)
  /\ follows (graphItemsRun j).
Proof.
  pose proof (keeps_traversal covers covers_refl covers_trans covers_addType) as K.
  induction j as [| b | n | t | items IH | members IH] using json_induction;
    try (repeat apply conj; intros a c Hac; (split; [exact Hac | intro H; exact H])).
  - assert (E : follows (extractSchemaTypes (JArr items))).
    { intros a c. rewrite !extract_arr. revert a c. apply follows_forEach.
      eapply Forall_impl; [|exact IH]. intros x Hx.
      split; [apply Hx | apply K]. }
    repeat apply conj; trivial.
    + intros a c. cbn [visitValue]. revert a c. apply (follows_forEach itemRun).
      eapply Forall_impl; [|exact IH]. intros x Hx. split; [apply Hx | apply K].
    + intros a c. cbn [graphItemsRun]. revert a c. apply follows_forEach.
      eapply Forall_impl; [|exact IH]. intros x Hx. split; [apply Hx | apply K].
  - assert (IH' : Forall (fun v => follows (extractSchemaTypes v)
                                   /\ follows (visitValue extractSchemaTypes v)
                                   /\ follows (itemRun v)
                                   /\ follows (graphItemsRun v)) (values members)).
    { unfold values. apply Forall_map. exact IH. }
    assert (E : follows (extractSchemaTypes (JObj members))).
    { intros a c. rewrite !extract_obj.
      destruct (graphOf members) as [graph|] eqn:G.
      - apply graphOf_member in G. rewrite Forall_forall in IH'.
        apply (IH' _ G).
      - revert a c.
        apply (follows_andThen (addTypes (get (lit "@type") members))
                 (forEach (visitValue extractSchemaTypes) (values members))).
        + apply follows_addTypes.
        + apply follows_forEach. eapply Forall_impl; [|exact IH'].
          intros x Hx. split; [apply Hx | apply K].
        + apply (keeps_forEach covers covers_refl covers_trans).
          apply Forall_forall. intros x _. apply K. }
    repeat apply conj; trivial; intros a c Hac; (split; [exact Hac | intro H; exact H]).
Qed.

(** What a script records when it is read on its own is recorded when
    it is read after other scripts. *)
Lemma script_alone_covered (schema : json) (s : State) :
  covers (state_of (extractSchemaTypes schema init))
         (state_of (extractSchemaTypes schema s)).
Proof.
  apply follows_traversal. intros v H. discriminate H.
Qed.

End Simulation.

Section FirstSeen.

Import Schema.

Lemma filter_filter_comm {A} (p q : A -> bool) (l : list A) :
  filter p (filter q l) = filter q (filter p l).
Proof.
  induction l as [|x r IH]; simpl; trivial.
  destruct (p x) eqn:P, (q x) eqn:Q; simpl; rewrite ?P, ?Q, IH; trivial.
Qed.

Lemma filter_absent (p : jsstring -> bool) (x : jsstring) (l : list jsstring) :
  p x = false ->
  filter p (filter (fun u => negb (str_eqb u x)) l) = filter p l.
Proof.
  intro Px. induction l as [|y r IH]; simpl; trivial.
  destruct (str_eqb y x) eqn:E; simpl.
  - apply str_eqb_eq in E. subst y. now rewrite Px.
  - now rewrite IH.
Qed.

Lemma firstSeen_filter (p : jsstring -> bool) (l : list jsstring) :
  firstSeen (filter p l) = filter p (firstSeen l).
Proof.
  induction l as [|x r IH]; simpl; trivial.
  destruct (p x) eqn:Px; simpl.
  - now rewrite IH, filter_filter_comm.
  - now rewrite IH, filter_absent.
Qed.

Lemma In_firstSeen (t : jsstring) (l : list jsstring) :
  In t (firstSeen l) <-> In t l.
Proof.
  induction l as [|x r IH]; simpl; [tauto|].
  rewrite filter_In, IH. split.
  - intros [H|[H _]]; auto.
  - intros [H|H]; auto.
    destruct (str_eqb t x) eqn:E.
    + apply str_eqb_eq in E. auto.
    + right. now split.
Qed.

Lemma NoDup_firstSeen (l : list jsstring) : NoDup (firstSeen l).
Proof.
  induction l as [|x r IH]; simpl; constructor.
  - rewrite filter_In. intros [_ H]. cbv beta in H.
    now rewrite str_eqb_refl in H.
  - now apply NoDup_filter.
Qed.

Lemma fold_addName (types acc : list jsstring) :
  Forall (fun t => str_truthy t = true) types ->
  fold_left addName types acc
  = acc ++ firstSeen (filter (fun t => negb (existsb (str_eqb t) acc)) types).
Proof.
  intro H. revert acc. induction H as [|t r Ht _ IH]; intro acc; simpl.
  - now rewrite app_nil_r.
  - unfold addName at 2. rewrite Ht. simpl andb.
    destruct (existsb (str_eqb t) acc) eqn:E; simpl.
    + apply IH.
    + rewrite IH, <- app_assoc. simpl. f_equal. f_equal.
      rewrite <- firstSeen_filter, filter_filter_comm.
      f_equal. clear. induction r as [|u r IH]; simpl; trivial.
      rewrite existsb_app. simpl. rewrite orb_false_r, negb_orb.
      destruct (existsb (str_eqb u) acc) eqn:Ea, (str_eqb u t) eqn:Et; simpl;
        rewrite ?Ea; simpl; now rewrite IH.
Qed.

Lemma firstSeen_from_empty (types : list jsstring) :
  Forall (fun t => str_truthy t = true) types ->
  fold_left addName types [] = firstSeen types.
Proof.
  intro H. rewrite fold_addName by exact H. simpl. f_equal.
  clear. induction types as [|t r IH]; simpl; now rewrite ?IH.
Qed.

Lemma includes_names (t : jsstring) (acc : list jsstring) :
  arr_includes (JStr t) (List.map JStr acc) = existsb (str_eqb t) acc.
Proof.
  unfold arr_includes. induction acc as [|x r IH]; simpl; trivial.
  now rewrite IH.
Qed.

Lemma schemaTypes_record (s : State) (t : jsstring) :
  schemaTypes (record s t)
  = if str_truthy t && negb (arr_includes (JStr t) (schemaTypes s))
    then schemaTypes s ++ [JStr t] else schemaTypes s.
Proof.
  unfold record, addType. cbn [truthy].
  destruct (str_truthy t && negb (arr_includes (JStr t) (schemaTypes s)));
    cbn [state_of]; trivial.
  destruct (isIdentity t), (isLocalBusiness t); reflexivity.
Qed.

Lemma schemaTypes_absorb (types acc : list jsstring) (s : State) :
  schemaTypes s = List.map JStr acc ->
  schemaTypes (absorb types s) = List.map JStr (fold_left addName types acc).
Proof.
  revert acc s. induction types as [|t r IH]; intros acc s H; simpl; trivial.
  apply IH. rewrite schemaTypes_record, H, includes_names. unfold addName.
  destruct (str_truthy t && negb (existsb (str_eqb t) acc)); trivial.
  now rewrite map_app.
Qed.

Lemma typeName_truthy (v : json) :
  Forall (fun t => str_truthy t = true) (typeName v).
Proof.
  destruct v; simpl; try constructor.
  destruct (str_truthy s) eqn:E; repeat constructor. exact E.
Qed.

Lemma ownTypes_truthy (o : option json) :
  Forall (fun t => str_truthy t = true) (ownTypes o).
Proof.
  destruct o as [v|]; [|constructor].
  destruct v; try apply typeName_truthy.
  cbn [ownTypes]. apply Forall_flat_map, Forall_forall. intros.
  apply typeName_truthy.
Qed.

Lemma allTypes_truthy_all (j : json) :
  Forall (fun t => str_truthy t = true) (allTypes j)
  /\ Forall (fun t => str_truthy t = true) (nestedTypes allTypes j)
  /\ Forall (fun t => str_truthy t = true) (itemTypes j)
  /\ Forall (fun t => str_truthy t = true) (graphItemTypes j).
Proof.
  induction j as [| b | n | t | items IH | members IH] using json_induction;
    try (repeat split; constructor).
  - rewrite Forall_forall in IH.
    assert (E : Forall (fun t => str_truthy t = true) (allTypes (JArr items))).
    { cbn [allTypes]. apply Forall_flat_map, Forall_forall.
      intros x Hx. now apply IH. }
    repeat split; trivial.
    + cbn [nestedTypes]. apply Forall_flat_map, Forall_forall.
      intros x Hx. now apply (IH x Hx).
    + cbn [graphItemTypes]. apply Forall_flat_map, Forall_forall.
      intros x Hx. now apply IH.
  - assert (IH' : forall v, In v (values members) ->
               Forall (fun t => str_truthy t = true) (allTypes v)
               /\ Forall (fun t => str_truthy t = true) (nestedTypes allTypes v)
               /\ Forall (fun t => str_truthy t = true) (itemTypes v)
               /\ Forall (fun t => str_truthy t = true) (graphItemTypes v)).
    { intros v Hv. unfold values in Hv. apply in_map_iff in Hv as ([k v'] & <- & Hin).
      rewrite Forall_forall in IH. apply (IH _ Hin). }
    assert (E : Forall (fun t => str_truthy t = true) (allTypes (JObj members))).
    { rewrite allTypes_obj. destruct (graphOf members) as [graph|] eqn:G.
      - apply graphOf_member in G. apply (IH' _ G).
      - apply Forall_app. split; [apply ownTypes_truthy|].
        apply Forall_flat_map, Forall_forall. intros x Hx. now apply IH'. }
    repeat split; trivial; constructor.
Qed.

Lemma record_grows (s : State) (t : jsstring) :
  incl (schemaTypes s) (schemaTypes (record s t)).
Proof. apply schemaTypes_grow_addType. Qed.

Lemma absorb_grows (types : list jsstring) (s : State) :
  incl (schemaTypes s) (schemaTypes (absorb types s)).
Proof.
  revert s. induction types as [|t r IH]; intro s; simpl.
  - apply incl_refl.
  - eapply incl_tran; [apply record_grows | apply IH].
Qed.

Lemma record_records (s : State) (t : jsstring) :
  str_truthy t = true -> In (JStr t) (schemaTypes (record s t)).
Proof.
  intro T. rewrite schemaTypes_record, T. simpl andb.
  destruct (arr_includes (JStr t) (schemaTypes s)) eqn:E; simpl.
  - unfold arr_includes in E. apply existsb_exists in E as (v & Hv & E).
    destruct v; simpl in E; try discriminate.
    apply str_eqb_eq in E. now subst.
  - apply in_or_app. right. now left.
Qed.

Lemma absorb_records (types : list jsstring) (s : State) (t : jsstring) :
  str_truthy t = true -> In t types -> In (JStr t) (schemaTypes (absorb types s)).
Proof.
  intro T. revert s.
  induction types as [|u r IH]; intros s H; simpl in *; [contradiction|].
  destruct H as [->|H].
  - apply absorb_grows, record_records, T.
  - now apply IH.
Qed.

End FirstSeen.

Section StructuredDataTheorems.

Import Schema.

Lemma single_script_state (schema : json) (s : State) :
  state_of (eachScript [Parsed schema] s) = state_of (extractSchemaTypes schema s).
Proof. reflexivity. Qed.

Lemma NoDup_map_JStr (l : list jsstring) : NoDup l -> NoDup (List.map JStr l).
Proof.
  induction 1 as [|x r Hx _ IH]; simpl; constructor; trivial.
  intro H. apply in_map_iff in H as (y & E & Hy). injection E as ->.
  contradiction.
Qed.

Lemma flat_map_ext_in {A B} (f g : A -> list B) (l : list A) :
  (forall x, In x l -> f x = g x) -> flat_map f l = flat_map g l.
Proof.
  induction l as [|x r IH]; intro H; simpl; trivial.
  rewrite (H x) by (now left). f_equal. apply IH. intros y Hy. apply H. now right.
Qed.

Lemma declaredTypes_obj (members : list (jsstring * json)) :
  declaredTypes (JObj members)
  = ownTypes (get (lit "@type") members)
    ++ flat_map declaredTypes (values members).
Proof.
  cbn [declaredTypes]. f_equal. unfold values.
  now rewrite flat_map_concat_map, flat_map_concat_map, map_map.
Qed.

(** Where no object carries a graph of its own, the traversal reads
    every type the document declares. *)
Lemma graphFree_declared (j : json) :
  graphFree j = true ->
  allTypes j = declaredTypes j /\ nestedTypes allTypes j = declaredTypes j.
Proof.
  induction j as [| b | n | t | items IH | members IH] using json_induction;
    intro F; try (split; reflexivity).
  - cbn [graphFree] in F. rewrite forallb_forall in F. rewrite Forall_forall in IH.
    split.
    + cbn [allTypes declaredTypes]. apply flat_map_ext_in.
      intros x Hx. now apply IH; auto.
    + cbn [nestedTypes declaredTypes]. apply flat_map_ext_in.
      intros x Hx. destruct (is_object x) eqn:O.
      * now apply IH; auto.
      * destruct x; try discriminate; reflexivity.
  - cbn [graphFree] in F. apply andb_true_iff in F as [G F].
    destruct (graphOf members) as [graph|] eqn:Gm; [discriminate|].
    rewrite forallb_forall in F. rewrite Forall_forall in IH.
    assert (E : allTypes (JObj members) = declaredTypes (JObj members)).
    { rewrite allTypes_obj, Gm, declaredTypes_obj. f_equal.
      apply flat_map_ext_in. intros v Hv. unfold values in Hv.
      apply in_map_iff in Hv as (kv & <- & Hkv). now apply IH; auto. }
    split; exact E.
Qed.




Lemma includes_name (t : jsstring) (l : list json) :
  arr_includes (JStr t) l = true <-> In (JStr t) l.
Proof.
  unfold arr_includes. rewrite existsb_exists. split.
  - intros (v & Hv & E). destruct v; simpl in E; try discriminate.
    apply str_eqb_eq in E. now subst.
  - intro H. exists (JStr t). split; trivial. apply str_eqb_refl.
Qed.

(** C6.  A script that fails to parse is skipped and nothing else: the
    audit returns whatever the scripts hold; its structured data is
    what the scripts that do parse give; every type name that a script
    records when it is read on its own is in [schemaTypes]; so is
    every type name that a well-typed script holds where the traversal
    reads; and so is every type name a well-typed script declares, when
    none of its objects carries a [@graph] array. *)
Theorem unparseable_scripts_are_skipped (p : Audit.Page) :
  exists r,
    Audit.analyzeSEO p = Some r
    /\ Audit.schema r
       = state_of (eachScript (filter parses (Audit.ldJsonScripts p)) init)
    /\ (forall schema t,
          In (Parsed schema) (Audit.ldJsonScripts p) ->
          In (JStr t) (schemaTypes (state_of (eachScript [Parsed schema] init))) ->
          In (JStr t) (schemaTypes (Audit.schema r)))
    /\ (forall schema t,
          In (Parsed schema) (Audit.ldJsonScripts p) ->
          wellTyped schema = true ->
          In t (allTypes schema) ->
          In (JStr t) (schemaTypes (Audit.schema r)))
    /\ (forall schema t,
          In (Parsed schema) (Audit.ldJsonScripts p) ->
          wellTyped schema = true ->
          graphFree schema = true ->
          In t (declaredTypes schema) ->
          In (JStr t) (schemaTypes (Audit.schema r))).
Proof.
  assert (Hsome : exists r, Audit.analyzeSEO p = Some r).
  { unfold Audit.analyzeSEO, structuredData.
    rewrite structuredData_normal. eauto. }
  destruct Hsome as [r Hr]. exists r. split; trivial.
  rewrite (analyzeSEO_schema p r Hr).
  assert (After : forall schema v,
             In (Parsed schema) (Audit.ldJsonScripts p) ->
             (forall s, In v (schemaTypes (state_of (extractSchemaTypes schema s)))) ->
             In v (schemaTypes
                     (state_of (eachScript (Audit.ldJsonScripts p) init)))).
  { intros schema v Hin Hv. apply in_split in Hin as (l1 & l2 & ->).
    rewrite eachScript_app.
    change (Parsed schema :: l2) with ([Parsed schema] ++ l2).
    rewrite eachScript_app. apply schemaTypes_grow.
    rewrite single_script_state. apply Hv. }
  assert (Read : forall schema t,
             In (Parsed schema) (Audit.ldJsonScripts p) ->
             wellTyped schema = true ->
             In t (allTypes schema) ->
             In (JStr t) (schemaTypes
                            (state_of (eachScript (Audit.ldJsonScripts p) init)))).
  { intros schema t Hin W Ht. apply (After schema _ Hin). intro s.
    destruct (wellTyped_traversal schema W) as [E _]. rewrite E. cbn [state_of].
    apply absorb_records; trivial.
    pose proof (allTypes_truthy_all schema) as [A _].
    rewrite Forall_forall in A. now apply A. }
  split; [now rewrite eachScript_skips|]. split; [|split].
  - intros schema t Hin Ht. apply (After schema _ Hin). intro s.
    rewrite single_script_state in Ht.
    apply includes_name. apply (script_alone_covered schema s).
    now apply includes_name.
  - exact Read.
  - intros schema t Hin W F Ht. apply (Read schema t Hin W).
    destruct (graphFree_declared schema F) as [E _]. now rewrite E.
Qed.

Lemma unparseable_scripts_are_skipped_witness :
  let scripts := [Unparseable; Parsed Samples.personScript; Unparseable;
                  NoContent; Parsed Samples.numberTypedGraph] in
  exists r,
    Audit.analyzeSEO (Samples.pageWith scripts Samples.noMarkup) = Some r
    /\ Audit.schema r
       = state_of (eachScript [Parsed Samples.personScript; NoContent;
                               Parsed Samples.numberTypedGraph] init)
    /\ In (Samples.str "Organization") (schemaTypes (Audit.schema r)).
Proof.
  destruct (unparseable_scripts_are_skipped
              (Samples.pageWith
                 [Unparseable; Parsed Samples.personScript; Unparseable;
                  NoContent; Parsed Samples.numberTypedGraph] Samples.noMarkup))
    as (r & Hr & Hs & Ha & _ & _).
  exists r. split; [exact Hr|]. split; [exact Hs|].
  apply (Ha Samples.personScript (lit "Organization")).
  - right. left. reflexivity.
  - right. left. reflexivity.
Defined.

End StructuredDataTheorems.

Section AddressProperties.

Import Schema Contact.

Lemma joinedAddress_eq (addr : list (jsstring * json)) :
  joinAll (lit ", ")
    (List.map (fun p => match p with
                        | Some v => toStringElement v
                        | None => Ret []
                        end)
       (filter truthy_opt
          [get (lit "streetAddress") addr; get (lit "addressLocality") addr;
           get (lit "addressRegion") addr; get (lit "postalCode") addr]))
  = joinedAddress addr.
Proof.
  unfold joinedAddress. f_equal. cbn [flat_map filter].
  generalize (get (lit "streetAddress") addr) (get (lit "addressLocality") addr)
    (get (lit "addressRegion") addr) (get (lit "postalCode") addr).
  intros o1 o2 o3 o4.
  destruct o1 as [v1|]; [cbn [truthy_opt]; destruct (truthy v1)|];
  (destruct o2 as [v2|]; [cbn [truthy_opt]; destruct (truthy v2)|]);
  (destruct o3 as [v3|]; [cbn [truthy_opt]; destruct (truthy v3)|]);
  (destruct o4 as [v4|]; [cbn [truthy_opt]; destruct (truthy v4)|]);
  reflexivity.
Qed.


Lemma extractAddress_candidate (obj : json) :
  obj <> JNull -> extractAddress obj = addressCandidate obj.
Proof.
  intro H. destruct obj; try reflexivity; [contradiction|].
  unfold extractAddress, addressCandidate.
  destruct (get (lit "address") members) as [address|]; [|reflexivity].
  destruct address; cbn [truthy]; try reflexivity.
  - destruct b; reflexivity.
  - destruct (negb (PrimFloat.eqb n 0 || PrimFloat.is_nan n)); reflexivity.
  - destruct s as [|c r]; [reflexivity|]. cbn [str_truthy].
    destruct (str_length (c :: r) >? 15); reflexivity.
  - destruct (truthy_opt (get (lit "streetAddress") members0)); [|reflexivity].
    now rewrite joinedAddress_eq.
Qed.

Lemma passedOver_step (member : json) (r : list json) :
  passedOver member -> graphAddress (member :: r) = graphAddress r.
Proof.
  intros [Hn Hc]. cbn [graphAddress].
  rewrite (extractAddress_candidate member Hn).
  destruct Hc as [-> | ->]; reflexivity.
Qed.

Lemma graphAddress_accepts (pre post : list json) (member : json)
    (addr : jsstring) :
  Forall passedOver pre ->
  addressCandidate member = Ret (Some addr) ->
  str_truthy addr = true ->
  graphAddress (pre ++ member :: post) = Ret (Some addr).
Proof.
  intros Hpre Hc Ht. induction Hpre as [|x r Hx _ IH]; simpl app.
  - cbn [graphAddress].
    assert (Hn : member <> JNull) by (intros ->; discriminate).
    now rewrite (extractAddress_candidate member Hn), Hc, Ht.
  - now rewrite passedOver_step.
Qed.





Lemma schemaAddress_none (ldJsonScripts : list ldScript) :
  schemaAddress ldJsonScripts = None ->
  forall el, In el ldJsonScripts -> scriptAddress el = None.
Proof.
  induction ldJsonScripts as [|x r IH]; intros H el Hin; [contradiction|].
  cbn [schemaAddress] in H. destruct (scriptAddress x) as [a|] eqn:E; [discriminate|].
  destruct Hin as [->|Hin]; auto.
Qed.





(** A number is joined in the form JavaScript prints it: a postal code
    of [1e21] makes the candidate [1 A St, 1e+21], 13 characters, which
    is not accepted. *)
Example exponent_postal_code :
  addressCandidate Samples.exponentPostalCode = Ret (Some (lit "1 A St, 1e+21"))
  /\ scriptAddress (Parsed Samples.exponentPostalCode) = None.
Proof. split; vm_compute; reflexivity. Qed.

(** A part that cannot be converted to a string ends the script. *)
Example unprintable_part_ends_script :
  addressCandidate Samples.unprintableLocality = Raise
  /\ scriptAddress (Parsed Samples.unprintableLocality) = None.
Proof. split; reflexivity. Qed.

End AddressProperties.

(* ================================================================== *)
(** ** Properties: URL, links and social links *)
(* ================================================================== *)

Section UrlAndLinks.

Import Facts.

Lemma starts_with_app (a b s : jsstring) :
  starts_with (a ++ b) s
  = starts_with a s && starts_with b (skipn (List.length a) s).
Proof.
  revert s. induction a as [|x a IH]; intro s; simpl; trivial.
  destruct s as [|y s]; simpl.
  - destruct (a ++ b); reflexivity.
  - now rewrite IH, andb_assoc.
Qed.

Lemma starts_with_prefix (p s : jsstring) : starts_with p (p ++ s) = true.
Proof.
  induction p as [|x p IH]; simpl; trivial.
  unfold codeunit_eqb. now rewrite N.eqb_refl.
Qed.

(** No string starts with both [http://] and [https://]. *)
Lemma http_excludes_https (url : jsstring) :
  starts_with (lit "http://") url && starts_with (lit "https://") url = false.
Proof.
  change (lit "http://") with (lit "http" ++ lit "://").
  change (lit "https://") with (lit "http" ++ lit "s://").
  rewrite !starts_with_app.
  destruct (starts_with (lit "http") url); cbn [andb]; trivial.
  destruct (skipn (List.length (lit "http")) url) as [|c r]; trivial.
  change (lit "://") with (58%N :: lit "//").
  change (lit "s://") with (115%N :: lit "://").
  cbn [starts_with]. unfold codeunit_eqb.
  destruct (N.eqb_spec 58 c) as [E|E]; cbn [andb]; trivial.
  subst c. cbn [N.eqb Pos.eqb andb]. apply andb_false_r.
Qed.

(** X1.  After the scheme has been supplied the URL starts with
    [http://] or [https://]; supplying it again changes nothing; and the
    page counts as served over SSL exactly when the URL given did not
    start with [http://]. *)
Theorem normalizeUrl_scheme (url : jsstring) :
  let u := normalizeUrl url in
  starts_with (lit "http://") u || starts_with (lit "https://") u = true
  /\ normalizeUrl u = u
  /\ isSSL u = negb (starts_with (lit "http://") url).
Proof.
  pose proof (http_excludes_https url) as X.
  assert (P : starts_with (lit "https://") (lit "https://" ++ url) = true)
    by apply starts_with_prefix.
  unfold normalizeUrl, isSSL.
  destruct (starts_with (lit "http://") url) eqn:A,
           (starts_with (lit "https://") url) eqn:B;
    try discriminate; cbn [negb andb];
    rewrite ?A, ?B, ?P; cbn [negb andb orb]; rewrite ?A, ?B, ?P, ?orb_true_r;
    repeat split; trivial.
Qed.

Lemma links_fold (hostname : jsstring) (hrefs : list jsstring) (c : Links.Counts) :
  let c' := fold_left (Links.link_step hostname) hrefs c in
  Links.internalLinks c'
  = Links.internalLinks c
    + Z.of_nat (List.length (filter (isInternal hostname) hrefs))
  /\ Links.externalLinks c'
     = Links.externalLinks c
       + Z.of_nat (List.length (filter (isExternal hostname) hrefs)).
Proof.
  revert c. induction hrefs as [|h r IH]; intro c; simpl.
  - lia.
  - destruct (IH (Links.link_step hostname c h)) as [Hi He].
    rewrite Hi, He. unfold Links.link_step, isExternal, isInternal.
    destruct (starts_with (lit "/") h || includes hostname h);
      [|destruct (starts_with (lit "http") h)]; simpl; lia.
Qed.

Lemma disjoint_filters_length {A} (f g : A -> bool) (l : list A) :
  (forall x, f x && g x = false) ->
  (List.length (filter f l) + List.length (filter g l) <= List.length l)%nat.
Proof.
  intro H. induction l as [|x r IH]; simpl; trivial.
  specialize (H x). destruct (f x), (g x); simpl in *; try discriminate; lia.
Qed.

(** X2.  The internal count is the number of links that are
    root-relative or mention the host, the external count the number of
    the other links that start with [http]; no link is counted twice, so
    the two counts together never exceed the total. *)
Theorem links_internal_external (hostname : jsstring) (hrefs : list jsstring) :
  let d := Links.linksData hostname hrefs in
  Links.internal d = Z.of_nat (List.length (filter (isInternal hostname) hrefs))
  /\ Links.external d = Z.of_nat (List.length (filter (isExternal hostname) hrefs))
  /\ Links.total d = Z.of_nat (List.length hrefs)
  /\ 0 <= Links.internal d
  /\ 0 <= Links.external d
  /\ Links.internal d + Links.external d <= Links.total d.
Proof.
  destruct (links_fold hostname hrefs
              {| Links.internalLinks := 0; Links.externalLinks := 0 |}) as [Hi He].
  pose proof (disjoint_filters_length (isInternal hostname) (isExternal hostname) hrefs)
    as D.
  unfold Links.linksData; cbn [Links.internal Links.external Links.total].
  cbn [Links.internalLinks Links.externalLinks] in Hi, He.
  rewrite Hi, He. repeat split; try lia.
  assert (forall x, isInternal hostname x && isExternal hostname x = false)
    by (intro x; unfold isExternal; destruct (isInternal hostname x); reflexivity).
  specialize (D H). lia.
Qed.

End UrlAndLinks.

Section SocialLinks.

Import Social.

Lemma includes_nonempty (p s : jsstring) :
  p <> [] -> includes p s = true -> str_truthy s = true.
Proof. destruct s; [destruct p; [congruence | discriminate] | reflexivity]. Qed.

Lemma keepFirst_fold (test : jsstring -> bool) (l : list jsstring) (current : jsstring) :
  (forall h, test h = true -> str_truthy h = true) ->
  fold_left (keepFirst test) l current
  = if str_truthy current then current else firstWhere test l.
Proof.
  intro T. revert current. induction l as [|h r IH]; intro current; simpl.
  - destruct current; reflexivity.
  - rewrite IH. unfold keepFirst, firstWhere. simpl.
    destruct (str_truthy current) eqn:C; simpl.
    + rewrite andb_false_r. now rewrite C.
    + rewrite andb_true_r. destruct (test h) eqn:E; simpl.
      * now rewrite (T h E).
      * now rewrite C.
Qed.

Lemma link_step_fields (l : list jsstring) (u : Urls) :
  let u' := fold_left link_step l u in
  facebookUrl u' = fold_left (keepFirst isFacebook) l (facebookUrl u)
  /\ instagramUrl u' = fold_left (keepFirst isInstagram) l (instagramUrl u)
  /\ twitterUrl u' = fold_left (keepFirst isTwitter) l (twitterUrl u)
  /\ linkedInUrl u' = fold_left (keepFirst isLinkedIn) l (linkedInUrl u)
  /\ youTubeUrl u' = fold_left (keepFirst isYouTube) l (youTubeUrl u).
Proof.
  revert u. induction l as [|h r IH]; intro u; simpl.
  - repeat split.
  - destruct (IH (link_step u h)) as (H1 & H2 & H3 & H4 & H5).
    rewrite H1, H2, H3, H4, H5.
    unfold link_step, keepFirst, isFacebook, isInstagram, isTwitter, isLinkedIn,
      isYouTube; cbn [facebookUrl instagramUrl twitterUrl linkedInUrl youTubeUrl].
    repeat split.
    destruct (includes (lit "twitter.com/") h || includes (lit "x.com/") h);
      reflexivity.
Qed.

(** X3.  Of the links of a page, the first one in document order that
    points to a network is the one kept for that network (the empty
    string when there is none); a network counts as present exactly when
    some link points to it - for Facebook also when [og:url] does. *)
Theorem first_social_link_wins (hrefs : list jsstring) (ogUrl : option jsstring) :
  let u := fold_left link_step hrefs noUrls in
  let s := social hrefs ogUrl in
  facebookUrl u = firstWhere isFacebook hrefs
  /\ instagramUrl u = firstWhere isInstagram hrefs
  /\ twitterUrl u = firstWhere isTwitter hrefs
  /\ linkedInUrl u = firstWhere isLinkedIn hrefs
  /\ youTubeUrl u = firstWhere isYouTube hrefs
  /\ hasFacebookPage s = existsb isFacebook hrefs
                          || isFacebook (Facts.or_empty ogUrl)
  /\ hasInstagram s = existsb isInstagram hrefs
  /\ hasTwitter s = existsb isTwitter hrefs
  /\ hasLinkedIn s = existsb isLinkedIn hrefs
  /\ hasYouTube s = existsb isYouTube hrefs.
Proof.
  assert (N : forall m h, m <> [] -> includes m h = true -> str_truthy h = true)
    by (intros m h; apply includes_nonempty).
  assert (Tw : forall h, isTwitter h = true -> str_truthy h = true).
  { intros h H. unfold isTwitter in H. apply orb_true_iff in H as [H|H];
      (eapply N; [|exact H]; discriminate). }
  assert (F : forall test l, (forall h, test h = true -> str_truthy h = true) ->
            (str_length (firstWhere test l) >? 0) = existsb test l).
  { intros test l T. unfold firstWhere.
    induction l as [|h r IH]; simpl; trivial.
    destruct (test h) eqn:E; simpl; trivial.
    specialize (T h E). destruct h; [discriminate|].
    apply Z.gtb_lt. unfold str_length. simpl List.length. lia. }
  destruct (link_step_fields hrefs noUrls) as (H1 & H2 & H3 & H4 & H5).
  cbn [noUrls facebookUrl instagramUrl twitterUrl linkedInUrl youTubeUrl]
    in H1, H2, H3, H4, H5.
  rewrite keepFirst_fold in H1, H2, H3, H4, H5;
    try exact Tw;
    try (intros h; unfold isFacebook, isInstagram, isLinkedIn, isYouTube;
         apply N; discriminate).
  cbn [str_truthy] in H1, H2, H3, H4, H5.
  unfold social;
    cbn [hasFacebookPage hasInstagram hasTwitter hasLinkedIn hasYouTube].
  rewrite H1, H2, H3, H4, H5.
  repeat split; try (apply F; trivial;
    intros h; unfold isFacebook, isInstagram, isLinkedIn, isYouTube;
    apply N; discriminate).
  fold (isFacebook (Facts.or_empty ogUrl)).
  assert (Ff := F isFacebook hrefs
            (fun h => N (lit "facebook.com/") h ltac:(discriminate))).
  destruct (firstWhere isFacebook hrefs) as [|c r] eqn:E.
  - cbn [str_truthy negb]. rewrite andb_true_r.
    rewrite <- Ff. cbn [orb].
    destruct (isFacebook (Facts.or_empty ogUrl)) eqn:G.
    + pose proof (N (lit "facebook.com/") _ ltac:(discriminate) G) as T.
      destruct (Facts.or_empty ogUrl); [discriminate|].
      apply Z.gtb_lt. unfold str_length. simpl List.length. lia.
    + reflexivity.
  - cbn [str_truthy negb]. rewrite andb_false_r, <- Ff. reflexivity.
Qed.

(** X4.  The social section's score (Facebook and Instagram only) never
    exceeds ten times the social points of the breakdown: 100 comes only
    with the full 10 points, and with no social points it is 0. *)
Theorem socialScore_within_points (i : Scoring.Inputs) :
  Report.socialScore (Scoring.socialLinks i) <= 10 * Scoring.socialPoints i
  /\ (Report.socialScore (Scoring.socialLinks i) = 100 ->
      Scoring.socialPoints i = 10)
  /\ (Scoring.socialPoints i = 0 ->
      Report.socialScore (Scoring.socialLinks i) = 0).
Proof.
  unfold Report.socialScore, Scoring.socialPoints, Scoring.socialLinksCount.
  destruct (hasFacebookPage (Scoring.socialLinks i)),
           (hasInstagram (Scoring.socialLinks i)),
           (hasTwitter (Scoring.socialLinks i)),
           (hasLinkedIn (Scoring.socialLinks i)),
           (hasYouTube (Scoring.socialLinks i));
    cbn; repeat split; intros; lia || discriminate.
Qed.

End SocialLinks.

(* ================================================================== *)
(** ** Properties: grade, on-page section and recommendations *)
(* ================================================================== *)

Section ReportProperties.

Import Facts Scoring Report.

(** X5.  The grade is the step of the ladder F, D-, D, D+, ..., A, A+
    that the score stands on: five points to a step from 35, F below and
    A+ from 90; so the grade never goes down when the score goes up. *)
Theorem grade_is_ladder_step (score : Z) :
  grade_of score = nth (gradeStep score) gradeLadder "F"%string
  /\ (forall score', score <= score' -> (gradeStep score <= gradeStep score')%nat).
Proof.
  split.
  - unfold grade_of, gradeStep.
    repeat match goal with
           | |- context [?a >=? ?b] =>
               let E := fresh "E" in
               destruct (Z.geb_spec a b) as [E|E]
           end;
    match goal with
    | |- _ = nth (Z.to_nat ?e) _ _ =>
        let k := fresh "k" in
        let Hk := fresh "Hk" in
        remember e as k eqn:Hk;
        assert (k = 0 \/ k = 1 \/ k = 2 \/ k = 3 \/ k = 4 \/ k = 5 \/ k = 6
                \/ k = 7 \/ k = 8 \/ k = 9 \/ k = 10 \/ k = 11 \/ k = 12) as Hc
          by (Z.to_euclidean_division_equations; lia);
        repeat (destruct Hc as [Hc|Hc]); subst k; rewrite Hc in *;
        try reflexivity; exfalso; Z.to_euclidean_division_equations; lia
    end.
  - intros score' H. unfold gradeStep.
    apply Z2Nat.inj_le; Z.to_euclidean_division_equations; lia.
Qed.

Lemma onPage_message_table :
  forallb (fun n : nat =>
             String.eqb
               (onPageMessage
                  (Num.Math_round (PrimFloat.mul (Num.div (Z.of_nat n) 45) 100)))
               (onPageMessageByPoints (Z.of_nat n)))
          (seq 0 46) = true.
Proof. vm_compute. reflexivity. Qed.

(** X6.  In points, the on-page section reads: excellent from 41 of 45,
    very good from 36, good from 32, needs improvement from 27, and
    needs significant work below. *)
Theorem onPage_message_by_points (i : Inputs) :
  onPageMessage (onPageScore (scoreBreakdown i))
  = onPageMessageByPoints (onPage (scoreBreakdown i)).
Proof.
  unfold onPageScore, scoreBreakdown; cbn [onPage].
  pose proof (onPagePoints_range i) as R.
  pose proof onPage_message_table as T. rewrite forallb_forall in T.
  specialize (T (Z.to_nat (onPagePoints i))).
  rewrite Z2Nat.id in T by lia.
  apply String.eqb_eq, T, in_seq. lia.
Qed.

Lemma pushIf_app (c : bool) (r : Recommendation) (l : list Recommendation) :
  pushIf c r l = l ++ (if c then [r] else []).
Proof. unfold pushIf. destruct c; [reflexivity | now rewrite app_nil_r]. Qed.

Lemma titleRecommendation_app (m : MetaTags) (l : list Recommendation) :
  titleRecommendation m l = l ++ titleRecommendation m [].
Proof.
  unfold titleRecommendation.
  repeat match goal with |- context [if ?b then _ else _] => destruct b end;
    now rewrite ?app_nil_r.
Qed.

Lemma descriptionRecommendation_app (m : MetaTags) (l : list Recommendation) :
  descriptionRecommendation m l = l ++ descriptionRecommendation m [].
Proof.
  unfold descriptionRecommendation.
  repeat match goal with |- context [if ?b then _ else _] => destruct b end;
    now rewrite ?app_nil_r.
Qed.

Lemma h1Recommendation_app (h : Headings) (l : list Recommendation) :
  h1Recommendation h l = l ++ h1Recommendation h [].
Proof.
  unfold h1Recommendation.
  repeat match goal with |- context [if ?b then _ else _] => destruct b end;
    now rewrite ?app_nil_r.
Qed.

(** The list as the concatenation of what each rule contributes. *)
Lemma recommendations_pieces (i : Inputs) (hasIdentitySchema : bool) :
  recommendations i hasIdentitySchema
  = (titleRecommendation (metaTags i) []
     ++ descriptionRecommendation (metaTags i) []
     ++ h1Recommendation (headings i) []
     ++ (if h2Count (headings i) <? 2
         then [rec AddHeadings OnPageSEO MediumPriority] else [])
     ++ (if (total (imagesData i) >? 0)
            && PrimFloat.ltb (altPercentage (imagesData i)) 100
         then [rec (AddAltAttributes (withoutAlt (imagesData i))
                      (PrimFloat.sub 100 (altPercentage (imagesData i))))
                 OnPageSEO MediumPriority] else [])
     ++ (if wordCount (content i) <? 300
         then [rec (IncreaseContent (wordCount (content i)))
                 OnPageSEO MediumPriority] else []))
    ++ ((if negb (hasRobotsTxt (technicalSEO i))
         then [rec CreateRobotsTxt TechnicalSEO MediumPriority] else [])
        ++ (if negb (hasSitemap (technicalSEO i))
            then [rec CreateSitemap TechnicalSEO MediumPriority] else [])
        ++ (if negb (hasAnalytics (technicalSEO i))
            then [rec ImplementAnalytics TechnicalSEO LowPriority] else [])
        ++ (if negb (hasSchema (technicalSEO i))
            then [rec AddStructuredData TechnicalSEO MediumPriority] else [])
        ++ (if negb hasIdentitySchema
            then [rec AddIdentitySchema TechnicalSEO MediumPriority] else []))
    ++ ((if negb (hasPhone (localSEO i))
         then [rec AddPhoneNumber LocalSEO MediumPriority] else [])
        ++ (if negb (hasAddress (localSEO i))
            then [rec AddAddress LocalSEO MediumPriority] else [])
        ++ (if negb (hasLocalBusinessSchema (localSEO i))
            then [rec AddLocalBusinessSchema LocalSEO LowPriority] else []))
    ++ ((if negb (Social.hasFacebookPage (socialLinks i))
         then [rec LinkFacebook SocialCategory LowPriority] else [])
        ++ (if negb (Social.hasInstagram (socialLinks i))
            then [rec LinkInstagram SocialCategory LowPriority] else [])).
Proof.
  unfold recommendations. cbv zeta.
  rewrite !pushIf_app, h1Recommendation_app, descriptionRecommendation_app.
  rewrite <- !app_assoc. reflexivity.
Qed.

Lemma flag_categories (c : bool) (r : Recommendation) :
  List.map category (if c then [r] else [])
  = repeat (category r) (if c then 1 else 0)%nat.
Proof. now destruct c. Qed.

Lemma title_categories (m : MetaTags) :
  exists n, (n <= 1)%nat
            /\ List.map category (titleRecommendation m []) = repeat OnPageSEO n.
Proof.
  unfold titleRecommendation.
  repeat match goal with |- context [if ?b then _ else _] => destruct b end;
    ((exists 1%nat; split; [lia | reflexivity])
     || (exists 0%nat; split; [lia | reflexivity])).
Qed.

Lemma description_categories (m : MetaTags) :
  exists n, (n <= 1)%nat
            /\ List.map category (descriptionRecommendation m [])
               = repeat OnPageSEO n.
Proof.
  unfold descriptionRecommendation.
  repeat match goal with |- context [if ?b then _ else _] => destruct b end;
    ((exists 1%nat; split; [lia | reflexivity])
     || (exists 0%nat; split; [lia | reflexivity])).
Qed.

Lemma h1_categories (h : Headings) :
  exists n, (n <= 1)%nat
            /\ List.map category (h1Recommendation h []) = repeat OnPageSEO n.
Proof.
  unfold h1Recommendation.
  repeat match goal with |- context [if ?b then _ else _] => destruct b end;
    ((exists 1%nat; split; [lia | reflexivity])
     || (exists 0%nat; split; [lia | reflexivity])).
Qed.

Lemma b2n_le (c : bool) : ((if c then 1 else 0) <= 1)%nat.
Proof. destruct c; lia. Qed.

(** X7.  The recommendations come grouped by category, in the order
    On-Page, Technical, Local, Social, with at most 6, 5, 3 and 2 of
    them: never more than 16 in all. *)
Theorem recommendations_grouped_by_category (i : Inputs) (hasIdentitySchema : bool) :
  exists a b c d : nat,
    List.map category (recommendations i hasIdentitySchema)
    = repeat OnPageSEO a ++ repeat TechnicalSEO b
      ++ repeat LocalSEO c ++ repeat SocialCategory d
    /\ (a <= 6 /\ b <= 5 /\ c <= 3 /\ d <= 2)%nat
    /\ List.length (recommendations i hasIdentitySchema) = (a + b + c + d)%nat.
Proof.
  destruct (title_categories (metaTags i)) as (n1 & L1 & E1).
  destruct (description_categories (metaTags i)) as (n2 & L2 & E2).
  destruct (h1_categories (headings i)) as (n3 & L3 & E3).
  assert (M : exists a b c d : nat,
             List.map category (recommendations i hasIdentitySchema)
             = repeat OnPageSEO a ++ repeat TechnicalSEO b
               ++ repeat LocalSEO c ++ repeat SocialCategory d
             /\ (a <= 6 /\ b <= 5 /\ c <= 3 /\ d <= 2)%nat).
  { rewrite recommendations_pieces, !map_app, !flag_categories, E1, E2, E3.
    cbn [category rec]. rewrite <- !repeat_app.
    eexists _, _, _, _. split; [reflexivity|].
    repeat match goal with
           | |- context [if ?b then 1%nat else 0%nat] =>
               let H := fresh in pose proof (b2n_le b) as H;
               generalize dependent (if b then 1%nat else 0%nat); intros
           end.
    lia. }
  destruct M as (a & b & c & d & E & B). exists a, b, c, d.
  repeat split; try apply B; trivial.
  rewrite <- (length_map category), E, !length_app, !repeat_length. lia.
Qed.

Lemma title_recommendation_iff (m : MetaTags) :
  titleRecommendation m [] = [] <-> titlePoints m = 12.
Proof.
  unfold titleRecommendation, titlePoints.
  destruct (hasTitle m); cbn [negb].
  - destruct (Z.ltb_spec (titleLength m) 50), (Z.gtb_spec (titleLength m) 60),
      (Z.geb_spec (titleLength m) 50), (Z.leb_spec (titleLength m) 60),
      (Z.geb_spec (titleLength m) 30), (Z.leb_spec (titleLength m) 70);
      cbn [orb andb]; try lia; split; intro; try discriminate; trivial.
  - split; discriminate.
Qed.

Lemma description_recommendation_iff (m : MetaTags) :
  descriptionRecommendation m [] = [] <-> descriptionPoints m = 8.
Proof.
  unfold descriptionRecommendation, descriptionPoints.
  destruct (hasDescription m); cbn [negb].
  - destruct (Z.ltb_spec (descriptionLength m) 120),
      (Z.gtb_spec (descriptionLength m) 160),
      (Z.geb_spec (descriptionLength m) 120), (Z.leb_spec (descriptionLength m) 160),
      (Z.geb_spec (descriptionLength m) 50), (Z.leb_spec (descriptionLength m) 200);
      cbn [orb andb]; try lia; split; intro; try discriminate; trivial.
  - split; discriminate.
Qed.


Lemma float_eqb_not_ltb (x y : float) :
  PrimFloat.eqb x y = true -> PrimFloat.ltb x y = false.
Proof.
  rewrite eqb_spec, ltb_spec. unfold SFeqb, SFltb.
  destruct (SFcompare (Prim2SF x) (Prim2SF y)) as [[]|]; congruence.
Qed.

(** X9.  With a score of 100 the only recommendations that can remain
    are the three that no scoring rule mirrors: identity schema,
    Facebook and Instagram. *)
Theorem full_score_recommendations (i : Inputs) (hasIdentitySchema : bool) :
  score i = 100 ->
  forall r, In r (recommendations i hasIdentitySchema) ->
            title r = AddIdentitySchema
            \/ title r = LinkFacebook
            \/ title r = LinkInstagram.
Proof.
  intros S r.
  pose proof (titlePoints_range (metaTags i)).
  pose proof (descriptionPoints_range (metaTags i)).
  pose proof (h1Points_range (headings i)).
  pose proof (hierarchyPoints_range (headings i)).
  pose proof (altPoints_range (imagesData i)).
  pose proof (contentPoints_range (content i)).
  pose proof (technicalPoints_range i).
  pose proof (localPoints_range i).
  pose proof (socialPoints_range i).
  unfold score, score_of, scoreBreakdown in S; cbn [onPage technical local social] in S.
  unfold onPagePoints in S.
  assert (T : titlePoints (metaTags i) = 12) by lia.
  assert (D : descriptionPoints (metaTags i) = 8) by lia.
  assert (Ph : h1Points (headings i) = 8) by lia.
  assert (Hy : hierarchyPoints (headings i) = 5) by lia.
  assert (A : altPoints (imagesData i) = 4) by lia.
  assert (C : contentPoints (content i) = 8) by lia.
  assert (Te : technicalPoints i = 30) by lia.
  assert (L : localPoints i = 15) by lia.
  rewrite recommendations_pieces.
  apply title_recommendation_iff in T. apply description_recommendation_iff in D.
  rewrite T, D. cbn [app].
  assert (E1 : h1Recommendation (headings i) [] = []).
  { unfold h1Points in Ph. unfold h1Recommendation.
    destruct (Z.eqb_spec (h1Count (headings i)) 1) as [->|]; [reflexivity|].
    destruct (h1Count (headings i) >? 1); lia. }
  assert (E2 : (h2Count (headings i) <? 2) = false).
  { unfold hierarchyPoints in Hy.
    destruct (Z.geb_spec (h2Count (headings i)) 3); cbn [andb] in Hy.
    - apply Z.ltb_ge. lia.
    - destruct (h2Count (headings i) >=? 2); lia. }
  assert (E3 : (total (imagesData i) >? 0)
               && PrimFloat.ltb (altPercentage (imagesData i)) 100 = false).
  { unfold altPoints in A.
    destruct (total (imagesData i) >? 0); [|lia]. cbn [andb].
    destruct (PrimFloat.eqb (altPercentage (imagesData i)) 100) eqn:Q.
    - now apply float_eqb_not_ltb.
    - repeat match type of A with context [if ?b then _ else _] => destruct b end;
        lia. }
  assert (E4 : (wordCount (content i) <? 300) = false).
  { unfold contentPoints in C.
    destruct (Z.geb_spec (wordCount (content i)) 1000).
    - apply Z.ltb_ge. lia.
    - repeat match type of C with context [if ?b then _ else _] => destruct b end;
        lia. }
  rewrite E1, E2, E3, E4. cbn [app].
  unfold technicalPoints, schemaPoints in Te. unfold localPoints in L.
  destruct (hasRobotsTxt (technicalSEO i)), (hasSitemap (technicalSEO i)),
    (hasAnalytics (technicalSEO i)), (hasSchema (technicalSEO i)),
    (hasSSL (technicalSEO i)), (hasJsonLd (technicalSEO i)); try lia.
  destruct (hasPhone (localSEO i)), (hasAddress (localSEO i)),
    (hasLocalBusinessSchema (localSEO i)); try lia.
  cbn [negb app].
  destruct hasIdentitySchema, (Social.hasFacebookPage (socialLinks i)),
    (Social.hasInstagram (socialLinks i)); cbn [negb app In];
    intros Hin; repeat (destruct Hin as [<-|Hin]; [cbn; tauto|]); contradiction.
Qed.

Lemma full_score_recommendations_witness :
  score Samples.fullMarks = 100
  /\ List.map title (recommendations Samples.fullMarks false)
     = [AddIdentitySchema; LinkInstagram]
  /\ forall r, In r (recommendations Samples.fullMarks false) ->
               title r = AddIdentitySchema
               \/ title r = LinkFacebook
               \/ title r = LinkInstagram.
Proof.
  split; [reflexivity|]. split; [reflexivity|].
  apply (full_score_recommendations Samples.fullMarks false). reflexivity.
Defined.

End ReportProperties.

(* ================================================================== *)
(** ** Properties: what the structured data flags stand for *)
(* ================================================================== *)

Section FlagProperties.

Import Schema.

Lemma starts_with_refl (p : jsstring) : starts_with p p = true.
Proof.
  induction p as [|x p IH]; simpl; trivial.
  unfold codeunit_eqb. now rewrite N.eqb_refl.
Qed.

Lemma includes_self (p : jsstring) : includes p p = true.
Proof. destruct p; simpl; [reflexivity | now rewrite starts_with_refl, N.eqb_refl]. Qed.

Lemma isLocalBusiness_marks (t : jsstring) :
  isLocalBusiness t = marksLocalBusiness (JStr t).
Proof.
  unfold isLocalBusiness, marksLocalBusiness.
  destruct (str_eqb t (lit "LocalBusiness")) eqn:E; [|reflexivity].
  apply str_eqb_eq in E. subst t. now rewrite includes_self.
Qed.

Lemma localInv_addType (type : json) (s : State) :
  localInv s -> localInv (state_of (addType type s)).
Proof.
  unfold localInv, addType. intro H.
  destruct (truthy type && negb (arr_includes type (schemaTypes s))); trivial.
  destruct type; cbn [state_of];
    try (cbn [push schemaTypes hasLocalBusinessSchema];
         rewrite existsb_app, H; cbn [existsb marksLocalBusiness];
         now rewrite !orb_false_r).
  - destruct (isIdentity s0), (isLocalBusiness s0) eqn:L;
      cbn [push setIdentity setLocalBusiness schemaTypes hasLocalBusinessSchema];
      rewrite existsb_app; cbn [existsb]; rewrite <- (isLocalBusiness_marks s0), L, <- H;
      now rewrite ?orb_true_r, ?orb_false_r.
  - destruct (arr_includes (JStr (lit "LocalBusiness")) items) eqn:L;
      cbn [push setLocalBusiness schemaTypes hasLocalBusinessSchema];
      rewrite existsb_app; cbn [existsb marksLocalBusiness]; rewrite L, <- H;
      now rewrite ?orb_true_r, ?orb_false_r.
Qed.

Lemma localInv_eachScript (ldJsonScripts : list ldScript) :
  localInv (state_of (eachScript ldJsonScripts init)).
Proof.
  apply (keeps_eachScript (fun s s' => localInv s -> localInv s')).
  - trivial.
  - auto.
  - intros type s. apply localInv_addType.
  - reflexivity.
Qed.

(** X10.  Whatever the scripts hold - ill-typed or unparseable ones
    included - the local-business flag is set exactly when one of the
    recorded types marks a local business: a string that contains
    [LocalBusiness] or is Restaurant, Store, MedicalBusiness or
    ProfessionalService, or an array holding the string
    [LocalBusiness]. *)
Theorem localBusiness_flag_meaning (ldJsonScripts : list ldScript) :
  let s := state_of (eachScript ldJsonScripts init) in
  hasLocalBusinessSchema s = existsb marksLocalBusiness (schemaTypes s).
Proof. apply localInv_eachScript. Qed.

(** X11.  Whatever the scripts hold, no type name is recorded twice, and
    the identity flag is set exactly when one of the recorded names is
    Organization, Person, Corporation or LocalBusiness. *)
Theorem recorded_names_are_unique (ldJsonScripts : list ldScript) :
  let s := state_of (eachScript ldJsonScripts init) in
  NoDup (typeStrings (schemaTypes s))
  /\ (hasIdentitySchema s = true
      <-> exists t, In (JStr t) (schemaTypes s) /\ isIdentity t = true).
Proof.
  destruct (identityInv_eachScript ldJsonScripts) as [Hh _ Hn].
  split; trivial. cbv zeta. rewrite Hh. unfold identityStrings.
  set (l := schemaTypes (state_of (eachScript ldJsonScripts init))).
  split.
  - intro H. destruct (filter isIdentity (typeStrings l)) as [|t r] eqn:E;
      [congruence|].
    assert (Hin : In t (filter isIdentity (typeStrings l))) by (rewrite E; now left).
    apply filter_In in Hin as [Hin I]. exists t. split; trivial.
    unfold typeStrings in Hin. apply in_flat_map in Hin as (v & Hv & Ht).
    destruct v; simpl in Ht; try contradiction. destruct Ht as [->|[]]. exact Hv.
  - intros (t & Hin & I) E.
    assert (Hf : In t (filter isIdentity (typeStrings l))).
    { apply filter_In. split; trivial. unfold typeStrings.
      apply in_flat_map. exists (JStr t). split; [exact Hin | now left]. }
    rewrite E in Hf. contradiction.
Qed.

Lemma eachScript_nil_types (ldJsonScripts : list ldScript) :
  schemaTypes (state_of (eachScript ldJsonScripts init)) <> [] ->
  (Z.of_nat (List.length ldJsonScripts) >? 0) = true.
Proof.
  destruct ldJsonScripts; [intro H; now contradiction H|].
  intros _. apply Z.gtb_lt. simpl List.length. lia.
Qed.

(** What [analyzeSEO] returns, spelled out. *)
Lemma analyzeSEO_result (p : Audit.Page) (r : Audit.Result) :
  Audit.analyzeSEO p = Some r ->
  let s := state_of (eachScript (Audit.ldJsonScripts p) init) in
  let n := Z.of_nat (List.length (schemaTypes s)) in
  Audit.schema r = s
  /\ Audit.score r = Scoring.score (Audit.inputs r)
  /\ Audit.scoreBreakdown r = Scoring.scoreBreakdown (Audit.inputs r)
  /\ Scoring.hasSchema (Scoring.technicalSEO (Audit.inputs r))
     = (n >? 0) || Audit.hasMicrodata p || Audit.hasRDFa p
  /\ Scoring.hasJsonLd (Scoring.technicalSEO (Audit.inputs r))
     = (Z.of_nat (List.length (Audit.ldJsonScripts p)) >? 0) && (n >? 0)
  /\ Scoring.hasLocalBusinessSchema (Scoring.localSEO (Audit.inputs r))
     = hasLocalBusinessSchema s.
Proof.
  unfold Audit.analyzeSEO, structuredData.
  rewrite structuredData_normal. intro H. injection H as <-.
  repeat split.
Qed.

Lemma nonempty_length {A} (l : list A) :
  l <> [] -> (Z.of_nat (List.length l) >? 0) = true.
Proof. destruct l; [congruence|]. intros _. apply Z.gtb_lt. simpl. lia. Qed.

Lemma schema_flags_need_types (p : Audit.Page) (r : Audit.Result) :
  Audit.analyzeSEO p = Some r ->
  hasIdentitySchema (Audit.schema r) = true
  \/ hasLocalBusinessSchema (Audit.schema r) = true ->
  Scoring.hasSchema (Scoring.technicalSEO (Audit.inputs r)) = true
  /\ Scoring.hasJsonLd (Scoring.technicalSEO (Audit.inputs r)) = true.
Proof.
  intros Hr F.
  destruct (analyzeSEO_result p r Hr) as (Hs & _ & Hb & H1 & H2 & _).
  assert (T : schemaTypes (state_of (eachScript (Audit.ldJsonScripts p) init)) <> []).
  { rewrite Hs in F. destruct F as [F|F].
    - destruct (identityInv_eachScript (Audit.ldJsonScripts p)) as [Hh _ _].
      apply Hh in F. intro E. rewrite E in F. now apply F.
    - rewrite (localInv_eachScript (Audit.ldJsonScripts p)) in F.
      intro E. rewrite E in F. discriminate. }
  rewrite (nonempty_length _ T) in H1, H2.
  rewrite (eachScript_nil_types _ T) in H2. cbn in H1, H2. now split.
Qed.

(** X12.  A page whose identity flag or local-business flag is set has
    valid JSON-LD in the eyes of the scoring: it gets the 12 structured
    data points, so its technical subtotal is at least 12. *)
Theorem schema_flag_implies_jsonld (p : Audit.Page) (r : Audit.Result) :
  Audit.analyzeSEO p = Some r ->
  hasIdentitySchema (Audit.schema r) = true
  \/ hasLocalBusinessSchema (Audit.schema r) = true ->
  Scoring.hasSchema (Scoring.technicalSEO (Audit.inputs r)) = true
  /\ Scoring.hasJsonLd (Scoring.technicalSEO (Audit.inputs r)) = true
  /\ Scoring.technical (Audit.scoreBreakdown r) >= 12.
Proof.
  intros Hr F.
  destruct (analyzeSEO_result p r Hr) as (_ & _ & Hb & _).
  destruct (schema_flags_need_types p r Hr F) as (H1 & H2).
  repeat split; trivial.
  rewrite Hb. unfold Scoring.scoreBreakdown; cbn [Scoring.technical].
  unfold Scoring.technicalPoints, Scoring.schemaPoints. rewrite H1, H2.
  repeat match goal with |- context [if ?b then _ else _] => destruct b end; lia.
Qed.

Lemma schema_flag_implies_jsonld_witness :
  exists r,
    Audit.analyzeSEO (Samples.pageWith [Parsed Samples.storeScript] Samples.noMarkup)
    = Some r
    /\ Scoring.hasJsonLd (Scoring.technicalSEO (Audit.inputs r)) = true
    /\ Scoring.technical (Audit.scoreBreakdown r) >= 12.
Proof.
  eexists. split; [reflexivity|].
  destruct (schema_flag_implies_jsonld
              (Samples.pageWith [Parsed Samples.storeScript] Samples.noMarkup)
              _ eq_refl) as (_ & H2 & H3).
  - right. reflexivity.
  - split; [exact H2 | exact H3].
Defined.

(** X13.  A page on which no JSON-LD type is recorded scores at most 84,
    and at most 80 when it has no microdata and no RDFa either: the
    local-business points and the JSON-LD points are out of reach. *)
Theorem score_without_jsonld (p : Audit.Page) (r : Audit.Result) :
  Audit.analyzeSEO p = Some r ->
  schemaTypes (Audit.schema r) = [] ->
  Scoring.local (Audit.scoreBreakdown r) <= 7
  /\ Scoring.technical (Audit.scoreBreakdown r) <= 22
  /\ Audit.score r <= 84
  /\ (Audit.hasMicrodata p = false -> Audit.hasRDFa p = false ->
      Scoring.technical (Audit.scoreBreakdown r) <= 18 /\ Audit.score r <= 80).
Proof.
  intros Hr E.
  destruct (analyzeSEO_result p r Hr) as (Hs & Hsc & Hb & H1 & H2 & H3).
  rewrite Hs in E.
  pose proof (localInv_eachScript (Audit.ldJsonScripts p)) as L.
  unfold localInv in L. rewrite E in L. cbn [existsb] in L.
  rewrite E in H1, H2. rewrite L in H3. cbn in H1, H2.
  rewrite andb_false_r in H2.
  pose proof (onPagePoints_range (Audit.inputs r)).
  pose proof (socialPoints_range (Audit.inputs r)).
  rewrite Hsc, Hb. unfold Scoring.score, Scoring.score_of, Scoring.scoreBreakdown;
    cbn [Scoring.onPage Scoring.technical Scoring.local Scoring.social].
  assert (Lp : Scoring.localPoints (Audit.inputs r) <= 7).
  { unfold Scoring.localPoints. rewrite H3.
    repeat match goal with |- context [if ?b then _ else _] => destruct b end; lia. }
  assert (Tp : Scoring.technicalPoints (Audit.inputs r) <= 22).
  { unfold Scoring.technicalPoints, Scoring.schemaPoints. rewrite H2.
    repeat match goal with |- context [if ?b then _ else _] => destruct b end; lia. }
  split; [lia|]. split; [lia|]. split; [lia|].
  intros Hm Hrd.
  assert (Tq : Scoring.technicalPoints (Audit.inputs r) <= 18).
  { unfold Scoring.technicalPoints, Scoring.schemaPoints.
    rewrite H1, Hm, Hrd. cbn [orb].
    repeat match goal with |- context [if ?b then _ else _] => destruct b end; lia. }
  lia.
Qed.

Lemma score_without_jsonld_witness :
  exists r,
    Audit.analyzeSEO Samples.workedExample = Some r
    /\ Audit.score r <= 84.
Proof.
  eexists. split; [reflexivity|].
  destruct (score_without_jsonld Samples.workedExample _ eq_refl) as (_ & _ & H & _).
  - reflexivity.
  - exact H.
Defined.

End FlagProperties.

(* ================================================================== *)
(** ** Properties: scripts that repeat, and the fallback sources *)
(* ================================================================== *)

Section MoreContactProperties.

Import Schema Contact.

Lemma eachScript_absorb (ldJsonScripts : list ldScript) :
  forallb scriptWellTyped ldJsonScripts = true ->
  forall s, eachScript ldJsonScripts s
            = Normal (absorb (flat_map scriptTypes ldJsonScripts) s).
Proof.
  intro W. unfold eachScript.
  apply (forEach_absorb (fun el s => tryCatch (scriptBody el s)) scriptTypes).
  rewrite forallb_forall in W. apply Forall_forall. intros el Hel s.
  specialize (W el Hel). destruct el; cbn [scriptBody scriptTypes]; try reflexivity.
  cbn [scriptWellTyped] in W.
  destruct (wellTyped_traversal schema W) as [E _]. now rewrite E.
Qed.






Lemma bodyPhoneMatches_concat (perPattern : list (list jsstring)) :
  bodyPhoneMatches perPattern = List.map bodyMatch (List.concat perPattern).
Proof.
  unfold bodyPhoneMatches.
  assert (I : forall ms acc,
             fold_left (fun pm m => pm ++ [{| source := bodyTextSource; value := m |}])
               ms acc = acc ++ List.map bodyMatch ms).
  { induction ms as [|m r IH]; intro acc; simpl.
    - now rewrite app_nil_r.
    - rewrite IH, <- app_assoc. reflexivity. }
  assert (O : forall pp acc,
             fold_left
               (fun pm ms =>
                  fold_left (fun pm m => pm ++ [{| source := bodyTextSource; value := m |}])
                    ms pm) pp acc
             = acc ++ List.map bodyMatch (List.concat pp)).
  { induction pp as [|ms r IH]; intro acc; simpl.
    - now rewrite app_nil_r.
    - rewrite IH, I, map_app, <- app_assoc. reflexivity. }
  apply (O perPattern []).
Qed.

(** X15.  When no [tel:] link is kept, the phone is the first match of
    the first pattern that matches at all, the patterns taken in their
    listed order; and there is no phone exactly when no pattern
    matches. *)
Theorem phone_pattern_precedence (perPattern : list (list jsstring))
    (telLinks : list jsstring) :
  keptTelLinks telLinks = [] ->
  validPhone perPattern telLinks = hd_error (List.concat perPattern)
  /\ (hasPhone perPattern telLinks = false <-> List.concat perPattern = [])
  /\ forall ms rest, validPhone ([] :: ms :: rest) telLinks
                     = validPhone (ms :: rest) telLinks.
Proof.
  intro K.
  assert (V : forall pp, validPhone pp telLinks = hd_error (List.concat pp)).
  { intro pp. unfold validPhone, phoneMatches.
    rewrite telLink_fold, K, bodyPhoneMatches_concat. cbn [rev List.map app].
    destruct (List.concat pp); reflexivity. }
  split; [apply V|]. split.
  - unfold hasPhone. rewrite V. destruct (List.concat perPattern); split;
      intro; trivial; discriminate.
  - intros ms rest. now rewrite !V.
Qed.

Lemma phone_pattern_precedence_witness :
  validPhone [[]; [lit "(555) 123-4567"; lit "555 987 6543"]; [lit "+44 20 7946 0958"]; []]
    [lit "Call us"]
  = Some (lit "(555) 123-4567").
Proof.
  destruct (phone_pattern_precedence
              [[]; [lit "(555) 123-4567"; lit "555 987 6543"];
               [lit "+44 20 7946 0958"]; []]
              [lit "Call us"] eq_refl) as [H _].
  rewrite H. reflexivity.
Defined.

Lemma pushAll_app (src : sourceLabel) (ms : option (list jsstring))
    (acc : list candidate) :
  pushAll src ms acc = acc ++ List.map (candidateOf src) (matchList ms).
Proof.
  destruct ms as [ms|]; cbn [pushAll matchList List.map];
    [|now rewrite app_nil_r].
  revert acc. induction ms as [|m r IH]; intro acc; simpl.
  - now rewrite app_nil_r.
  - rewrite IH, <- app_assoc. reflexivity.
Qed.

Lemma microdata_fold (els : list jsstring) (acc : list candidate) :
  fold_left microdata_step els acc
  = acc ++ List.map (candidateOf MicrodataItemprop)
             (filter addressSized (List.map addrText els)).
Proof.
  revert acc. induction els as [|e r IH]; intro acc; simpl.
  - now rewrite app_nil_r.
  - rewrite IH. unfold microdata_step, addressSized.
    destruct ((str_length (addrText e) >? 15) && (str_length (addrText e) <? 200));
      simpl; now rewrite <- ?app_assoc.
Qed.

Lemma selector_fold (sel : selector) (els : list jsstring) (acc : list candidate) :
  fold_left (selector_step sel) els acc
  = acc ++ List.map (candidateOf (CSSSelector sel))
             (filter (fun t => addressSized t && has_digit t)
                (List.map addrText els)).
Proof.
  revert acc. induction els as [|e r IH]; intro acc; simpl.
  - now rewrite app_nil_r.
  - rewrite IH. unfold selector_step, addressSized.
    destruct ((str_length (addrText e) >? 15) && (str_length (addrText e) <? 200)
              && has_digit (addrText e)); simpl; now rewrite <- ?app_assoc.
Qed.

Lemma selectors_fold (m : Markup) (sels : list selector) (acc : list candidate) :
  fold_left
    (fun acc sel => fold_left (selector_step sel) (selected m sel) acc) sels acc
  = acc ++ flat_map
             (fun sel =>
                List.map (candidateOf (CSSSelector sel))
                  (filter (fun t => addressSized t && has_digit t)
                     (List.map addrText (selected m sel)))) sels.
Proof.
  revert acc. induction sels as [|sel r IH]; intro acc; simpl.
  - now rewrite app_nil_r.
  - rewrite IH, selector_fold, <- app_assoc. reflexivity.
Qed.

Lemma addressCandidates_fallback (m : Markup) :
  addressCandidates m = fallbackCandidates m.
Proof.
  unfold addressCandidates, fallbackCandidates.
  rewrite selectors_fold, microdata_fold, !pushAll_app. cbn [app].
  now rewrite <- !app_assoc.
Qed.

(** X16.  When no script yields an address, the markup sources are tried
    in one fixed order - US street pattern, PO Box pattern, microdata,
    then the selectors in their listed order - and the first candidate
    of the first source that has one is reported, trimmed, with that
    source; there is no address exactly when none has a candidate. *)
Theorem address_fallback_order (ldJsonScripts : list ldScript) (m : Markup) :
  (forall el, In el ldJsonScripts -> scriptAddress el = None) ->
  let a := detectAddress ldJsonScripts m in
  addressText a = option_map (fun c => trim (text c)) (hd_error (fallbackCandidates m))
  /\ addressSource a = option_map cand_source (hd_error (fallbackCandidates m))
  /\ (hasAddress a = false <-> fallbackCandidates m = []).
Proof.
  intro N.
  assert (E : schemaAddress ldJsonScripts = None).
  { induction ldJsonScripts as [|el r IH]; [reflexivity|].
    cbn [schemaAddress]. rewrite (N el) by now left.
    apply IH. intros e He. apply N. now right. }
  unfold detectAddress. rewrite E, addressCandidates_fallback.
  destruct (fallbackCandidates m); cbn; repeat split; trivial; discriminate.
Qed.

Lemma address_fallback_order_witness :
  let m := {| usMatches := None;
              poBoxMatches := Some [lit "PO Box 12, Salem, OR 97301"];
              microdataElements := [lit "  9 Mill Lane,   Leeds LS1 4AB  "];
              selected := fun _ => [] |} in
  let a := detectAddress [Unparseable; Parsed Samples.businessInArray] m in
  addressText a = Some (lit "PO Box 12, Salem, OR 97301")
  /\ addressSource a = Some POBoxPattern.
Proof.
  destruct (address_fallback_order [Unparseable; Parsed Samples.businessInArray]
              {| usMatches := None;
                 poBoxMatches := Some [lit "PO Box 12, Salem, OR 97301"];
                 microdataElements := [lit "  9 Mill Lane,   Leeds LS1 4AB  "];
                 selected := fun _ => [] |}) as (H1 & H2 & _).
  - intros el [<-|[<-|[]]]; reflexivity.
  - split; [rewrite H1 | rewrite H2]; reflexivity.
Defined.

(** X17.  In a graph, the first member that yields a non-empty candidate
    settles the script: when that candidate has 15 characters or fewer,
    the script gives no address, whatever the members after it hold. *)
Theorem short_graph_candidate_settles
    (members : list (jsstring * json)) (pre post : list json)
    (member : json) (addr : jsstring) :
  get (lit "@graph") members = Some (JArr (pre ++ member :: post)) ->
  Forall passedOver pre ->
  addressCandidate member = Ret (Some addr) ->
  addr <> [] ->
  str_length addr <= 15 ->
  scriptAddress (Parsed (JObj members)) = None.
Proof.
  intros G Hp C Hn L.
  assert (T : str_truthy addr = true) by (destruct addr; [congruence | reflexivity]).
  unfold scriptAddress, scriptAddr. rewrite G. cbn [truthy].
  rewrite (graphAddress_accepts pre post member addr Hp C T), T. cbn [andb].
  assert (E : (str_length addr >? 15) = false)
    by (rewrite Z.gtb_ltb; apply Z.ltb_ge; lia).
  now rewrite E.
Qed.

Lemma short_graph_candidate_settles_witness :
  scriptAddress (Parsed Samples.shortThenLongGraph) = None
  /\ addressCandidate
       (JObj [(lit "address", JStr (lit "123 Main Street, Springfield, IL 62701"))])
     = Ret (Some (lit "123 Main Street, Springfield, IL 62701")).
Proof.
  split; [|reflexivity].
  apply (short_graph_candidate_settles
           [(lit "@graph",
             JArr [JObj [(lit "address",
                          JObj [(lit "streetAddress", JStr (lit "1 A St"))])];
                   JObj [(lit "address",
                          JStr (lit "123 Main Street, Springfield, IL 62701"))]])]
           []
           [JObj [(lit "address",
                   JStr (lit "123 Main Street, Springfield, IL 62701"))]]
           (JObj [(lit "address",
                   JObj [(lit "streetAddress", JStr (lit "1 A St"))])])
           (lit "1 A St")).
  - reflexivity.
  - constructor.
  - reflexivity.
  - discriminate.
  - vm_compute. discriminate.
Defined.

End MoreContactProperties.

(* ================================================================== *)
(** ** Properties: the body text and its words *)
(* ================================================================== *)

Section TidyText.

Import Facts.

Lemma collapse_from_shape (b : bool) (s : jsstring) :
  no_double_white (collapse_from b s) = true
  /\ only_spaces (collapse_from b s) = true
  /\ (b = true -> starts_visible (collapse_from b s) = true).
Proof.
  revert b. induction s as [|c r IH]; intro b; simpl.
  - repeat split.
  - destruct (is_white_space c) eqn:W.
    + destruct b.
      * apply IH.
      * destruct (IH true) as (N & O & S). specialize (S eq_refl).
        repeat split; try discriminate.
        -- cbn [no_double_white]. rewrite N, andb_true_r.
           destruct (collapse_from true r) as [|d r']; trivial.
        -- cbn [only_spaces forallb]. fold (only_spaces (collapse_from true r)).
           rewrite O. now rewrite orb_true_r.
    + destruct (IH false) as (N & O & _).
      repeat split.
      * cbn [no_double_white]. rewrite N, W, andb_true_r.
        destruct (collapse_from false r); reflexivity.
      * cbn [only_spaces forallb]. fold (only_spaces (collapse_from false r)).
        unfold visible at 1. now rewrite W, O.
      * intros _. cbn [starts_visible]. unfold visible. now rewrite W.
Qed.

Lemma no_double_white_tail (c : codeunit) (r : jsstring) :
  no_double_white (c :: r) = true -> no_double_white r = true.
Proof. cbn [no_double_white]. intro H. now apply andb_true_iff in H. Qed.

Lemma no_double_white_prefix (p q : jsstring) :
  no_double_white (p ++ q) = true -> no_double_white p = true.
Proof.
  induction p as [|c p IH]; intro H; trivial.
  simpl app in H. pose proof (no_double_white_tail _ _ H) as T.
  cbn [no_double_white] in *. rewrite (IH T), andb_true_r.
  apply andb_true_iff in H as [H _].
  destruct p as [|d p]; trivial.
Qed.

Lemma drop_white_shape (s : jsstring) :
  no_double_white s = true -> no_double_white (drop_white s) = true.
Proof.
  induction s as [|c r IH]; intro H; trivial.
  cbn [drop_white]. destruct (is_white_space c); trivial.
  apply IH. now apply no_double_white_tail in H.
Qed.

Lemma drop_white_spaces (s : jsstring) :
  only_spaces s = true -> only_spaces (drop_white s) = true.
Proof.
  unfold only_spaces. induction s as [|c r IH]; intro H; trivial.
  cbn [drop_white]. destruct (is_white_space c); trivial.
  apply IH. cbn [forallb] in H. now apply andb_true_iff in H.
Qed.

(** What [drop_white] removes is white space. *)
Lemma drop_white_split (s : jsstring) :
  exists a, s = a ++ drop_white s /\ forallb is_white_space a = true.
Proof.
  induction s as [|c r (a & E & A)]; [exists []; split; reflexivity|].
  cbn [drop_white]. destruct (is_white_space c) eqn:W.
  - exists (c :: a). split; [simpl; now rewrite <- E | simpl; now rewrite W].
  - exists []. split; reflexivity.
Qed.

Lemma no_trailing_white_snoc (l : jsstring) (x : codeunit) :
  no_trailing_white (l ++ [x]) = visible x.
Proof.
  induction l as [|c l IH]; trivial.
  simpl app. cbn [no_trailing_white].
  destruct (l ++ [x]) eqn:E; [destruct l; discriminate | exact IH].
Qed.

Lemma no_trailing_white_rev (d : jsstring) :
  no_trailing_white (rev d) = starts_visible d.
Proof. destruct d; [reflexivity | simpl; apply no_trailing_white_snoc]. Qed.

Lemma starts_visible_drop (s : jsstring) : starts_visible (drop_white s) = true.
Proof.
  pose proof (drop_white_head s) as H.
  destruct (drop_white s); trivial. cbn. unfold visible. now rewrite H.
Qed.

Lemma starts_visible_prefix (p q : jsstring) :
  starts_visible (p ++ q) = true -> starts_visible p = true.
Proof. destruct p; trivial. Qed.

Lemma only_spaces_rev (s : jsstring) : only_spaces (rev s) = only_spaces s.
Proof.
  unfold only_spaces. induction s as [|c r IH]; trivial.
  simpl. rewrite forallb_app, IH. simpl. rewrite andb_true_r. apply andb_comm.
Qed.

(** Trimming keeps a text free of doubled white space and leaves it with
    visible ends. *)
Lemma trim_shape (s : jsstring) :
  (no_double_white s = true -> no_double_white (trim s) = true)
  /\ (only_spaces s = true -> only_spaces (trim s) = true)
  /\ starts_visible (trim s) = true
  /\ no_trailing_white (trim s) = true.
Proof.
  unfold trim.
  destruct (drop_white_split (rev (drop_white s))) as (a & E & A).
  set (d := drop_white (rev (drop_white s))) in *.
  assert (P : drop_white s = rev d ++ rev a).
  { rewrite <- (rev_involutive (drop_white s)), E, rev_app_distr. reflexivity. }
  repeat split.
  - intro H. apply drop_white_shape in H. rewrite P in H.
    now apply no_double_white_prefix in H.
  - intro H. rewrite only_spaces_rev. unfold d.
    apply drop_white_spaces. rewrite only_spaces_rev. now apply drop_white_spaces.
  - pose proof (starts_visible_drop s) as H. rewrite P in H.
    now apply starts_visible_prefix in H.
  - rewrite no_trailing_white_rev. apply starts_visible_drop.
Qed.

Lemma bodyText_tidy_true (body : jsstring) : tidy (bodyText body) = true.
Proof.
  unfold tidy, bodyText, collapse_white.
  destruct (collapse_from_shape false body) as (N & O & _).
  destruct (trim_shape (collapse_from false body)) as (T1 & T2 & T3 & T4).
  now rewrite (T1 N), (T2 O), T3, T4.
Qed.

Lemma tidy_parts (s : jsstring) :
  tidy s = true ->
  no_double_white s = true /\ no_trailing_white s = true
  /\ starts_visible s = true /\ only_spaces s = true.
Proof.
  unfold tidy. intro H.
  apply andb_true_iff in H as [H O]. apply andb_true_iff in H as [H S].
  apply andb_true_iff in H as [N T]. auto.
Qed.

Lemma collapse_tidy (b : bool) (s : jsstring) :
  no_double_white s = true -> no_trailing_white s = true ->
  only_spaces s = true -> (b = true -> starts_visible s = true) ->
  collapse_from b s = s.
Proof.
  revert b. induction s as [|c r IH]; intros b N T O S; trivial.
  cbn [collapse_from].
  pose proof (no_double_white_tail _ _ N) as N'.
  assert (O' : only_spaces r = true)
    by (unfold only_spaces in *; cbn [forallb] in O; now apply andb_true_iff in O).
  destruct (is_white_space c) eqn:W.
  - destruct b.
    + specialize (S eq_refl). cbn in S. unfold visible in S. rewrite W in S. discriminate.
    + unfold only_spaces in O. cbn [forallb] in O. apply andb_true_iff in O as [O _].
      unfold visible in O. rewrite W in O. cbn in O. apply N.eqb_eq in O. subst c.
      f_equal. destruct r as [|d r'].
      * cbn in T. discriminate.
      * apply IH; trivial. intros _.
        cbn [no_double_white] in N. apply andb_true_iff in N as [N _].
        rewrite W in N. cbn [andb] in N. cbn. unfold visible. exact N.
  - f_equal. destruct r as [|d r']; [reflexivity|].
    apply IH; trivial. discriminate.
Qed.

Lemma drop_white_visible_head (s : jsstring) :
  starts_visible s = true -> drop_white s = s.
Proof.
  destruct s as [|c r]; trivial. cbn. unfold visible.
  intro H. apply negb_true_iff in H. now rewrite H.
Qed.

Lemma trim_tidy (s : jsstring) :
  starts_visible s = true -> no_trailing_white s = true -> trim s = s.
Proof.
  intros S T. unfold trim. rewrite (drop_white_visible_head s S).
  rewrite drop_white_visible_head, rev_involutive; trivial.
  rewrite <- (rev_involutive s) in T. now rewrite no_trailing_white_rev in T.
Qed.

(** X18.  The body text is tidy - no white space at either end, never
    two white-space characters in a row, and no white space but the
    space - and computing it again from itself gives it back. *)
Theorem bodyText_is_tidy (body : jsstring) :
  tidy (bodyText body) = true
  /\ bodyText (bodyText body) = bodyText body.
Proof.
  pose proof (bodyText_tidy_true body) as H. split; trivial.
  destruct (tidy_parts _ H) as (N & T & S & O).
  unfold bodyText at 1. unfold collapse_white.
  rewrite (collapse_tidy false (bodyText body) N T O) by discriminate.
  now apply trim_tidy.
Qed.

Lemma join_cons (sep p : jsstring) (rest : list jsstring) :
  rest <> [] -> Contact.join sep (p :: rest) = p ++ sep ++ Contact.join sep rest.
Proof. destruct rest; [congruence | reflexivity]. Qed.

Lemma split_from_nonempty (b : bool) (tok s : jsstring) : split_from b tok s <> [].
Proof.
  pose proof (split_from_length b tok s) as H.
  destruct (split_from b tok s); [simpl in H; lia | discriminate].
Qed.

Lemma split_from_visible_head (tok s : jsstring) :
  s <> [] -> starts_visible s = true ->
  split_from true tok s = split_from false tok s.
Proof.
  destruct s as [|c r]; [congruence|]. intros _ H. cbn in H. unfold visible in H.
  apply negb_true_iff in H. cbn [split_from]. now rewrite H.
Qed.

(** After a space in a tidy text comes a visible character. *)
Lemma after_white (c : codeunit) (r : jsstring) :
  is_white_space c = true ->
  no_double_white (c :: r) = true -> no_trailing_white (c :: r) = true ->
  r <> [] /\ starts_visible r = true.
Proof.
  intros W N T. destruct r as [|d r'].
  - cbn in T. unfold visible in T. rewrite W in T. discriminate.
  - split; [discriminate|]. cbn [no_double_white] in N.
    apply andb_true_iff in N as [N _]. rewrite W in N. cbn [andb] in N.
    exact N.
Qed.

Lemma no_trailing_white_tail (c : codeunit) (r : jsstring) :
  r <> [] -> no_trailing_white (c :: r) = true -> no_trailing_white r = true.
Proof. destruct r; [congruence | trivial]. Qed.

Lemma forallb_rev {A} (f : A -> bool) (l : list A) :
  forallb f (rev l) = forallb f l.
Proof.
  induction l as [|x r IH]; trivial.
  simpl. rewrite forallb_app, IH. simpl. rewrite andb_true_r. apply andb_comm.
Qed.

Lemma split_tidy (s tok : jsstring) :
  no_double_white s = true -> no_trailing_white s = true ->
  only_spaces s = true ->
  Contact.join (lit " ") (split_from false tok s) = rev tok ++ s
  /\ Z.of_nat (List.length (split_from false tok s))
     = 1 + Z.of_nat (List.length (filter is_white_space s))
  /\ (forallb visible tok = true ->
      Forall (fun w => forallb visible w = true) (split_from false tok s))
  /\ (tok <> [] \/ (s <> [] /\ starts_visible s = true) ->
      Forall (fun w => w <> []) (split_from false tok s)).
Proof.
  revert tok. induction s as [|c r IH]; intros tok N T O.
  - cbn [split_from Contact.join List.length filter]. rewrite app_nil_r.
    repeat split.
    + intro V. constructor; [|constructor]. now rewrite forallb_rev.
    + intros [H|[H _]]; [|congruence]. constructor; [|constructor].
      intro E. apply H. rewrite <- (rev_involutive tok), E. reflexivity.
  - pose proof (no_double_white_tail _ _ N) as N'.
    assert (O' : only_spaces r = true)
      by (unfold only_spaces in *; cbn [forallb] in O; now apply andb_true_iff in O).
    cbn [split_from filter]. destruct (is_white_space c) eqn:W.
    + destruct (after_white c r W N T) as [Rn Rs].
      pose proof (no_trailing_white_tail c r Rn T) as T'.
      rewrite (split_from_visible_head [] r Rn Rs).
      destruct (IH [] N' T' O') as (J & L & V & E).
      assert (C : c = 32%N).
      { unfold only_spaces in O. cbn [forallb] in O. apply andb_true_iff in O as [O _].
        unfold visible in O. rewrite W in O. cbn in O. now apply N.eqb_eq in O. }
      repeat split.
      * rewrite join_cons by apply split_from_nonempty. rewrite J. subst c. reflexivity.
      * cbn [List.length]. lia.
      * intro Vt. constructor; [now rewrite forallb_rev | now apply V].
      * intros [H|[_ H]].
        -- constructor.
           ++ intro E0. apply H. rewrite <- (rev_involutive tok), E0. reflexivity.
           ++ apply E. right. now split.
        -- exfalso. cbn in H. unfold visible in H. rewrite W in H. discriminate.
    + assert (T' : no_trailing_white r = true)
        by (destruct r; [reflexivity | exact T]).
      destruct (IH (c :: tok) N' T' O') as (J & L & V & E).
      repeat split.
      * rewrite J. simpl. now rewrite <- app_assoc.
      * exact L.
      * intro Vt. apply V. cbn [forallb]. unfold visible at 1. now rewrite W, Vt.
      * intros _. apply E. left. discriminate.
Qed.

(** X19.  The words of the body text give it back when they are joined
    by single spaces; there is one word more than there are spaces; and
    unless the body text is empty every word is non-empty and free of
    white space. *)
Theorem bodyText_words (body : jsstring) :
  let t := bodyText body in
  Contact.join (lit " ") (split_white t) = t
  /\ wordCount (content body) = 1 + Z.of_nat (List.length (filter is_white_space t))
  /\ (t <> [] ->
      Forall (fun w => w <> [] /\ forallb visible w = true) (split_white t)).
Proof.
  intro t. destruct (tidy_parts _ (bodyText_tidy_true body)) as (N & T & S & O).
  fold t in N, T, S, O.
  destruct (split_tidy t [] N T O) as (J & L & V & E).
  unfold split_white, content, wordCount_of; cbn [wordCount]. fold t.
  repeat split; trivial.
  intro Ht. specialize (V eq_refl).
  assert (E' : Forall (fun w => w <> []) (split_from false [] t))
    by (apply E; right; now split).
  rewrite Forall_forall in *. intros w Hw. split; auto.
Qed.

(** X20.  The word count and the text length bound each other: there is
    at least one word, a non-empty text of [n] words has at least
    [2n - 1] characters, and the text is never longer than the raw body
    text. *)
Theorem content_bounds (body : jsstring) :
  let c := content body in
  1 <= wordCount c
  /\ (bodyText body <> [] -> 2 * wordCount c - 1 <= textLength c)
  /\ textLength c <= str_length body.
Proof.
  cbv zeta. unfold content; cbn [wordCount textLength].
  split; [apply wordCount_of_positive|]. split.
  - intro Hn.
    destruct (tidy_parts _ (bodyText_tidy_true body)) as (N & T & S & O).
    destruct (split_tidy (bodyText body) [] N T O) as (J & L & V & E).
    assert (E' : Forall (fun w => w <> []) (split_from false [] (bodyText body)))
      by (apply E; right; now split).
    unfold wordCount_of, split_white, str_length.
    cbn [rev app] in J. rewrite <- J at 2.
    generalize E'. generalize (split_from_nonempty false [] (bodyText body)).
    generalize (split_from false [] (bodyText body)) as ws. clear.
    induction ws as [|w r IH]; [congruence|]. intros _ F.
    inversion F as [|? ? Hw Hr]; subst.
    destruct r as [|w' r'].
    + cbn [Contact.join List.length]. destruct w; [congruence | cbn [List.length]; lia].
    + rewrite join_cons by discriminate. rewrite !length_app.
      specialize (IH ltac:(discriminate) Hr).
      change (List.length (lit " ")) with 1%nat.
      destruct w; [congruence|]. cbn [List.length] in *. lia.
  - unfold bodyText, collapse_white, str_length.
    assert (D : forall s, (List.length (drop_white s) <= List.length s)%nat).
    { induction s as [|c r IH]; simpl; trivial.
      destruct (is_white_space c); simpl; lia. }
    assert (Tm : forall s, (List.length (trim s) <= List.length s)%nat).
    { intro s. unfold trim. rewrite length_rev.
      etransitivity; [apply D|]. rewrite length_rev. apply D. }
    assert (C : forall b s, (List.length (collapse_from b s) <= List.length s)%nat).
    { intros b s. revert b. induction s as [|c r IH]; intro b; simpl; trivial.
      pose proof (IH true). pose proof (IH false).
      destruct (is_white_space c); [destruct b|]; simpl; lia. }
    specialize (Tm (collapse_from false body)). specialize (C false body). lia.
Qed.

Lemma content_bounds_witness :
  2 * wordCount (content (lit " opening   hours ")) - 1
  <= textLength (content (lit " opening   hours ")).
Proof.
  apply (proj1 (proj2 (content_bounds (lit " opening   hours ")))).
  vm_compute. discriminate.
Defined.

End TidyText.

(* ================================================================== *)
(** ** Properties: the rendering ratio *)
(* ================================================================== *)

Section RenderingRatio.

Import Facts.

Lemma filter_visible_collapse (b : bool) (s : jsstring) :
  filter visible (collapse_from b s) = filter visible s.
Proof.
  revert b. induction s as [|c r IH]; intro b; trivial.
  cbn [collapse_from filter]. unfold visible at 2.
  destruct (is_white_space c) eqn:W; cbn [negb].
  - destruct b; [apply IH|]. cbn [filter]. apply IH.
  - cbn [filter]. unfold visible at 1. rewrite W. cbn [negb]. now rewrite IH.
Qed.

Lemma filter_visible_drop (s : jsstring) :
  filter visible (drop_white s) = filter visible s.
Proof.
  induction s as [|c r IH]; trivial.
  cbn [drop_white]. destruct (is_white_space c) eqn:W; trivial.
  cbn [filter]. unfold visible at 2. now rewrite W.
Qed.

Lemma filter_visible_trim (s : jsstring) :
  filter visible (trim s) = filter visible s.
Proof.
  unfold trim.
  now rewrite filter_rev, filter_visible_drop, filter_rev, rev_involutive,
    filter_visible_drop.
Qed.

Lemma wordStarts_collapse (s : jsstring) :
  wordStarts true (collapse_from true s) = wordStarts true s
  /\ (forall b, wordStarts b (collapse_from false s) = wordStarts b s).
Proof.
  induction s as [|c r [IHt IHf]]; [split; trivial|].
  cbn [collapse_from]. destruct (is_white_space c) eqn:W.
  - split.
    + cbn [wordStarts]. now rewrite W.
    + intro b. cbn [wordStarts]. rewrite W.
      change (is_white_space 32%N) with true. cbn iota. exact IHt.
  - split; [|intro b]; cbn [wordStarts]; rewrite W; now rewrite IHf.
Qed.

Lemma wordStarts_drop (s : jsstring) :
  wordStarts true (drop_white s) = wordStarts true s.
Proof.
  induction s as [|c r IH]; trivial.
  cbn [drop_white wordStarts]. destruct (is_white_space c) eqn:W; trivial.
  cbn [wordStarts]. now rewrite W.
Qed.

Lemma wordStarts_white_suffix (b : bool) (u a : jsstring) :
  forallb is_white_space a = true -> wordStarts b (u ++ a) = wordStarts b u.
Proof.
  intro A. revert b. induction u as [|c r IH]; intro b.
  - cbn [app]. revert b.
    induction a as [|c r IH]; intro b; trivial.
    cbn [forallb] in A. apply andb_true_iff in A as [W A].
    cbn [wordStarts]. rewrite W. now apply IH.
  - cbn [app wordStarts]. destruct (is_white_space c); now rewrite IH.
Qed.

Lemma wordStarts_trim (s : jsstring) :
  wordStarts true (trim s) = wordStarts true s.
Proof.
  rewrite <- (wordStarts_drop s). unfold trim.
  destruct (drop_white_split (rev (drop_white s))) as (a & E & A).
  set (d := drop_white (rev (drop_white s))) in *.
  assert (P : drop_white s = rev d ++ rev a).
  { rewrite <- (rev_involutive (drop_white s)), E, rev_app_distr. reflexivity. }
  rewrite P. symmetry. apply wordStarts_white_suffix.
  now rewrite forallb_rev.
Qed.

(** In a tidy text every space opens a word. *)
Lemma wordStarts_tidy (t : jsstring) :
  no_double_white t = true -> no_trailing_white t = true ->
  wordStarts false t = List.length (filter is_white_space t)
  /\ (t <> [] -> starts_visible t = true ->
      wordStarts true t = S (List.length (filter is_white_space t))).
Proof.
  induction t as [|c r IH]; intros N T; [split; [trivial | congruence]|].
  assert (Nr : no_double_white r = true) by (now apply no_double_white_tail in N).
  cbn [wordStarts filter]. destruct (is_white_space c) eqn:W.
  - destruct (after_white c r W N T) as [Hr Sr].
    assert (Tr : no_trailing_white r = true)
      by (now apply (no_trailing_white_tail c r Hr)).
    destruct (IH Nr Tr) as [_ I]. split.
    + cbn [List.length]. now apply I.
    + intros _ Sv. cbn in Sv. unfold visible in Sv. rewrite W in Sv. discriminate.
  - assert (I : wordStarts false r = List.length (filter is_white_space r)).
    { destruct r as [|d r']; trivial.
      apply IH; trivial. }
    split; [|intros _ _]; now rewrite I.
Qed.

(** The text content is as long as the words of the body and the single
    spaces between them. *)
Lemma textContent_length (body : jsstring) :
  str_length (textContent body) = visibleLength body.
Proof.
  change (textContent body) with (bodyText body).
  destruct (tidy_parts _ (bodyText_tidy_true body)) as (N & T & Sv & _).
  assert (V : filter visible (bodyText body) = filter visible body).
  { unfold bodyText, collapse_white.
    now rewrite filter_visible_trim, filter_visible_collapse. }
  assert (W : wordStarts true (bodyText body) = wordStarts true body).
  { unfold bodyText, collapse_white. rewrite wordStarts_trim.
    apply wordStarts_collapse. }
  assert (L : (List.length (bodyText body)
               = List.length (filter visible (bodyText body))
                 + List.length (filter is_white_space (bodyText body)))%nat).
  { rewrite <- (filter_split_length visible (bodyText body)) at 1. f_equal.
    f_equal. apply filter_ext. intro c. unfold visible. apply negb_involutive. }
  unfold visibleLength, str_length. rewrite <- V, <- W.
  destruct (bodyText body) as [|c r] eqn:E; [reflexivity|].
  destruct (wordStarts_tidy (c :: r) N T) as [_ I].
  rewrite I in * by (trivial; discriminate). rewrite L.
  cbn in Sv. cbn [filter]. rewrite Sv. cbn [List.length].
  destruct (Z.of_nat (S (List.length (filter visible r))) =? 0) eqn:Z0;
    [apply Z.eqb_eq in Z0; lia | lia].
Qed.

Lemma of_int_toFloat (z : Z) : 0 <= z < 2 ^ 63 -> Num.of_int z = toFloat z.
Proof.
  intro H. unfold Num.of_int, toFloat.
  rewrite <- (SF2Prim_Prim2SF (of_uint63 (Uint63.of_Z z))), of_uint63_spec,
    Uint63.of_Z_spec.
  rewrite Z.mod_small; trivial.
Qed.

Lemma Math_round_Rounded (x : float) : Rounded x (Num.Math_round x).
Proof.
  unfold Num.Math_round. destruct (Prim2SF x) as [s|s| |s m e] eqn:E;
    try (apply RoundedOther; [intros; congruence | reflexivity]).
  destruct (0 <=? e) eqn:G.
  - apply (@RoundedWhole x x s m e E); [now apply Z.leb_le | reflexivity].
  - apply Z.leb_gt in G.
    set (d := 2 ^ (- e)). set (v := if s then Z.neg m else Z.pos m).
    assert (D : 0 < d) by (apply Z.pow_pos_nonneg; lia).
    pose proof (Z.div_mod v d ltac:(lia)) as Q.
    pose proof (Z.mod_pos_bound v d D) as B.
    apply (@RoundedFraction x _ s m e
             (if d <=? 2 * (v mod d) then v / d + 1 else v / d) E G);
      [|reflexivity].
    fold d. change (signed s m) with v.
    destruct (d <=? 2 * (v mod d)) eqn:T;
      [apply Z.leb_le in T | apply Z.leb_gt in T]; nia.
Qed.

(** Over a zero divisor the quotient is never a finite number, whatever
    the text length: the value the guard keeps out is [NaN] or
    infinite. *)
Lemma quotient_by_zero_not_finite (textSize : Z) :
  match Prim2SF (Num.div textSize 0) with
  | S754_nan | S754_infinity _ => True
  | _ => False
  end.
Proof.
  unfold Num.div. rewrite div_spec.
  change (Prim2SF (Num.of_int 0)) with (S754_zero false).
  now destruct (Prim2SF (Num.of_int textSize)).
Qed.

(** C9.  The rendering ratio is computed without ever dividing by zero.
    For an empty document it is 0.  Otherwise it is the text length -
    the visible characters of the body and one space between its words
    - divided by the HTML length and multiplied by 100 as binary64
    arithmetic has it, rounded to the nearest integer, a half going
    up. *)
Theorem renderingPercentage_guarded (html body : jsstring) :
  let htmlSize := str_length html in
  let textSize := visibleLength body in
  exists r,
    renderingPercentage html body = Some r
    /\ (htmlSize = 0 -> r = 0%float)
    /\ (0 < htmlSize < 2 ^ 63 -> textSize < 2 ^ 63 ->
        Rounded (PrimFloat.mul
                   (PrimFloat.div (toFloat textSize) (toFloat htmlSize)) 100) r).
Proof.
  intros htmlSize textSize.
  unfold renderingPercentage, renderingPercentage_of, Num.div_checked.
  rewrite textContent_length. fold htmlSize textSize.
  assert (T0 : 0 <= textSize)
    by (unfold textSize; rewrite <- textContent_length; unfold str_length; lia).
  destruct (htmlSize >? 0) eqn:G.
  - apply Z.gtb_lt in G.
    assert (E : (htmlSize =? 0) = false) by (apply Z.eqb_neq; lia).
    rewrite E. eexists. split; [reflexivity|]. split; [lia|].
    intros H Ht. unfold Num.div.
    rewrite (of_int_toFloat textSize), (of_int_toFloat htmlSize) by lia.
    apply Math_round_Rounded.
  - exists 0%float. split; [reflexivity|]. split; [trivial|].
    intro H. rewrite Z.gtb_ltb in G. apply Z.ltb_ge in G. lia.
Qed.

End RenderingRatio.


(* ================================================================== *)
(** ** Properties: recommendations against the score, markup addresses,
       and script order *)
(* ================================================================== *)

Section CrossProperties.

Import Facts Schema Contact Scoring Report.

Lemma flag_piece_nil (c : bool) (r : Recommendation) :
  (if c then [r] else []) = [] -> c = false.
Proof. destruct c; [discriminate | reflexivity]. Qed.

Lemma analyzeSEO_inputs (p : Audit.Page) (r : Audit.Result) :
  Audit.analyzeSEO p = Some r ->
  Scoring.headings (Audit.inputs r)
  = Facts.headings (Audit.h1Elements p) (Audit.h2 p) (Audit.h3 p) (Audit.h4 p)
      (Audit.h5 p) (Audit.h6 p)
  /\ Scoring.imagesData (Audit.inputs r) = Facts.imagesData (Audit.images p).
Proof.
  unfold Audit.analyzeSEO, structuredData.
  rewrite structuredData_normal. intro H. injection H as <-. split; reflexivity.
Qed.

(** X21.  A page for which nothing is recommended has not lost all its
    points to a recommendation: its local and social subtotals are full
    and its technical subtotal is at least 25, but its score is only
    known to be at least 74 - the H1, heading, content and SSL rules, and
    the image rule, take points without a recommendation. *)
Theorem no_recommendation_score (p : Audit.Page) (r : Audit.Result) :
  Audit.analyzeSEO p = Some r ->
  recommendationsOf r = [] ->
  Scoring.local (Audit.scoreBreakdown r) = 15
  /\ Scoring.social (Audit.scoreBreakdown r) = 10
  /\ Scoring.technical (Audit.scoreBreakdown r) >= 25
  /\ Scoring.onPage (Audit.scoreBreakdown r)
     >= 24 + altPoints (Scoring.imagesData (Audit.inputs r))
  /\ Audit.score r >= 74 + altPoints (Scoring.imagesData (Audit.inputs r))
  /\ Audit.score r >= 74.
Proof.
  intros Hr N.
  destruct (analyzeSEO_result p r Hr) as (Hs & Hsc & Hb & H1 & H2 & H3).
  destruct (analyzeSEO_inputs p r Hr) as (Hh & _).
  unfold recommendationsOf in N. rewrite recommendations_pieces in N.
  repeat match type of N with
         | _ ++ _ = [] => apply app_eq_nil in N; destruct N as [?N N]
         end.
  repeat match goal with
         | H : _ ++ _ = [] |- _ => apply app_eq_nil in H; destruct H as [?N H]
         end.
  repeat match goal with
         | H : (if _ then [_] else []) = [] |- _ => apply flag_piece_nil in H
         end.
  repeat match goal with
         | H : negb _ = false |- _ => apply negb_false_iff in H
         end.
  match goal with H : hasIdentitySchema _ = true |- _ =>
    destruct (schema_flags_need_types p r Hr (or_introl H)) as (S1 & S2) end.
  match goal with H : titleRecommendation _ _ = [] |- _ =>
    apply title_recommendation_iff in H; rename H into Tt end.
  match goal with H : descriptionRecommendation _ _ = [] |- _ =>
    apply description_recommendation_iff in H; rename H into Td end.
  assert (Ph : h1Points (Scoring.headings (Audit.inputs r)) >= 1).
  { match goal with H : h1Recommendation _ _ = [] |- _ => rename H into Th end.
    unfold h1Recommendation in Th. unfold h1Points.
    assert (0 <= h1Count (Scoring.headings (Audit.inputs r)))
      by (rewrite Hh; unfold Facts.headings; cbn [h1Count]; lia).
    destruct (Z.eqb_spec (h1Count (Scoring.headings (Audit.inputs r))) 0);
      [discriminate|].
    destruct (Z.gtb_spec (h1Count (Scoring.headings (Audit.inputs r))) 1);
      [discriminate|].
    destruct (Z.eqb_spec (h1Count (Scoring.headings (Audit.inputs r))) 1); [|lia].
    destruct (h1GoodLength (Scoring.headings (Audit.inputs r))); lia. }
  assert (Py : hierarchyPoints (Scoring.headings (Audit.inputs r)) >= 2).
  { match goal with H : (h2Count _ <? 2) = false |- _ => apply Z.ltb_ge in H;
      rename H into Th2 end.
    unfold hierarchyPoints.
    destruct (Z.geb_spec (h2Count (Scoring.headings (Audit.inputs r))) 2); [|lia].
    destruct ((h2Count (Scoring.headings (Audit.inputs r)) >=? 3)
              && ((h3Count (Scoring.headings (Audit.inputs r)) >=? 2)
                  || (h4Count (Scoring.headings (Audit.inputs r)) >=? 1))); lia. }
  assert (Pc : contentPoints (Scoring.content (Audit.inputs r)) >= 1).
  { match goal with H : (wordCount _ <? 300) = false |- _ => apply Z.ltb_ge in H;
      rename H into Tw end.
    unfold contentPoints.
    repeat match goal with
           | |- context [?a >=? ?b] => destruct (Z.geb_spec a b)
           end; lia. }
  pose proof (altPoints_range (Scoring.imagesData (Audit.inputs r))) as Pa.
  assert (Pt : technicalPoints (Audit.inputs r) >= 25).
  { unfold technicalPoints, schemaPoints. rewrite S1, S2.
    repeat match goal with
           | H : ?f (technicalSEO (Audit.inputs r)) = true |- _ => rewrite H
           end.
    destruct (hasSSL (technicalSEO (Audit.inputs r))); lia. }
  assert (Pl : localPoints (Audit.inputs r) = 15).
  { unfold localPoints.
    repeat match goal with
           | H : ?f (localSEO (Audit.inputs r)) = true |- _ => rewrite H
           end. reflexivity. }
  assert (Ps : socialPoints (Audit.inputs r) = 10).
  { unfold socialPoints, socialLinksCount.
    repeat match goal with
           | H : ?f (socialLinks (Audit.inputs r)) = true |- _ => rewrite H
           end.
    destruct (Social.hasTwitter (socialLinks (Audit.inputs r))),
      (Social.hasLinkedIn (socialLinks (Audit.inputs r))),
      (Social.hasYouTube (socialLinks (Audit.inputs r))); reflexivity. }
  rewrite Hsc, Hb.
  unfold Scoring.score, score_of, scoreBreakdown; cbn [onPage technical local social].
  unfold onPagePoints. repeat split; lia.
Qed.

Lemma no_recommendation_score_witness :
  exists r,
    Audit.analyzeSEO Samples.nothingToRecommend = Some r
    /\ recommendationsOf r = []
    /\ Audit.score r = 76
    /\ Scoring.local (Audit.scoreBreakdown r) = 15
    /\ Scoring.social (Audit.scoreBreakdown r) = 10.
Proof.
  eexists. split; [vm_compute; reflexivity|].
  split; [vm_compute; reflexivity|]. split; [vm_compute; reflexivity|].
  refine (let H := no_recommendation_score Samples.nothingToRecommend _ _ _ in
          conj (proj1 H) (proj1 (proj2 H)));
    vm_compute; reflexivity.
Defined.

Lemma collapse_visible (b : bool) (s : jsstring) :
  existsb visible (collapse_from b s) = existsb visible s.
Proof.
  revert b. induction s as [|c r IH]; intro b; simpl; trivial.
  unfold visible at 2. destruct (is_white_space c) eqn:E; simpl.
  - destruct b; simpl; apply IH.
  - unfold visible at 1. rewrite E. simpl. trivial.
Qed.

Lemma trailing_visible (s : jsstring) :
  s <> [] -> no_trailing_white s = true -> existsb visible s = true.
Proof.
  induction s as [|c r IH]; [congruence|]. intros _ T.
  destruct r as [|d r'].
  - cbn in T. cbn. now rewrite T.
  - change (visible c || existsb visible (d :: r') = true).
    rewrite IH; [apply orb_true_r | discriminate | exact T].
Qed.

Lemma collapse_no_trailing (b : bool) (s : jsstring) :
  no_trailing_white s = true -> no_trailing_white (collapse_from b s) = true.
Proof.
  revert b. induction s as [|c r IH]; intros b T; trivial.
  assert (T' : r <> [] -> no_trailing_white r = true)
    by (intro H; now apply (no_trailing_white_tail c r H)).
  cbn [collapse_from]. destruct (is_white_space c) eqn:W.
  - destruct r as [|d r'].
    + cbn in T. unfold visible in T. rewrite W in T. discriminate.
    + specialize (T' ltac:(discriminate)).
      destruct b; [now apply IH|].
      pose proof (IH true T') as I.
      pose proof (trailing_visible (d :: r') ltac:(discriminate) T') as V.
      rewrite <- (collapse_visible true) in V.
      cbn [no_trailing_white].
      destruct (collapse_from true (d :: r')); [discriminate | exact I].
  - destruct r as [|d r'].
    + cbn. unfold visible. now rewrite W.
    + specialize (T' ltac:(discriminate)).
      pose proof (IH false T') as I.
      pose proof (trailing_visible (d :: r') ltac:(discriminate) T') as V.
      rewrite <- (collapse_visible false) in V.
      cbn [no_trailing_white].
      destruct (collapse_from false (d :: r')); [discriminate | exact I].
Qed.

(** An element text prepared for the address is already trimmed. *)
Lemma addrText_trimmed (elementText : jsstring) :
  trim (addrText elementText) = addrText elementText.
Proof.
  unfold addrText, collapse_white.
  destruct (trim_shape elementText) as (_ & _ & S & T).
  apply trim_tidy.
  - destruct (trim elementText) as [|c r]; trivial.
    cbn [collapse_from]. cbn in S. unfold visible in S.
    apply negb_true_iff in S. rewrite S. cbn. unfold visible. now rewrite S.
  - now apply collapse_no_trailing.
Qed.

Lemma fallback_markup_candidate (m : Markup) (c : candidate) :
  In c (fallbackCandidates m) ->
  (cand_source c = MicrodataItemprop ->
   exists e, text c = addrText e /\ addressSized (text c) = true)
  /\ (forall sel, cand_source c = CSSSelector sel ->
      exists e, text c = addrText e /\ addressSized (text c) = true
                /\ has_digit (text c) = true).
Proof.
  unfold fallbackCandidates. rewrite !in_app_iff, !in_map_iff, in_flat_map.
  intros [(t & <- & _) | [(t & <- & _) | [(t & <- & Ht) | (sel & _ & Hs)]]];
    cbn [cand_source candidateOf text]; split; try discriminate;
    try (intros ? ?; discriminate).
  - intros _. apply filter_In in Ht as [Ht S].
    apply in_map_iff in Ht as (e & <- & _). eauto.
  - apply in_map_iff in Hs as (t & <- & _). discriminate.
  - apply in_map_iff in Hs as (t & <- & Ht). intros sel' _.
    apply filter_In in Ht as [Ht S]. apply andb_true_iff in S as [S D].
    apply in_map_iff in Ht as (e & <- & _). cbn [text candidateOf]. eauto.
Qed.

(** X22.  An address that is reported from a microdata element or from
    an element found by a selector has more than 15 and fewer than 200
    characters, has no white space at its ends, and - for a selector -
    holds a digit. *)
Theorem markup_address_size (ldJsonScripts : list ldScript) (m : Markup)
    (src : sourceLabel) :
  addressSource (detectAddress ldJsonScripts m) = Some src ->
  src = MicrodataItemprop \/ (exists sel, src = CSSSelector sel) ->
  exists t,
    addressText (detectAddress ldJsonScripts m) = Some t
    /\ 15 < str_length t < 200
    /\ trim t = t
    /\ ((exists sel, src = CSSSelector sel) -> has_digit t = true).
Proof.
  unfold detectAddress. intros S K.
  destruct (schemaAddress ldJsonScripts).
  - cbn in S. injection S as <-. destruct K as [K|[sel K]]; discriminate.
  - rewrite addressCandidates_fallback in *.
    destruct (fallbackCandidates m) as [|c r] eqn:E; [discriminate|].
    cbn in S. injection S as <-. cbn [addressText].
    assert (Hin : In c (fallbackCandidates m)) by (rewrite E; now left).
    destruct (fallback_markup_candidate m c Hin) as [M C].
    assert (Z : forall t, addressSized t = true -> 15 < str_length t < 200).
    { intros t H. unfold addressSized in H. apply andb_true_iff in H as [A B].
      apply Z.gtb_lt in A. apply Z.ltb_lt in B. lia. }
    destruct K as [K|[sel K]].
    + destruct (M K) as (e & Et & Sz). exists (text c).
      rewrite Et, addrText_trimmed. rewrite Et in Sz.
      repeat split; try apply (Z _ Sz); try apply addrText_trimmed.
      intros [sel' K']. rewrite K in K'. discriminate.
    + destruct (C sel K) as (e & Et & Sz & D). exists (text c).
      rewrite Et, addrText_trimmed. rewrite Et in Sz, D.
      repeat split; try apply (Z _ Sz); try apply addrText_trimmed. trivial.
Qed.

Lemma markup_address_size_witness :
  let m := {| usMatches := None; poBoxMatches := None;
              microdataElements := [lit "Leeds"; lit "  9 Mill Lane,   Leeds LS1 4AB  "];
              selected := fun _ => [] |} in
  addressText (detectAddress [] m) = Some (lit "9 Mill Lane, Leeds LS1 4AB").
Proof.
  destruct (markup_address_size []
              {| usMatches := None; poBoxMatches := None;
                 microdataElements := [lit "Leeds"; lit "  9 Mill Lane,   Leeds LS1 4AB  "];
                 selected := fun _ => [] |} MicrodataItemprop eq_refl)
    as (t & H & _).
  - now left.
  - cbv zeta. rewrite H. vm_compute in H. injection H as <-. reflexivity.
Defined.

Lemma firstSeen_scripts (ldJsonScripts : list ldScript) :
  forallb scriptWellTyped ldJsonScripts = true ->
  Schema.schemaTypes (state_of (eachScript ldJsonScripts init))
  = List.map JStr (firstSeen (flat_map scriptTypes ldJsonScripts)).
Proof.
  intro W. rewrite (eachScript_absorb ldJsonScripts W). cbn [state_of].
  rewrite (schemaTypes_absorb _ [] init eq_refl), firstSeen_from_empty; trivial.
  apply Forall_flat_map, Forall_forall. intros el _.
  destruct el; cbn [scriptTypes]; try constructor. apply allTypes_truthy_all.
Qed.

Lemma identity_flag_membership (ldJsonScripts : list ldScript) :
  let s := state_of (eachScript ldJsonScripts init) in
  Schema.hasIdentitySchema s = true
  <-> exists t, In (JStr t) (Schema.schemaTypes s) /\ isIdentity t = true.
Proof.
  destruct (identityInv_eachScript ldJsonScripts) as [Hh _ _].
  cbv zeta. rewrite Hh. unfold identityStrings.
  set (l := Schema.schemaTypes (state_of (eachScript ldJsonScripts init))).
  split.
  - intro H. destruct (filter isIdentity (typeStrings l)) as [|t r] eqn:E;
      [congruence|].
    assert (Hin : In t (filter isIdentity (typeStrings l))) by (rewrite E; now left).
    apply filter_In in Hin as [Hin I]. exists t. split; trivial.
    unfold typeStrings in Hin. apply in_flat_map in Hin as (v & Hv & Ht).
    destruct v; simpl in Ht; try contradiction. destruct Ht as [->|[]]. exact Hv.
  - intros (t & Hin & I) E.
    assert (Hf : In t (filter isIdentity (typeStrings l))).
    { apply filter_In. split; trivial. unfold typeStrings.
      apply in_flat_map. exists (JStr t). split; [exact Hin | now left]. }
    rewrite E in Hf. contradiction.
Qed.

(** X23.  For well-typed scripts, the order of the script tags decides
    only the order of [schemaTypes] (and which identity type is
    reported): taken in any other order the scripts record the same
    types, as many of them, and set the same two flags. *)
Theorem script_order_keeps_types (l l' : list ldScript) :
  Permutation l l' ->
  forallb scriptWellTyped l = true ->
  let a := state_of (eachScript l init) in
  let b := state_of (eachScript l' init) in
  (forall v, In v (Schema.schemaTypes a) <-> In v (Schema.schemaTypes b))
  /\ List.length (Schema.schemaTypes a) = List.length (Schema.schemaTypes b)
  /\ Schema.hasIdentitySchema a = Schema.hasIdentitySchema b
  /\ Schema.hasLocalBusinessSchema a = Schema.hasLocalBusinessSchema b.
Proof.
  intros P Wa a b.
  assert (Wb : forallb scriptWellTyped l' = true).
  { rewrite forallb_forall in *. intros el Hel. apply Wa.
    apply (Permutation_in el (Permutation_sym P) Hel). }
  assert (M : forall v, In v (Schema.schemaTypes a) <-> In v (Schema.schemaTypes b)).
  { intro v. subst a b. rewrite (firstSeen_scripts _ Wa), (firstSeen_scripts _ Wb).
    rewrite !in_map_iff.
    split; intros (t & E & H); exists t; split; trivial;
      apply (proj1 (In_firstSeen t _)) in H; apply (proj2 (In_firstSeen t _));
      apply in_flat_map in H as (el & Hel & Ht); apply in_flat_map; exists el;
      split; trivial.
    - apply (Permutation_in el P Hel).
    - apply (Permutation_in el (Permutation_sym P) Hel). }
  split; [exact M|]. split; [|split].
  - assert (Na : NoDup (Schema.schemaTypes a))
      by (subst a; rewrite (firstSeen_scripts _ Wa);
          apply NoDup_map_JStr, NoDup_firstSeen).
    assert (Nb : NoDup (Schema.schemaTypes b))
      by (subst b; rewrite (firstSeen_scripts _ Wb);
          apply NoDup_map_JStr, NoDup_firstSeen).
    apply Nat.le_antisymm; apply NoDup_incl_length; trivial; intros v Hv;
      now apply M.
  - apply eq_iff_eq_true. subst a b.
    rewrite (identity_flag_membership l), (identity_flag_membership l').
    split; intros (t & Ht & I); exists t; split; trivial; now apply M.
  - subst a b. rewrite (localInv_eachScript l), (localInv_eachScript l').
    apply eq_iff_eq_true. rewrite !existsb_exists.
    split; intros (v & Hv & I); exists v; split; trivial; now apply M.
Qed.

Lemma script_order_keeps_types_witness :
  Schema.hasLocalBusinessSchema
    (state_of (eachScript [Parsed Samples.personScript; Parsed Samples.storeScript;
                           Parsed Samples.organizationAndPerson] init))
  = Schema.hasLocalBusinessSchema
      (state_of (eachScript [Parsed Samples.storeScript; Parsed Samples.personScript;
                             Parsed Samples.organizationAndPerson] init)).
Proof.
  apply (script_order_keeps_types
           [Parsed Samples.personScript; Parsed Samples.storeScript;
            Parsed Samples.organizationAndPerson]
           [Parsed Samples.storeScript; Parsed Samples.personScript;
            Parsed Samples.organizationAndPerson]).
  - apply perm_swap.
  - reflexivity.
Defined.

End CrossProperties.
